(** * gpq-bot: the tabular score ledger of [src/n8n.ts]

  A shallow embedding of the ledger engine (name matching, column
  addressing, upsert, date parsing, series extraction, alignment and
  cumulative aggregation) and the properties its specification states.

  Conventions of the embedding.
  - A JavaScript string is a [string] whose characters are the UTF-16 code
    units U+0000..U+00FF (one [ascii] per code unit), so [length] is the
    JavaScript [length].  Case folding is the one of the root locale.
  - An array is a [list]; an index is a [nat]; [undefined] read out of
    range is written out where the source relies on it.
  - A [Map] is an association list in insertion order.
  - A number that is an index, a length or a date is in [nat] or [Z]; a
    score is an IEEE 754 double, a [float].  [Number(s)], the conversion of
    a string to a double, is a parameter of the functions that call it.
  - A [Date] is its time value, the milliseconds since the epoch, in [Z].
  - [null] results are [None]. *)

From Stdlib Require Import ZArith List String Ascii Bool Lia Arith.
From Corelib Require Import PrimFloat.
From Stdlib Require Import Sorting.Permutation Sorting.Sorted.
Import ListNotations.
Open Scope string_scope.
Open Scope list_scope.
Open Scope nat_scope.

Set Implicit Arguments.

(* ================================================================== *)
(** * JavaScript strings *)
(* ================================================================== *)

Module JsString.

Definition code (c : ascii) : nat := nat_of_ascii c.

(** [WhiteSpace] and [LineTerminator] code units below U+0100: TAB, LF, VT,
    FF, CR, SP and NBSP.  It is the class of [\s] and of [trim]. *)
Definition isSpace (c : ascii) : bool :=
  let n := code c in
  ((9 <=? n) && (n <=? 13)) || (n =? 32) || (n =? 160).

Definition isDigit (c : ascii) : bool :=
  let n := code c in (48 <=? n) && (n <=? 57).

(** Simple lower-case mapping of a code unit below U+0100. *)
Definition lowerChar (c : ascii) : ascii :=
  let n := code c in
  if ((65 <=? n) && (n <=? 90))
     || ((192 <=? n) && (n <=? 222) && negb (n =? 215))
  then ascii_of_nat (n + 32) else c.

Fixpoint toLowerCase (s : string) : string :=
  match s with
  | EmptyString => EmptyString
  | String c s' => String (lowerChar c) (toLowerCase s')
  end.

Fixpoint allSpace (s : string) : bool :=
  match s with
  | EmptyString => true
  | String c s' => isSpace c && allSpace s'
  end.

Fixpoint trimStart (s : string) : string :=
  match s with
  | EmptyString => EmptyString
  | String c s' => if isSpace c then trimStart s' else s
  end.

Fixpoint trimEnd (s : string) : string :=
  match s with
  | EmptyString => EmptyString
  | String c s' => if allSpace s then EmptyString else String c (trimEnd s')
  end.

Definition trim (s : string) : string := trimEnd (trimStart s).

(** [s.replace(/\s+/g, " ")]: every maximal run of white space becomes one
    space.  [inRun] tells that the previous code unit was white space. *)
Fixpoint collapseFrom (inRun : bool) (s : string) : string :=
  match s with
  | EmptyString => EmptyString
  | String c s' =>
      if isSpace c
      then if inRun then collapseFrom true s'
           else String " " (collapseFrom true s')
      else String c (collapseFrom false s')
  end.

Definition collapseSpaces (s : string) : string := collapseFrom false s.

(** [s.includes(t)] *)
Fixpoint includes (s t : string) : bool :=
  String.prefix t s
  || match s with
     | EmptyString => false
     | String _ s' => includes s' t
     end.

(** [s.replace(/,/g, "")] *)
Fixpoint removeCommas (s : string) : string :=
  match s with
  | EmptyString => EmptyString
  | String c s' =>
      if Ascii.eqb c "," then removeCommas s' else String c (removeCommas s')
  end.

(** [s.padStart(n, "0")] *)
Fixpoint zeros (k : nat) : string :=
  match k with O => EmptyString | S k' => String "0" (zeros k') end.

Definition padStart0 (n : nat) (s : string) : string :=
  (zeros (n - String.length s) ++ s)%string.

(** Value of a string of decimal digits, [Number(s)] on [/^\d+$/]. *)
Definition digitsValue (s : string) : Z :=
  fold_left (fun acc c => (10 * acc + Z.of_nat (code c - 48))%Z)
            (list_ascii_of_string s) 0%Z.

Definition allDigits (s : string) : bool :=
  forallb isDigit (list_ascii_of_string s).

(** Longest prefix of decimal digits and what follows it. *)
Fixpoint spanDigits (s : string) : string * string :=
  match s with
  | EmptyString => (EmptyString, EmptyString)
  | String c s' =>
      if isDigit c
      then let (d, r) := spanDigits s' in (String c d, r)
      else (EmptyString, s)
  end.

(** [String(n)] for an integer [n >= 0]. *)
Fixpoint decimalFrom (fuel : nat) (n : Z) (acc : string) : string :=
  match fuel with
  | O => acc
  | S fuel' =>
      let acc' := String (ascii_of_nat (48 + Z.to_nat (n mod 10))) acc in
      if (n <? 10)%Z then acc' else decimalFrom fuel' (n / 10) acc'
  end.

Definition ofNumber (n : Z) : string :=
  decimalFrom (S (Z.to_nat n)) n EmptyString.

End JsString.

Import JsString.

(* ================================================================== *)
(** * [Array] indexing, [Map], [Array.prototype.sort] *)
(* ================================================================== *)

(** [(row[col] ?? "").toString()]: a cell of a row of strings, the empty
    string out of range. *)
Definition cellAt (row : list string) (col : nat) : string := nth col row "".

(** [a[i] = x]: assignment at an index, which extends the array when [i] is
    not below its length ([d] fills the gap). *)
Fixpoint arraySet {A : Type} (d : A) (i : nat) (x : A) (a : list A) : list A :=
  match i, a with
  | O, [] => [x]
  | O, _ :: t => x :: t
  | S i', [] => d :: arraySet d i' x []
  | S i', h :: t => h :: arraySet d i' x t
  end.

(** [a.findIndex(p)], [None] for -1. *)
Fixpoint findIndex {A : Type} (p : A -> bool) (a : list A) : option nat :=
  match a with
  | [] => None
  | x :: t => if p x then Some 0 else option_map S (findIndex p t)
  end.

Module JsMap.

Section WithKey.

Variable K : Type.
Variable eqb : K -> K -> bool.
Variable V : Type.

(** A [Map<K, V>]: its entries in insertion order. *)
Definition t : Type := list (K * V).

Fixpoint get (m : t) (k : K) : option V :=
  match m with
  | [] => None
  | (k', v) :: m' => if eqb k' k then Some v else get m' k
  end.

Definition has (m : t) (k : K) : bool :=
  match get m k with Some _ => true | None => false end.

(** [m.set(k, v)]: an existing key keeps its place, a new one goes last. *)
Fixpoint set (m : t) (k : K) (v : V) : t :=
  match m with
  | [] => [(k, v)]
  | (k', v') :: m' =>
      if eqb k' k then (k', v) :: m' else (k', v') :: set m' k v
  end.

Definition keys (m : t) : list K := map fst m.

(** [new Map(entries)] *)
Definition ofEntries (es : list (K * V)) : t :=
  fold_left (fun m e => set m (fst e) (snd e)) es [].

End WithKey.

End JsMap.

Section Sort.

Variable A : Type.
(** The comparator: negative when the first argument goes first. *)
Variable cmp : A -> A -> Z.

Fixpoint insertSorted (x : A) (l : list A) : list A :=
  match l with
  | [] => [x]
  | y :: l' => if (cmp x y <=? 0)%Z then x :: l else y :: insertSorted x l'
  end.

(** [l.sort(cmp)].  The sort is stable, and the stable order of a list under
    a comparator that is a total preorder is unique: it is computed here by
    insertion from the right. *)
Fixpoint sortBy (l : list A) : list A :=
  match l with
  | [] => []
  | x :: l' => insertSorted x (sortBy l')
  end.

End Sort.

(* ================================================================== *)
(** * Name normalizer and fuzzy matcher (n8n.ts 103-122) *)
(* ================================================================== *)

Definition normalizeName (raw : string) : string :=
  toLowerCase (collapseSpaces (trim raw)).

Definition strlen (s : string) : Z := Z.of_nat (String.length s).

Definition NameIndex : Type := JsMap.t string nat.

Definition isPartialMatch (normalizedInput : string) (e : string * nat) : bool :=
  includes (fst e) normalizedInput || includes normalizedInput (fst e).

Definition closestLengthCmp (normalizedInput : string) (a b : string * nat) : Z :=
  (Z.abs (strlen (fst a) - strlen normalizedInput)
   - Z.abs (strlen (fst b) - strlen normalizedInput))%Z.

Definition findRowByName (nameToRow : NameIndex) (inputName : string)
  : option nat :=
  let normalizedInput := normalizeName inputName in
  match JsMap.get String.eqb nameToRow normalizedInput with
  | Some exact => Some exact
  | None =>
      let partialMatches := filter (isPartialMatch normalizedInput) nameToRow in
      if (List.length partialMatches =? 0)%nat then None
      else
        match sortBy (closestLengthCmp normalizedInput) partialMatches with
        | first :: _ => Some (snd first)
        | [] => None
        end
  end.

(* ================================================================== *)
(** * Column addressing (n8n.ts 162-171) *)
(* ================================================================== *)

(** The [while (x > 0)] loop; [fuel] bounds the number of turns. *)
Fixpoint columnLabelLoop (fuel : nat) (x : Z) (s : string) : string :=
  match fuel with
  | O => s
  | S fuel' =>
      if (x >? 0)%Z
      then
        let m := ((x - 1) mod 26)%Z in
        columnLabelLoop fuel' ((x - 1) / 26)%Z
                        (String (ascii_of_nat (65 + Z.to_nat m)) s)
      else s
  end.

(** [x] strictly decreases, so [n] turns are enough for the loop to leave by
    its own test (see [columnLabelLoop_fuel]). *)
Definition columnLabel (n : Z) : string :=
  columnLabelLoop (Z.to_nat n) n EmptyString.

(* ================================================================== *)
(** * Ledger upsert engine (n8n.ts 173-238) *)
(* ================================================================== *)

Record CulvertScoreRow : Type := mkScore { name : string; culvert : string }.

(** An element of the [data] of [batchUpdate]. *)
Record ValueRange : Type := mkUpdate { range : string; values : list (list string) }.

Definition Sheet : Type := list (list string).

(** Lines 182-184: an empty sheet gets an empty header row, and a header
    whose first cell is missing or empty gets ["Name"]. *)
Definition withHeader (existing : Sheet) : Sheet :=
  let values := match existing with [] => [[]] | _ => existing end in
  match values with
  | [] => values
  | header :: rest =>
      if String.eqb (cellAt header 0) "" then arraySet "" 0 "Name" header :: rest
      else values
  end.

(** Lines 186-192: the column of [dateLabel] in the header, a new last column
    when the header has none; the header with the label in place. *)
Definition resolveDateCol (header : list string) (dateLabel : string)
  : nat * list string :=
  match findIndex (fun v => String.eqb v dateLabel) header with
  | Some dateCol => (dateCol, header)
  | None =>
      let dateCol := Nat.max 1 (List.length header) in
      (dateCol, arraySet "" dateCol dateLabel header)
  end.

(** Lines 194-198: the index of the data rows, rows 1 and up, by normalized
    name; rows with a blank name are left out. *)
Fixpoint indexRows (r : nat) (rows : Sheet) (nameToRow : NameIndex) : NameIndex :=
  match rows with
  | [] => nameToRow
  | row :: rows' =>
      let name := normalizeName (cellAt row 0) in
      indexRows (S r) rows'
        (if String.eqb name "" then nameToRow
         else JsMap.set String.eqb nameToRow name r)
  end.

Definition buildIndex (values : Sheet) : NameIndex := indexRows 1 (skipn 1 values) [].

(** The state the loop over the scores threads: the in-memory sheet, the
    index and the updates collected so far. *)
Record UpsertState : Type := mkState {
  st_values : Sheet;
  st_nameToRow : NameIndex;
  st_updates : list ValueRange
}.

Definition cellRange (sheetName : string) (col row : nat) : string :=
  (sheetName ++ "!" ++ columnLabel (Z.of_nat col + 1) ++ ofNumber (Z.of_nat row + 1))%string.

(** Lines 202-215, one turn of the loop. *)
Definition upsertStep (sheetName : string) (dateCol : nat)
           (st : UpsertState) (score : CulvertScoreRow) : UpsertState :=
  let normalizedScoreName := normalizeName (name score) in
  let '(rowIdx, values, nameToRow) :=
    match findRowByName (st_nameToRow st) normalizedScoreName with
    | Some rowIdx => (rowIdx, st_values st, st_nameToRow st)
    | None =>
        let rowIdx := List.length (st_values st) in
        (rowIdx, st_values st ++ [[name score]],
         JsMap.set String.eqb (st_nameToRow st) normalizedScoreName rowIdx)
    end in
  mkState values nameToRow
          (st_updates st ++ [mkUpdate (cellRange sheetName dateCol rowIdx) [[culvert score]]]).

(** The state when the loop starts (lines 182-200), with the date column. *)
Definition upsertInit (existing : Sheet) (dateLabel : string) : nat * UpsertState :=
  match withHeader existing with
  | [] => (0, mkState [] [] [])
  | header :: rest =>
      let (dateCol, header') := resolveDateCol header dateLabel in
      let values := header' :: rest in
      (dateCol, mkState values (buildIndex values) [])
  end.

Definition upsertLoop (sheetName : string) (dateCol : nat)
           (st : UpsertState) (scores : list CulvertScoreRow) : UpsertState :=
  fold_left (upsertStep sheetName dateCol) scores st.

(** Lines 217-229: the three writes that follow the loop. *)
Definition finalUpdates (sheetName dateLabel : string) (dateCol : nat) (values : Sheet)
  : list ValueRange :=
  let names := map (fun row => [cellAt row 0]) (skipn 1 values) in
  [ mkUpdate (sheetName ++ "!A1") [["Name"]];
    mkUpdate (sheetName ++ "!" ++ columnLabel (Z.of_nat dateCol + 1) ++ "1") [[dateLabel]];
    mkUpdate (sheetName ++ "!A2:A" ++ ofNumber (Z.of_nat (List.length names) + 1)) names ].

(** The in-memory sheet and the date column when the function returns. *)
Definition upsertRun (sheetName : string) (existing : Sheet) (dateLabel : string)
           (scores : list CulvertScoreRow) : nat * UpsertState :=
  let (dateCol, st0) := upsertInit existing dateLabel in
  let st := upsertLoop sheetName dateCol st0 scores in
  (dateCol,
   mkState (st_values st) (st_nameToRow st)
           (st_updates st ++ finalUpdates sheetName dateLabel dateCol (st_values st))).

(** [upsertCulvertScoresByName]: the [data] handed to [batchUpdate], given
    the rows read from the sheet; no request is made for an empty batch. *)
Definition upsertCulvertScoresByName (sheetName : string) (existing : Sheet)
           (dateLabel : string) (scores : list CulvertScoreRow) : list ValueRange :=
  if (List.length scores =? 0)%nat then []
  else st_updates (snd (upsertRun sheetName existing dateLabel scores)).

(** The in-memory [values] at the end of the call. *)
Definition upsertValues (sheetName : string) (existing : Sheet) (dateLabel : string)
           (scores : list CulvertScoreRow) : Sheet :=
  st_values (snd (upsertRun sheetName existing dateLabel scores)).

(* ================================================================== *)
(** * [Date] (the part of the built-in the program uses) *)
(* ================================================================== *)

Module JsDate.

Local Open Scope Z_scope.

Definition msPerDay : Z := 86400000.

(** Day number of the first of [month] (1..12) of [year] plus [day - 1], in
    the proleptic Gregorian calendar, day 0 being 1970-01-01 ([MakeDay]). *)
Definition daysFromCivil (year month day : Z) : Z :=
  let y := if month <=? 2 then year - 1 else year in
  let era := y / 400 in
  let yoe := y - era * 400 in
  let mp := (month + 9) mod 12 in
  let doy := (153 * mp + 2) / 5 + day - 1 in
  let doe := yoe * 365 + yoe / 4 - yoe / 100 + doy in
  era * 146097 + doe - 719468.

(** Year, month (1..12) and day of the month of a day number
    ([YearFromTime], [MonthFromTime], [DateFromTime]). *)
Definition civilFromDays (z : Z) : Z * Z * Z :=
  let z' := z + 719468 in
  let era := z' / 146097 in
  let doe := z' - era * 146097 in
  let yoe := (doe - doe / 1460 + doe / 36524 - doe / 146096) / 365 in
  let doy := doe - (365 * yoe + yoe / 4 - yoe / 100) in
  let mp := (5 * doy + 2) / 153 in
  let d := doy - (153 * mp + 2) / 5 + 1 in
  let m := if mp <? 10 then mp + 3 else mp - 9 in
  let y := yoe + era * 400 in
  (if m <=? 2 then y + 1 else y, m, d).

(** [Date.UTC(year, monthIndex, day)], the time value of midnight.  A year
    0..99 means 1900 + year; months and days out of range carry over. *)
Definition UTC (year monthIndex day : Z) : Z :=
  let yr := if (0 <=? year) && (year <=? 99) then 1900 + year else year in
  let ym := yr + monthIndex / 12 in
  let mn := monthIndex mod 12 in
  (daysFromCivil ym (mn + 1) 1 + (day - 1)) * msPerDay.

Definition getUTCFullYear (t : Z) : Z := fst (fst (civilFromDays (t / msPerDay))).
Definition getUTCMonth (t : Z) : Z := snd (fst (civilFromDays (t / msPerDay))) - 1.
Definition getUTCDate (t : Z) : Z := snd (civilFromDays (t / msPerDay)).

End JsDate.

(* ================================================================== *)
(** * Date parsers (n8n.ts 282-322, 410-418) *)
(* ================================================================== *)

Definition isValidDateParts (year month day : Z) : bool :=
  if ((year <? 1000) || (year >? 9999))%Z then false
  else if ((month <? 1) || (month >? 12))%Z then false
  else if ((day <? 1) || (day >? 31))%Z then false
  else
    let parsed := JsDate.UTC year (month - 1) day in
    (JsDate.getUTCFullYear parsed =? year)%Z
    && (JsDate.getUTCMonth parsed =? month - 1)%Z
    && (JsDate.getUTCDate parsed =? day)%Z.

Definition lengthIn (s : string) (ns : list nat) : bool :=
  existsb (Nat.eqb (String.length s)) ns.

(** The three anchored patterns of the program,
    [/^(\d{1,2})\/(\d{1,2})\/(\d{2})$/], [/^(\d{1,2})\/(\d{1,2})\/(\d{2}|\d{4})$/]
    and [/^(\d{4})-(\d{2})-(\d{2})$/], are three groups of digits between two
    separators.  A group is followed by a character that is no digit or by
    the end, so it is the longest run of digits there, and the pattern
    matches when each run has one of the lengths its group allows. *)
Definition matchThreeGroups (sep : ascii) (l1 l2 l3 : list nat) (raw : string)
  : option (string * string * string) :=
  let (g1, r1) := spanDigits raw in
  if negb (lengthIn g1 l1) then None
  else
    match r1 with
    | EmptyString => None
    | String c1 r2 =>
        if negb (Ascii.eqb c1 sep) then None
        else
          let (g2, r3) := spanDigits r2 in
          if negb (lengthIn g2 l2) then None
          else
            match r3 with
            | EmptyString => None
            | String c2 r4 =>
                if negb (Ascii.eqb c2 sep) then None
                else
                  let (g3, r5) := spanDigits r4 in
                  if lengthIn g3 l3 && String.eqb r5 "" then Some (g1, g2, g3)
                  else None
            end
    end.

Record N8nDate : Type := mkN8nDate { isoDate : string; format : string }.

Definition isoOfParts (year month day : Z) : string :=
  (padStart0 4 (ofNumber year) ++ "-" ++ padStart0 2 (ofNumber month)
   ++ "-" ++ padStart0 2 (ofNumber day))%string.

Definition parseN8nDate (raw : string) : option N8nDate :=
  match matchThreeGroups "/" [1; 2] [1; 2] [2] raw with
  | None => None
  | Some (g1, g2, g3) =>
      let month := digitsValue g1 in
      let day := digitsValue g2 in
      let year := (2000 + digitsValue g3)%Z in
      if negb (isValidDateParts year month day) then None
      else Some (mkN8nDate (isoOfParts year month day) "MM/DD/YY")
  end.

Definition isoToSheetDateLabel (isoDate : string) : string :=
  match matchThreeGroups "-" [4] [2] [2] isoDate with
  | None => isoDate
  | Some (g1, g2, g3) =>
      let month := ofNumber (digitsValue g2) in
      let day := ofNumber (digitsValue g3) in
      let year2 := padStart0 2 (ofNumber (digitsValue g1 mod 100)) in
      (month ++ "/" ++ day ++ "/" ++ year2)%string
  end.

Definition parseSheetDate (raw : string) : option Z :=
  match matchThreeGroups "/" [1; 2] [1; 2] [2; 4] (trim raw) with
  | None => None
  | Some (g1, g2, g3) =>
      let month := digitsValue g1 in
      let day := digitsValue g2 in
      let year :=
        if (String.length g3 =? 2)%nat then (2000 + digitsValue g3)%Z
        else digitsValue g3 in
      if negb (isValidDateParts year month day) then None
      else Some (JsDate.UTC year (month - 1) day)
  end.

(* ================================================================== *)
(** * Score parsing, extraction, alignment, aggregation
      (n8n.ts 399-408, 560-584, 774-797, 869-878) *)
(* ================================================================== *)

Definition normalizeUsername (raw : string) : string :=
  toLowerCase (collapseSpaces (trim raw)).

Record Point : Type := mkPoint { p_label : string; p_date : Z; p_value : float }.

Record UserPoints : Type := mkUser { displayName : string; points : list Point }.

Record TotalPoint : Type := mkTotal { t_label : string; t_date : Z; t_total : float }.

Inductive CumulativeReply : Type :=
| NotEnoughData
| NoDatedColumns
| CumulativeChart (labels : list string) (totals : list float).

Record Aligned : Type := mkAligned {
  al_labels : list string;
  al_seriesA : list (option float);
  al_seriesB : list (option float)
}.

Section Scores.

(** [Number(s)] of the language, a string converted to an IEEE 754 double.
    It is left open: what follows holds for every such conversion. *)
Variable Number : string -> float.

Definition parseScore (raw : string) : option float :=
  let cleaned := trim (removeCommas raw) in
  if String.eqb cleaned "" then None
  else
    let value := Number cleaned in
    if PrimFloat.is_finite value then Some value else None.

(** Lines 570-577, one turn of the loop over the columns. *)
Definition userPointAt (header targetRow : list string) (points : list Point)
           (col : nat) : list Point :=
  let label := trim (cellAt header col) in
  let rawScore := trim (cellAt targetRow col) in
  match parseSheetDate label, parseScore rawScore with
  | Some date, Some value => points ++ [mkPoint label date value]
  | _, _ => points
  end.

Definition byDate (a b : Point) : Z := (p_date a - p_date b)%Z.

Definition getUserPoints (rows : Sheet) (username : string) : option UserPoints :=
  let normalizedInput := normalizeUsername username in
  let header := nth 0 rows [] in
  match find (fun row => String.eqb (normalizeUsername (cellAt row 0)) normalizedInput)
             (skipn 1 rows) with
  | None => None
  | Some targetRow =>
      let points :=
        fold_left (userPointAt header targetRow)
                  (seq 1 (List.length header - 1)) [] in
      Some (mkUser (match targetRow with [] => "undefined" | c :: _ => c end)
                   (sortBy byDate points))
  end.

(** Lines 781-786: the total of a column over the rows 1 and up. *)
Definition columnTotal (rows : Sheet) (col : nat) : float :=
  fold_left
    (fun total row =>
       match parseScore (trim (cellAt row col)) with
       | Some value => PrimFloat.add total value
       | None => total
       end)
    (skipn 1 rows) PrimFloat.zero.

(** Lines 776-788, one turn of the loop over the columns. *)
Definition totalPointAt (rows : Sheet) (header : list string)
           (points : list TotalPoint) (col : nat) : list TotalPoint :=
  let label := trim (cellAt header col) in
  match parseSheetDate label with
  | None => points
  | Some date => points ++ [mkTotal label date (columnTotal rows col)]
  end.

Definition byTotalDate (a b : TotalPoint) : Z := (t_date a - t_date b)%Z.

(** Lines 774-788: the points before they are sorted. *)
Definition cumulativeColumns (rows : Sheet) : list TotalPoint :=
  let header := nth 0 rows [] in
  fold_left (totalPointAt rows header) (seq 1 (List.length header - 1)) [].

(** Lines 774-795: the points of the cumulative chart. *)
Definition cumulativePoints (rows : Sheet) : list TotalPoint :=
  sortBy byTotalDate (cumulativeColumns rows).

(** Lines 767-797: the cumulative command, from the rows read to the labels
    and values handed to the chart. *)
Definition cumulativeCommand (rows : Sheet) : CumulativeReply :=
  if (List.length rows <? 2)%nat then NotEnoughData
  else if (List.length (cumulativeColumns rows) =? 0)%nat then NoDatedColumns
  else
    let points := cumulativePoints rows in
    CumulativeChart (map t_label points) (map t_total points).

End Scores.

(** Lines 869-878: the two series on the dates of either. *)
Definition alignSeries (pointsA pointsB : list Point) : Aligned :=
  let setLabel := fun (m : JsMap.t Z string) (p : Point) =>
                    JsMap.set Z.eqb m (p_date p) (p_label p) in
  let dateMap := fold_left setLabel pointsB (fold_left setLabel pointsA []) in
  let times := sortBy (fun a b => (a - b)%Z) (JsMap.keys dateMap) in
  let labels :=
    map (fun t => match JsMap.get Z.eqb dateMap t with Some l => l | None => "" end)
        times in
  let aValueMap := JsMap.ofEntries Z.eqb (map (fun p => (p_date p, p_value p)) pointsA) in
  let bValueMap := JsMap.ofEntries Z.eqb (map (fun p => (p_date p, p_value p)) pointsB) in
  let seriesOf := fun (m : JsMap.t Z float) =>
    map (fun t => if JsMap.has Z.eqb m t then JsMap.get Z.eqb m t else None) times in
  mkAligned labels (seriesOf aValueMap) (seriesOf bValueMap).

(* ================================================================== *)
(** * The external cell store *)
(* ================================================================== *)

(** The store of section 6 of the specification, which the program reaches
    through [values.get] and [values.batchUpdate]: a grid of text cells where
    a missing cell reads as the empty string, and a write puts a block of
    values with its upper left corner at the first cell of an address
    [Sheet!<letters><row>] or [Sheet!<letters><row>:<letters><row>], the
    letters being a column label and the row counting from 1. *)
Module Store.

Definition cell (g : Sheet) (r c : nat) : string := cellAt (nth r g []) c.

Definition setCell (g : Sheet) (r c : nat) (v : string) : Sheet :=
  arraySet [] r (arraySet "" c v (nth r g [])) g.

Fixpoint writeRow (g : Sheet) (r c : nat) (vs : list string) : Sheet :=
  match vs with
  | [] => g
  | v :: vs' => writeRow (setCell g r c v) r (S c) vs'
  end.

Fixpoint writeBlock (g : Sheet) (r c : nat) (rows : list (list string)) : Sheet :=
  match rows with
  | [] => g
  | vs :: rows' => writeBlock (writeRow g r c vs) (S r) c rows'
  end.

Definition isUpper (c : ascii) : bool :=
  let n := code c in (65 <=? n) && (n <=? 90).

Fixpoint spanUpper (s : string) : string * string :=
  match s with
  | EmptyString => (EmptyString, EmptyString)
  | String c s' =>
      if isUpper c
      then let (u, r) := spanUpper s' in (String c u, r)
      else (EmptyString, s)
  end.

(** The number a column label stands for: A = 1 ... Z = 26, AA = 27 ... *)
Definition labelValue (s : string) : Z :=
  fold_left (fun acc c => (26 * acc + (Z.of_nat (code c) - 64))%Z)
            (list_ascii_of_string s) 0%Z.

Fixpoint stripPrefix (p s : string) : option string :=
  match p with
  | EmptyString => Some s
  | String a p' =>
      match s with
      | EmptyString => None
      | String b s' => if Ascii.eqb a b then stripPrefix p' s' else None
      end
  end.

(** A cell address: its column and row, from 0, and the text after it. *)
Definition parseCell (s : string) : option (nat * nat * string) :=
  let (letters, r1) := spanUpper s in
  let (digits, r2) := spanDigits r1 in
  if String.eqb letters "" || String.eqb digits "" || (digitsValue digits =? 0)%Z
  then None
  else Some (Z.to_nat (labelValue letters) - 1, Z.to_nat (digitsValue digits) - 1, r2).

(** The upper left corner (column, row) of an address of sheet [sheetName]. *)
Definition parseRange (sheetName text : string) : option (nat * nat) :=
  match stripPrefix (sheetName ++ "!") text with
  | None => None
  | Some a1 =>
      match parseCell a1 with
      | None => None
      | Some (col, row, rest) =>
          match rest with
          | EmptyString => Some (col, row)
          | String c rest' =>
              if Ascii.eqb c ":"
              then match parseCell rest' with
                   | Some (_, _, EmptyString) => Some (col, row)
                   | _ => None
                   end
              else None
          end
      end
  end.

(** One write; [None] when the address does not read. *)
Definition applyUpdate (sheetName : string) (g : Sheet) (u : ValueRange)
  : option Sheet :=
  match parseRange sheetName (range u) with
  | None => None
  | Some (col, row) => Some (writeBlock g row col (values u))
  end.

(** [batchUpdate]: the writes applied in the order of the request. *)
Fixpoint batchUpdate (sheetName : string) (g : Sheet) (us : list ValueRange)
  : option Sheet :=
  match us with
  | [] => Some g
  | u :: us' =>
      match applyUpdate sheetName g u with
      | None => None
      | Some g' => batchUpdate sheetName g' us'
      end
  end.

End Store.

(** The display names of the data rows, rows 1 and up. *)
Definition nameColumn (g : Sheet) : list string :=
  map (fun row => cellAt row 0) (skipn 1 g).

(* ================================================================== *)
(** * Image attachments, commands, compared users (n8n.ts 8-15, 278-280,
      309-313, 586-600) *)
(* ================================================================== *)

(** [s.endsWith(suffix)] *)
Fixpoint endsWith (s suffix : string) : bool :=
  String.eqb s suffix
  || match s with
     | EmptyString => false
     | String _ s' => endsWith s' suffix
     end.

(** The alternatives of [/\.(png|jpe?g|gif|webp|bmp|svg|tiff?)$/]. *)
Definition imageExtensions : list string :=
  ["png"; "jpg"; "jpeg"; "gif"; "webp"; "bmp"; "svg"; "tif"; "tiff"].

Definition hasImageExtension (filename : string) : bool :=
  existsb (fun ext => endsWith filename (String "." ext)) imageExtensions.

(** [contentType] and [filename] are [None] when null or undefined. *)
Definition isImageAttachment (contentType filename : option string) : bool :=
  if match contentType with
     | Some ct => String.prefix "image/" ct
     | None => false
     end
  then true
  else
    let normalized :=
      toLowerCase (match filename with Some f => f | None => "" end) in
    hasImageExtension normalized.





(** [s.split(sep)] for a separator of one character. *)
Fixpoint splitOn (sep : ascii) (s : string) : list string :=
  match s with
  | EmptyString => [EmptyString]
  | String c s' =>
      if Ascii.eqb c sep then EmptyString :: splitOn sep s'
      else
        match splitOn sep s' with
        | p :: ps => String c p :: ps
        | [] => [String c EmptyString]
        end
  end.

(** [s.split(/\s+/)]; [inRun] tells that the previous character was white
    space. *)
Fixpoint splitSpaces (inRun : bool) (s : string) : list string :=
  match s with
  | EmptyString => [EmptyString]
  | String c s' =>
      if isSpace c
      then if inRun then splitSpaces true s'
           else EmptyString :: splitSpaces true s'
      else
        match splitSpaces false s' with
        | p :: ps => String c p :: ps
        | [] => [String c EmptyString]
        end
  end.

(** [.filter(Boolean)] on strings *)
Definition nonEmpty (s : string) : bool := negb (String.eqb s "").

Definition parseCompareUsers (raw : string) : option (string * string) :=
  let trimmed := trim raw in
  if String.eqb trimmed "" then None
  else
    let pipeParts := filter nonEmpty (map trim (splitOn "|" trimmed)) in
    match pipeParts with
    | [a; b] => Some (a, b)
    | _ =>
        let commaParts := filter nonEmpty (map trim (splitOn "," trimmed)) in
        match commaParts with
        | [a; b] => Some (a, b)
        | _ =>
            let spaceParts := filter nonEmpty (splitSpaces false trimmed) in
            match spaceParts with
            | [a; b] => Some (a, b)
            | _ => None
            end
        end
    end.

(* ================================================================== *)
(** * Extracted entries (n8n.ts 331-397) *)
(* ================================================================== *)

Unset Elimination Schemes.

(** A value that [JSON.parse] returns. *)
Inductive Json : Type :=
| JNull
| JBool (b : bool)
| JNumber (x : float)
| JString (s : string)
| JArray (items : list Json)
| JObject (fields : list (string * Json)).

Set Elimination Schemes.

(** [s.indexOf(c)] and [s.lastIndexOf(c)] for one character, [None] for -1. *)
Fixpoint indexOfChar (c : ascii) (s : string) : option nat :=
  match s with
  | EmptyString => None
  | String a s' => if Ascii.eqb a c then Some 0 else option_map S (indexOfChar c s')
  end.

Fixpoint lastIndexOfChar (c : ascii) (s : string) : option nat :=
  match s with
  | EmptyString => None
  | String a s' =>
      match lastIndexOfChar c s' with
      | Some i => Some (S i)
      | None => if Ascii.eqb a c then Some 0 else None
      end
  end.

(** The text before the first occurrence of [pat] in [s]. *)
Fixpoint textBefore (pat s : string) : option string :=
  if String.prefix pat s then Some EmptyString
  else
    match s with
    | EmptyString => None
    | String c s' => option_map (String c) (textBefore pat s')
    end.

(** [s] without the prefix [p], letters compared without their case. *)
Fixpoint stripPrefixNoCase (p s : string) : option string :=
  match p with
  | EmptyString => Some s
  | String a p' =>
      match s with
      | EmptyString => None
      | String b s' =>
          if Ascii.eqb (lowerChar a) (lowerChar b) then stripPrefixNoCase p' s'
          else None
      end
  end.

(** Group 1 of the first match of [/```<tag>\s*([\s\S]*?)```/i] in [s]: after
    the opening fence and the white space that follows it, the text up to
    the next fence. *)
Fixpoint fencedGroup (tag s : string) : option string :=
  match
    match stripPrefixNoCase ("```" ++ tag) s with
    | Some rest => textBefore "```" (trimStart rest)
    | None => None
    end
  with
  | Some body => Some body
  | None =>
      match s with
      | EmptyString => None
      | String _ s' => fencedGroup tag s'
      end
  end.

Definition isObjectValue (v : Json) : bool :=
  match v with
  | JArray _ | JObject _ => true
  | _ => false
  end.

(** [v[k]], [None] for undefined. *)
Definition field (k : string) (v : Json) : option Json :=
  match v with
  | JObject fields => JsMap.get String.eqb fields k
  | _ => None
  end.

(** [x == null] *)
Definition nullish (x : option Json) : bool :=
  match x with
  | None | Some JNull => true
  | Some _ => false
  end.

(** [a ?? b] *)
Definition orElse (a b : option Json) : option Json := if nullish a then b else a.

Fixpoint joinComma (l : list string) : string :=
  match l with
  | [] => EmptyString
  | [x] => x
  | x :: rest => (x ++ "," ++ joinComma rest)%string
  end.

Section Extraction.

(** [JSON.parse], [None] when it throws, and the conversion of a number to a
    string: both are left open. *)
Variable JSON_parse : string -> option Json.
Variable numberToString : float -> string.

(** [String(v)] *)
Fixpoint jsString (v : Json) : string :=
  match v with
  | JNull => "null"
  | JBool true => "true"
  | JBool false => "false"
  | JNumber x => numberToString x
  | JString s => s
  | JArray items =>
      joinComma (map (fun e => match e with JNull => EmptyString | _ => jsString e end)
                     items)
  | JObject _ => "[object Object]"
  end.

Definition tryParseJsonObject (raw : string) : Json :=
  match JSON_parse raw with
  | Some v => v
  | None => JNull
  end.

Definition isNull (v : Json) : bool :=
  match v with JNull => true | _ => false end.

(** The candidate between the first [open] and the last [close], parsed. *)
Definition bracketed (open close : ascii) (raw : string) : Json :=
  match indexOfChar open raw, lastIndexOfChar close raw with
  | Some first, Some last =>
      if first <? last
      then tryParseJsonObject (String.substring first (last + 1 - first) raw)
      else JNull
  | _, _ => JNull
  end.

Definition extractJsonFromText (raw : string) : Json :=
  let direct := tryParseJsonObject raw in
  if negb (isNull direct) then direct
  else
    let fencedMatch :=
      match fencedGroup "json" raw with
      | Some g => Some g
      | None => fencedGroup "" raw
      end in
    let fenced :=
      match fencedMatch with
      | Some g => tryParseJsonObject (trim g)
      | None => JNull
      end in
    if negb (isNull fenced) then fenced
    else
      let parsedArray := bracketed "[" "]" raw in
      if negb (isNull parsedArray) then parsedArray
      else
        let parsedObject := bracketed "{" "}" raw in
        if negb (isNull parsedObject) then parsedObject
        else JNull.

(** Lines 383-394, one turn of the loop over the rows. *)
Definition entryOfRow (normalized : list CulvertScoreRow) (row : Json)
  : list CulvertScoreRow :=
  if negb (isObjectValue row) then normalized
  else
    let nameRaw := orElse (field "Name" row) (field "name" row) in
    let culvertRaw := orElse (field "Culvert" row) (field "culvert" row) in
    match nameRaw, culvertRaw with
    | Some n, Some c =>
        if nullish nameRaw || nullish culvertRaw then normalized
        else normalized ++ [mkScore (trim (jsString n)) (trim (jsString c))]
    | _, _ => normalized
    end.

Definition toExtractedEntries (rawBody : string) : list CulvertScoreRow :=
  let parsed := tryParseJsonObject rawBody in
  let payload :=
    match parsed with
    | JObject fields =>
        match JsMap.get String.eqb fields "output" with
        | Some output =>
            extractJsonFromText
              (match output with JNull => EmptyString | _ => jsString output end)
        | None => extractJsonFromText rawBody
        end
    | _ => extractJsonFromText rawBody
    end in
  let rows :=
    match payload with
    | JArray items => items
    | JObject _ =>
        match field "rows" payload with
        | Some (JArray items) => items
        | _ => [payload]
        end
    | _ => []
    end in
  let normalized := fold_left entryOfRow rows [] in
  filter (fun r => nonEmpty (name r) && nonEmpty (culvert r)) normalized.

End Extraction.

(* ================================================================== *)
(** * Vocabulary of the properties *)
(* ================================================================== *)

(** The notions the properties below are stated with: numerals and labels,
    substrings and candidates, the Gregorian calendar, the value of a series
    at a date, writes of one column, and what the loop of the upsert
    keeps. *)

(** The letter of a digit 0..25 of a column label. *)
Definition letterOf (m : Z) : string :=
  String (ascii_of_nat (65 + Z.to_nat m)) EmptyString.

(** [s] is a word over A..Z. *)
Definition allUpper (s : string) : bool :=
  forallb Store.isUpper (list_ascii_of_string s).

(** [t] occurs in [s]. *)
Definition Substring (t s : string) : Prop :=
  exists pre post : string, s = (pre ++ t ++ post)%string.

(** An entry of the index that the substring phase keeps. *)
Definition Candidate (nameToRow : NameIndex) (n k : string) (r : nat) : Prop :=
  In (k, r) nameToRow /\ (Substring n k \/ Substring k n).

(** How far the length of the name [k] is from the length of the input [n]. *)
Definition lengthDistance (n k : string) : Z := Z.abs (strlen k - strlen n).

(** [r] is empty or starts with a character that is no digit. *)
Definition startsNoDigit (r : string) : Prop :=
  match r with
  | EmptyString => True
  | String c _ => isDigit c = false
  end.

(** [s] is empty or ends with a character that is no white space. *)
Fixpoint endsNoSpace (s : string) : bool :=
  match s with
  | EmptyString => true
  | String c EmptyString => negb (isSpace c)
  | String _ s' => endsNoSpace s'
  end.

(** The Gregorian calendar, stated on its own. *)
Definition isLeapYear (y : Z) : bool :=
  ((y mod 4 =? 0) && (negb (y mod 100 =? 0) || (y mod 400 =? 0)))%Z.

Definition daysInMonth (y m : Z) : Z :=
  if ((m =? 4) || (m =? 6) || (m =? 9) || (m =? 11))%Z then 30
  else if (m =? 2)%Z then (if isLeapYear y then 29 else 28)
  else 31.

(** [year]-[month]-[day] is a day of the Gregorian calendar. *)
Definition isCalendarDate (year month day : Z) : bool :=
  ((1 <=? month) && (month <=? 12) && (1 <=? day)
   && (day <=? daysInMonth year month))%Z.

(** The [n] integers from [lo] up. *)
Definition zrange (lo : Z) (n : nat) : list Z :=
  map (fun k => (lo + Z.of_nat k)%Z) (seq 0 n).

(** [isValidDateParts] and the calendar agree on the months and days of
    year [y]. *)
Definition validAgreesOn (y : Z) : bool :=
  forallb (fun m => forallb (fun d =>
     Bool.eqb (isValidDateParts y m d) (isCalendarDate y m d))
     (zrange 1 31)) (zrange 1 12).

(** What [parseN8nDate] accepts: three groups of digits between slashes, one
    or two digits of month, one or two of day and two of year, that name a
    day of the calendar in the year 2000 + YY. *)
Definition IsCommandDate (raw : string) (year month day : Z) : Prop :=
  exists g1 g2 g3 : string,
    raw = (g1 ++ "/" ++ g2 ++ "/" ++ g3)%string
    /\ allDigits g1 = true /\ allDigits g2 = true /\ allDigits g3 = true
    /\ (String.length g1 = 1 \/ String.length g1 = 2)
    /\ (String.length g2 = 1 \/ String.length g2 = 2)
    /\ String.length g3 = 2
    /\ month = digitsValue g1 /\ day = digitsValue g2
    /\ year = (2000 + digitsValue g3)%Z.

(** Every day of year [y], written as an ISO date and then as a header
    label, reads back as its time value. *)
Definition roundTripOn (y : Z) : bool :=
  forallb (fun m => forallb (fun d =>
     if isCalendarDate y m d
     then match parseSheetDate (isoToSheetDateLabel (isoOfParts y m d)) with
          | Some t => (t =? JsDate.UTC y (m - 1) d)%Z
          | None => false
          end
     else true)
     (zrange 1 31)) (zrange 1 12).

(** What a series has at a date: [f] of its last point with that date. *)
Fixpoint lastAt (V : Type) (f : Point -> V) (series : list Point) (t : Z)
  : option V :=
  match series with
  | [] => None
  | p :: rest =>
      match lastAt f rest t with
      | Some v => Some v
      | None => if (p_date p =? t)%Z then Some (f p) else None
      end
  end.

Definition valueAt : list Point -> Z -> option float := lastAt p_value.
Definition labelAt : list Point -> Z -> option string := lastAt p_label.

(** The dates of the aligned chart, the sorted keys of [dateMap]. *)
Definition alignTimes (pointsA pointsB : list Point) : list Z :=
  let setLabel := fun (m : JsMap.t Z string) (p : Point) =>
                    JsMap.set Z.eqb m (p_date p) (p_label p) in
  sortBy (fun a b => (a - b)%Z)
         (JsMap.keys (fold_left setLabel pointsB (fold_left setLabel pointsA []))).

(** An optional element as a list of at most one. *)
Definition optList (A : Type) (o : option A) : list A :=
  match o with Some x => [x] | None => [] end.

(** The numeral of a digit 0..9. *)
Definition digitOf (m : Z) : string :=
  String (ascii_of_nat (48 + Z.to_nat m)) EmptyString.

(** [r] is empty or starts with a character outside A..Z. *)
Definition startsNoUpper (r : string) : Prop :=
  match r with
  | EmptyString => True
  | String c _ => Store.isUpper c = false
  end.

(** Every row the index names is a row of the in-memory sheet. *)
Definition rowsInRange (st : UpsertState) : Prop :=
  forall k r, In (k, r) (st_nameToRow st) -> r < List.length (st_values st).

(** The write of a score: its value at a row of the date column. *)
Definition cellUpdate (sheetName : string) (dateCol : nat) (rv : nat * string)
  : ValueRange :=
  mkUpdate (cellRange sheetName dateCol (fst rv)) [[snd rv]].

(** A write of one column: the column and the row of its first cell, and
    the values from there down. *)
Definition ColumnWrite (sheetName : string) (w : nat * nat * list string)
           (u : ValueRange) : Prop :=
  Store.parseRange sheetName (range u) = Some (fst (fst w), snd (fst w))
  /\ values u = map (fun x => [x]) (snd w).

(** What a write of one column does to the grid. *)
Definition applyColumn (g : Sheet) (w : nat * nat * list string) : Sheet :=
  Store.writeBlock g (snd (fst w)) (fst (fst w)) (map (fun x => [x]) (snd w)).

(** The writes of an upsert as column writes. *)
Definition upsertColumns (dateLabel : string) (dateCol : nat)
           (cells : list (nat * string)) (vals : Sheet)
  : list (nat * nat * list string) :=
  map (fun rv => (dateCol, fst rv, [snd rv])) cells
  ++ [ (0, 0, ["Name"]); (dateCol, 0, [dateLabel]); (0, 1, nameColumn vals) ].

(** The column of the date label that the upsert resolves: where the header
    has the label, the first new column otherwise. *)
Definition resolvedDateCol (existing : Sheet) (dateLabel : string) : nat :=
  let header := nth 0 (withHeader existing) [] in
  match findIndex (fun v => String.eqb v dateLabel) header with
  | Some i => i
  | None => Nat.max 1 (List.length header)
  end.

(** [s] is empty or starts with a character that is no white space. *)
Definition startsNoSpace (s : string) : Prop :=
  match s with
  | EmptyString => True
  | String c _ => isSpace c = false
  end.

(** The normalized names of the data rows. *)
Definition normalizedNames (g : Sheet) : list string :=
  map normalizeName (nameColumn g).

(** What the loop of the upsert keeps: the data rows have distinct
    normalized names, each of them that is not blank is a key of the index,
    and the sheet has its header row. *)
Definition NamesIndexed (st : UpsertState) : Prop :=
  NoDup (normalizedNames (st_values st))
  /\ (forall k, In k (normalizedNames (st_values st)) -> k <> "" ->
                In k (JsMap.keys (st_nameToRow st)))
  /\ st_values st <> [].

(** [s] has no white space. *)
Definition noSpaces (s : string) : bool :=
  forallb (fun c => negb (isSpace c)) (list_ascii_of_string s).

(** [s] has no character [c]. *)
Definition noChar (c : ascii) (s : string) : bool :=
  forallb (fun a => negb (Ascii.eqb a c)) (list_ascii_of_string s).

(** The candidates of the substring phase, in the order of the index. *)
Definition candidatesOf (nameToRow : NameIndex) (n : string) : list (string * nat) :=
  filter (isPartialMatch n) nameToRow.

(** The row an entry is written to: the row [findRowByName] finds for its
    normalized name, the row that is appended for it otherwise. *)
Definition targetRow (st : UpsertState) (score : CulvertScoreRow) : nat :=
  match findRowByName (st_nameToRow st) (normalizeName (name score)) with
  | Some rowIdx => rowIdx
  | None => List.length (st_values st)
  end.

(** The rows and values of the score writes of the loop, entry by entry. *)
Fixpoint upsertTargets (sheetName : string) (dateCol : nat) (st : UpsertState)
         (scores : list CulvertScoreRow) : list (nat * string) :=
  match scores with
  | [] => []
  | s :: rest =>
      (targetRow st s, culvert s)
        :: upsertTargets sheetName dateCol (upsertStep sheetName dateCol st s) rest
  end.

(** The names of the rows the loop appends, in their order. *)
Fixpoint appendedNames (sheetName : string) (dateCol : nat) (st : UpsertState)
         (scores : list CulvertScoreRow) : list string :=
  match scores with
  | [] => []
  | s :: rest =>
      match findRowByName (st_nameToRow st) (normalizeName (name s)) with
      | Some _ => []
      | None => [name s]
      end ++ appendedNames sheetName dateCol (upsertStep sheetName dateCol st s) rest
  end.

(** The value of the last write to row [r] among the writes [cells]. *)
Fixpoint lastWrite (cells : list (nat * string)) (r : nat) : option string :=
  match cells with
  | [] => None
  | (r', v) :: rest =>
      match lastWrite rest r with
      | Some x => Some x
      | None => if r' =? r then Some v else None
      end
  end.


(** Every row of the index is a data row of the in-memory sheet. *)
Definition DataRowsIndexed (st : UpsertState) : Prop :=
  st_values st <> []
  /\ forall k r, In (k, r) (st_nameToRow st) -> 1 <= r < List.length (st_values st).

(** A day of the years 2000..2099 written through [isoOfParts] and
    [isoToSheetDateLabel] is month, day and two digits of year between
    slashes, month and day without a leading zero. *)
Definition labelFormOn (y : Z) : bool :=
  forallb (fun m => forallb (fun d =>
     String.eqb (isoToSheetDateLabel (isoOfParts y m d))
                (ofNumber m ++ "/" ++ ofNumber d ++ "/"
                 ++ padStart0 2 (ofNumber (y mod 100)))%string)
     (zrange 1 31)) (zrange 1 12).

(** [raw] has only commas and white space. *)
Definition onlyCommasAndSpaces (raw : string) : bool :=
  forallb (fun c => isSpace c || Ascii.eqb c ",") (list_ascii_of_string raw).

(** An entry whose fields have no white space around them. *)
Definition TrimmedEntry (e : CulvertScoreRow) : Prop :=
  trim (name e) = name e /\ trim (culvert e) = culvert e.

(** An entry as [toExtractedEntries] leaves it: both fields not empty and
    without white space around them. *)
Definition CleanEntry (e : CulvertScoreRow) : Prop :=
  name e <> "" /\ culvert e <> ""
  /\ trim (name e) = name e /\ trim (culvert e) = culvert e.

(** The row [{"name": n, "culvert": c}] of a response. *)
Definition jsonRow (nc : string * string) : Json :=
  JObject [("name", JString (fst nc)); ("culvert", JString (snd nc))].

(* ================================================================== *)
(** * Properties: strings and numerals *)
(* ================================================================== *)

Lemma list_ascii_of_string_app (s t : string) :
  list_ascii_of_string (s ++ t)%string
  = list_ascii_of_string s ++ list_ascii_of_string t.
Proof.
  induction s as [|c s IH]; simpl; [reflexivity | now rewrite IH].
Qed.

Lemma string_app_assoc (a b c : string) :
  ((a ++ b) ++ c = a ++ (b ++ c))%string.
Proof.
  induction a as [|x a IH]; simpl; [reflexivity | now rewrite IH].
Qed.

Lemma string_app_nil_r (a : string) : (a ++ "")%string = a.
Proof.
  induction a as [|x a IH]; simpl; [reflexivity | now rewrite IH].
Qed.

Lemma code_ascii_of_nat (n : nat) : n < 256 -> code (ascii_of_nat n) = n.
Proof. intro H. unfold code. now apply nat_ascii_embedding. Qed.

(* ================================================================== *)
(** * Properties: column addressing *)
(* ================================================================== *)

Lemma columnLabelLoop_acc (fuel : nat) :
  forall (x : Z) (s : string),
    (x <= Z.of_nat fuel)%Z ->
    columnLabelLoop fuel x s = (columnLabelLoop fuel x "" ++ s)%string.
Proof.
  induction fuel as [|fuel IH]; intros x s Hx; simpl.
  - reflexivity.
  - destruct (x >? 0)%Z eqn:Hpos; [|reflexivity].
    assert (Hx' : ((x - 1) / 26 <= Z.of_nat fuel)%Z).
    { apply Z.gtb_lt in Hpos.
      assert ((x - 1) / 26 <= x - 1)%Z by (apply Z.div_le_upper_bound; lia).
      lia. }
    rewrite (IH _ (String _ s) Hx'), (IH _ (String _ "") Hx').
    now rewrite string_app_assoc.
Qed.

(** Any fuel that is at least [x] gives the same label: with [n] turns
    allowed the loop of [columnLabel n] always ends by its test [x > 0]. *)
Lemma columnLabelLoop_fuel (fuel1 : nat) :
  forall (fuel2 : nat) (x : Z) (s : string),
    (x <= Z.of_nat fuel1)%Z -> (x <= Z.of_nat fuel2)%Z ->
    columnLabelLoop fuel1 x s = columnLabelLoop fuel2 x s.
Proof.
  induction fuel1 as [|fuel1 IH]; intros fuel2 x s H1 H2.
  - destruct fuel2 as [|fuel2]; simpl; [reflexivity|].
    destruct (x >? 0)%Z eqn:Hpos; [apply Z.gtb_lt in Hpos; lia | reflexivity].
  - destruct fuel2 as [|fuel2]; simpl.
    + destruct (x >? 0)%Z eqn:Hpos; [apply Z.gtb_lt in Hpos; lia | reflexivity].
    + destruct (x >? 0)%Z eqn:Hpos; [|reflexivity].
      apply Z.gtb_lt in Hpos.
      assert ((x - 1) / 26 <= x - 1)%Z by (apply Z.div_le_upper_bound; lia).
      apply IH; lia.
Qed.

Lemma columnLabel_nonpos (n : Z) : (n <= 0)%Z -> columnLabel n = "".
Proof.
  intro H. unfold columnLabel.
  destruct (Z.to_nat n) eqn:E; simpl; [reflexivity|lia].
Qed.

Lemma columnLabel_unfold (n : Z) :
  (0 < n)%Z ->
  columnLabel n = (columnLabel ((n - 1) / 26) ++ letterOf ((n - 1) mod 26))%string.
Proof.
  intro Hn. unfold columnLabel at 1.
  destruct (Z.to_nat n) as [|k] eqn:E; [lia|].
  simpl. assert (Hpos : (n >? 0)%Z = true) by (apply Z.gtb_lt; lia).
  rewrite Hpos.
  assert ((n - 1) / 26 <= n - 1)%Z by (apply Z.div_le_upper_bound; lia).
  assert (0 <= (n - 1) / 26)%Z by (apply Z.div_pos; lia).
  rewrite columnLabelLoop_acc by lia.
  unfold columnLabel, letterOf.
  rewrite (columnLabelLoop_fuel k (Z.to_nat ((n - 1) / 26))) by lia.
  reflexivity.
Qed.

Lemma labelValue_app (s t : string) :
  Store.labelValue (s ++ t)%string
  = fold_left (fun acc c => (26 * acc + (Z.of_nat (code c) - 64))%Z)
              (list_ascii_of_string t) (Store.labelValue s).
Proof.
  unfold Store.labelValue. now rewrite list_ascii_of_string_app, fold_left_app.
Qed.

Lemma labelValue_letterOf (s : string) (m : Z) :
  (0 <= m < 26)%Z ->
  Store.labelValue (s ++ letterOf m)%string = (26 * Store.labelValue s + (m + 1))%Z.
Proof.
  intro Hm. rewrite labelValue_app. unfold letterOf.
  cbn [list_ascii_of_string fold_left].
  rewrite code_ascii_of_nat by lia. lia.
Qed.

Lemma labelValue_columnLabel (n : Z) :
  (0 < n)%Z -> Store.labelValue (columnLabel n) = n.
Proof.
  intro Hn. revert Hn.
  induction n as [n IH] using (well_founded_induction (Z.lt_wf 0)).
  intro Hn. rewrite columnLabel_unfold by assumption.
  pose proof (Z.mod_pos_bound (n - 1) 26 ltac:(lia)) as Hm.
  rewrite labelValue_letterOf by assumption.
  destruct (Z.eq_dec ((n - 1) / 26) 0) as [E|E].
  - rewrite E. rewrite columnLabel_nonpos by lia.
    change (Store.labelValue "") with 0%Z.
    pose proof (Z.div_mod (n - 1) 26 ltac:(lia)). lia.
  - assert (0 <= (n - 1) / 26)%Z by (apply Z.div_pos; lia).
    assert ((n - 1) / 26 <= n - 1)%Z by (apply Z.div_le_upper_bound; lia).
    rewrite IH by lia.
    pose proof (Z.div_mod (n - 1) 26 ltac:(lia)). lia.
Qed.

Lemma allUpper_app (s t : string) :
  allUpper (s ++ t)%string = allUpper s && allUpper t.
Proof.
  unfold allUpper. now rewrite list_ascii_of_string_app, forallb_app.
Qed.

Lemma allUpper_letterOf (m : Z) : (0 <= m < 26)%Z -> allUpper (letterOf m) = true.
Proof.
  intro Hm. unfold allUpper, letterOf, Store.isUpper.
  cbn [list_ascii_of_string forallb].
  rewrite code_ascii_of_nat by lia.
  rewrite andb_true_r. apply andb_true_intro; split; apply Nat.leb_le; lia.
Qed.

Lemma allUpper_columnLabel (n : Z) : allUpper (columnLabel n) = true.
Proof.
  induction n as [n IH] using (well_founded_induction (Z.lt_wf 0)).
  destruct (Z_le_gt_dec n 0) as [Hn|Hn].
  - now rewrite columnLabel_nonpos.
  - rewrite columnLabel_unfold by lia.
    pose proof (Z.mod_pos_bound (n - 1) 26 ltac:(lia)) as Hm.
    rewrite allUpper_app, allUpper_letterOf by assumption.
    rewrite andb_true_r.
    destruct (Z_le_gt_dec ((n - 1) / 26) 0) as [Hq|Hq].
    + now rewrite columnLabel_nonpos.
    + assert ((n - 1) / 26 <= n - 1)%Z by (apply Z.div_le_upper_bound; lia).
      apply IH. lia.
Qed.

Lemma columnLabel_nonempty (n : Z) : (0 < n)%Z -> columnLabel n <> "".
Proof.
  intros Hn E. rewrite columnLabel_unfold in E by assumption.
  destruct (columnLabel ((n - 1) / 26)); discriminate.
Qed.



(* ================================================================== *)
(** * Properties: sorting *)
(* ================================================================== *)

Section SortFacts.

Variable A : Type.
Variable cmp : A -> A -> Z.

Lemma insertSorted_perm (x : A) (l : list A) :
  Permutation (insertSorted cmp x l) (x :: l).
Proof.
  induction l as [|y l IH]; simpl; [reflexivity|].
  destruct (cmp x y <=? 0)%Z; [reflexivity|].
  rewrite IH. apply perm_swap.
Qed.

Lemma sortBy_perm (l : list A) : Permutation (sortBy cmp l) l.
Proof.
  induction l as [|x l IH]; simpl; [reflexivity|].
  rewrite insertSorted_perm. now constructor.
Qed.

Lemma sortBy_In (l : list A) (x : A) : In x (sortBy cmp l) <-> In x l.
Proof.
  split; apply Permutation_in; [|symmetry]; apply sortBy_perm.
Qed.

Lemma sortBy_length (l : list A) : List.length (sortBy cmp l) = List.length l.
Proof. apply Permutation_length, sortBy_perm. Qed.

(** The comparators of the program are differences of an integer key. *)
Variable key : A -> Z.
Hypothesis cmp_key : forall a b, cmp a b = (key a - key b)%Z.

Definition keyLe (a b : A) : Prop := (key a <= key b)%Z.

Lemma insertSorted_sorted (x : A) (l : list A) :
  StronglySorted keyLe l -> StronglySorted keyLe (insertSorted cmp x l).
Proof.
  induction 1 as [|y l Hl IH Hy]; simpl.
  - repeat constructor.
  - destruct (cmp x y <=? 0)%Z eqn:E.
    + apply Z.leb_le in E. rewrite cmp_key in E.
      constructor; [now constructor|].
      constructor; [unfold keyLe; lia|].
      eapply Forall_impl; [|exact Hy]. unfold keyLe. intros; lia.
    + apply Z.leb_gt in E. rewrite cmp_key in E.
      constructor; [exact IH|].
      eapply Permutation_Forall; [symmetry; apply insertSorted_perm|].
      constructor; [unfold keyLe; lia | exact Hy].
Qed.

Lemma sortBy_sorted (l : list A) : StronglySorted keyLe (sortBy cmp l).
Proof.
  induction l as [|x l IH]; simpl; [constructor | now apply insertSorted_sorted].
Qed.

(** The first element of the sorted array has the least key. *)
Lemma sortBy_head_least (l : list A) (first : A) (rest : list A) :
  sortBy cmp l = first :: rest ->
  In first l /\ forall y, In y l -> (key first <= key y)%Z.
Proof.
  intro E. split.
  - apply sortBy_In. rewrite E. now left.
  - intros y Hy. apply sortBy_In in Hy. rewrite E in Hy.
    pose proof (sortBy_sorted l) as S. rewrite E in S.
    inversion S as [|? ? _ Hall]; subst.
    destruct Hy as [<-|Hy]; [lia|].
    rewrite Forall_forall in Hall. now apply Hall.
Qed.

End SortFacts.

(* ================================================================== *)
(** * Properties: the fuzzy matcher *)
(* ================================================================== *)

Lemma prefix_spec (t s : string) :
  String.prefix t s = true <-> exists post, s = (t ++ post)%string.
Proof.
  revert s. induction t as [|a t IH]; intro s.
  - split; [intros _; now exists s | intros _; destruct s; reflexivity].
  - destruct s as [|b s]; simpl.
    + split; [discriminate | intros [post E]; discriminate].
    + destruct (ascii_dec a b) as [->|Hab].
      * rewrite IH. split; intros [post E]; exists post; congruence.
      * split; [discriminate | intros [post E]; congruence].
Qed.

Lemma includes_spec (s t : string) : includes s t = true <-> Substring t s.
Proof.
  induction s as [|c s IH].
  - cbn [includes]. rewrite orb_false_r, prefix_spec. split.
    + intros [post E]. now exists "", post.
    + intros [pre [post E]]. destruct pre; [now exists post | discriminate].
  - cbn [includes]. rewrite orb_true_iff, prefix_spec, IH. split.
    + intros [[post E] | [pre [post E]]].
      * now exists "", post.
      * exists (String c pre), post. simpl. now rewrite E.
    + intros [pre [post E]]. destruct pre as [|a pre].
      * left. now exists post.
      * right. simpl in E. injection E as _ E. now exists pre, post.
Qed.

Lemma isPartialMatch_spec (nameToRow : NameIndex) (n k : string) (r : nat) :
  In (k, r) (filter (isPartialMatch n) nameToRow) <-> Candidate nameToRow n k r.
Proof.
  rewrite filter_In. unfold Candidate, isPartialMatch. simpl.
  now rewrite orb_true_iff, !includes_spec.
Qed.

(** C1.  The two phases of [findRowByName]: an exact entry of the normalized
    input wins; otherwise the candidates are the entries whose name contains
    the normalized input or is contained in it, no candidate gives no row,
    and among candidates the row of one whose length is closest to the
    input's is returned.  With rows "jon smith" and "jonathan", "jon" gives
    the row of "jonathan". *)
Theorem findRowByName_two_phase :
  (forall (nameToRow : NameIndex) (inputName : string),
      let n := normalizeName inputName in
      (forall r, JsMap.get String.eqb nameToRow n = Some r ->
                 findRowByName nameToRow inputName = Some r)
      /\ (JsMap.get String.eqb nameToRow n = None ->
          ((forall k r, ~ Candidate nameToRow n k r) ->
           findRowByName nameToRow inputName = None)
          /\ (forall k r, Candidate nameToRow n k r ->
              exists k0 r0,
                Candidate nameToRow n k0 r0
                /\ findRowByName nameToRow inputName = Some r0
                /\ forall k' r', Candidate nameToRow n k' r' ->
                                 (lengthDistance n k0 <= lengthDistance n k')%Z)))
  /\ String.length "jon smith" = 9 /\ String.length "jonathan" = 8
  /\ String.length (normalizeName "jon") = 3
  /\ findRowByName [("jon smith", 1); ("jonathan", 2)] "jon" = Some 2.
Proof.
  split; [|repeat split; reflexivity].
  intros nameToRow inputName n. split.
  - intros r Hr. unfold findRowByName. fold n. now rewrite Hr.
  - intro Hnone. unfold findRowByName. fold n. rewrite Hnone.
    set (pm := filter (isPartialMatch n) nameToRow).
    split.
    + intro Hno. destruct pm as [|[k r] pm'] eqn:E; [reflexivity|].
      exfalso. apply (Hno k r). apply isPartialMatch_spec. fold pm.
      rewrite E. now left.
    + intros k r Hc. apply isPartialMatch_spec in Hc. fold pm in Hc.
      destruct (List.length pm =? 0) eqn:El.
      { apply Nat.eqb_eq in El. destruct pm; [destruct Hc | discriminate]. }
      destruct (sortBy (closestLengthCmp n) pm) as [|[k0 r0] rest] eqn:Es.
      { apply (f_equal (@List.length _)) in Es. rewrite sortBy_length in Es.
        apply Nat.eqb_neq in El. simpl in Es. congruence. }
      destruct (@sortBy_head_least _ (closestLengthCmp n)
                  (fun e => lengthDistance n (fst e))
                  (fun a b => eq_refl) pm (k0, r0) rest Es) as [Hin Hmin].
      exists k0, r0. split; [|split].
      * now apply isPartialMatch_spec.
      * reflexivity.
      * intros k' r' Hc'. apply isPartialMatch_spec in Hc'.
        apply (Hmin (k', r') Hc').
Qed.

(* ================================================================== *)
(** * Properties: digits, trimming, the anchored patterns *)
(* ================================================================== *)

Lemma allDigits_cons (c : ascii) (s : string) :
  allDigits (String c s) = isDigit c && allDigits s.
Proof. reflexivity. Qed.

Lemma spanDigits_inv (s : string) :
  forall d r, spanDigits s = (d, r) ->
              s = (d ++ r)%string /\ allDigits d = true /\ startsNoDigit r.
Proof.
  induction s as [|c s IH]; intros d r E; simpl in E.
  - injection E as <- <-. repeat split.
  - destruct (isDigit c) eqn:Hc.
    + destruct (spanDigits s) as [d' r'] eqn:Es. injection E as <- <-.
      destruct (IH _ _ eq_refl) as (E1 & E2 & E3).
      repeat split; [simpl; now rewrite <- E1 | | exact E3].
      rewrite allDigits_cons, Hc, E2. reflexivity.
    + injection E as <- <-. repeat split. exact Hc.
Qed.

Lemma spanDigits_app (d r : string) :
  allDigits d = true -> startsNoDigit r -> spanDigits (d ++ r)%string = (d, r).
Proof.
  induction d as [|c d IH]; intros Hd Hr; simpl.
  - destruct r as [|c r]; [reflexivity|]. simpl in Hr. simpl. now rewrite Hr.
  - rewrite allDigits_cons in Hd. apply andb_prop in Hd as [Hc Hd].
    rewrite Hc, IH by assumption. reflexivity.
Qed.

Lemma matchThreeGroups_spec (sep : ascii) (l1 l2 l3 : list nat) (raw g1 g2 g3 : string) :
  isDigit sep = false ->
  matchThreeGroups sep l1 l2 l3 raw = Some (g1, g2, g3)
  <-> (raw = (g1 ++ String sep (g2 ++ String sep g3))%string
       /\ allDigits g1 = true /\ allDigits g2 = true /\ allDigits g3 = true
       /\ lengthIn g1 l1 = true /\ lengthIn g2 l2 = true /\ lengthIn g3 l3 = true).
Proof.
  intro Hsep. unfold matchThreeGroups. split.
  - destruct (spanDigits raw) as [a r1] eqn:E1.
    destruct (lengthIn a l1) eqn:L1; [|discriminate]. simpl.
    destruct r1 as [|c1 r2]; [discriminate|].
    destruct (Ascii.eqb c1 sep) eqn:C1; [|discriminate]. simpl.
    destruct (spanDigits r2) as [b r3] eqn:E2.
    destruct (lengthIn b l2) eqn:L2; [|discriminate]. simpl.
    destruct r3 as [|c2 r4]; [discriminate|].
    destruct (Ascii.eqb c2 sep) eqn:C2; [|discriminate]. simpl.
    destruct (spanDigits r4) as [c r5] eqn:E3.
    destruct (lengthIn c l3) eqn:L3; [|discriminate]. simpl.
    destruct (String.eqb r5 "") eqn:R5; [|discriminate].
    intro E. injection E as <- <- <-.
    apply Ascii.eqb_eq in C1, C2. apply String.eqb_eq in R5. subst.
    destruct (spanDigits_inv _ E1) as (-> & D1 & _).
    destruct (spanDigits_inv _ E2) as (-> & D2 & _).
    destruct (spanDigits_inv _ E3) as (-> & D3 & _).
    rewrite string_app_nil_r. repeat split; assumption.
  - intros (-> & D1 & D2 & D3 & L1 & L2 & L3).
    rewrite (spanDigits_app _ _ D1) by exact Hsep.
    rewrite L1. simpl. rewrite Ascii.eqb_refl. simpl.
    rewrite (spanDigits_app _ _ D2) by exact Hsep.
    rewrite L2. simpl. rewrite Ascii.eqb_refl. simpl.
    replace g3 with (g3 ++ "")%string at 1 by apply string_app_nil_r.
    rewrite (spanDigits_app _ _ D3) by exact I.
    rewrite L3. reflexivity.
Qed.

Lemma trimStart_id (s : string) :
  match s with EmptyString => True | String c _ => isSpace c = false end ->
  trimStart s = s.
Proof. destruct s as [|c s]; simpl; [reflexivity | now intros ->]. Qed.

Lemma endsNoSpace_allSpace (s : string) :
  endsNoSpace s = true -> allSpace s = true -> s = "".
Proof.
  induction s as [|c s IH]; [reflexivity|].
  intros He Ha. simpl in Ha. apply andb_prop in Ha as [Hc Ha].
  destruct s as [|c' s'].
  - simpl in He. rewrite Hc in He. discriminate.
  - specialize (IH He Ha). discriminate.
Qed.

Lemma trimEnd_id (s : string) : endsNoSpace s = true -> trimEnd s = s.
Proof.
  induction s as [|c s IH]; [reflexivity|].
  intro He. cbn [trimEnd].
  destruct (allSpace (String c s)) eqn:Ha.
  - apply (endsNoSpace_allSpace _ He) in Ha. discriminate.
  - f_equal. apply IH. destruct s; [reflexivity | exact He].
Qed.

Lemma endsNoSpace_app (a b : string) :
  b <> "" -> endsNoSpace (a ++ b)%string = endsNoSpace b.
Proof.
  intro Hb. induction a as [|c a IH]; [reflexivity|].
  simpl. destruct (a ++ b)%string eqn:E; [|exact IH].
  destruct a; simpl in E; [contradiction | discriminate].
Qed.

Lemma isDigit_not_space (c : ascii) : isDigit c = true -> isSpace c = false.
Proof.
  unfold isDigit, isSpace. intro H. apply andb_prop in H as [H1 H2].
  apply Nat.leb_le in H1, H2.
  repeat (apply orb_false_intro); [apply andb_false_intro2|..];
    first [apply Nat.leb_gt | apply Nat.eqb_neq]; lia.
Qed.

Lemma allDigits_endsNoSpace (g : string) :
  allDigits g = true -> endsNoSpace g = true.
Proof.
  induction g as [|c g IH]; [reflexivity|].
  rewrite allDigits_cons. intro H. apply andb_prop in H as [Hc Hg].
  destruct g as [|c' g']; [|exact (IH Hg)].
  simpl. now rewrite (isDigit_not_space _ Hc).
Qed.

(** A date in the slash form has nothing to trim. *)
Lemma trim_slash_date (g1 g2 g3 : string) :
  allDigits g1 = true -> g1 <> "" -> allDigits g3 = true -> g3 <> "" ->
  trim (g1 ++ String "/" (g2 ++ String "/" g3))%string
  = (g1 ++ String "/" (g2 ++ String "/" g3))%string.
Proof.
  intros D1 N1 D3 N3. unfold trim.
  rewrite trimStart_id.
  - apply trimEnd_id.
    rewrite endsNoSpace_app by discriminate.
    change (String "/" (g2 ++ String "/" g3))%string
      with (String "/" "" ++ (g2 ++ String "/" g3))%string.
    rewrite endsNoSpace_app
      by (destruct g2; discriminate).
    change (String "/" g3) with (String "/" "" ++ g3)%string.
    rewrite <- string_app_assoc.
    rewrite endsNoSpace_app by assumption.
    now apply allDigits_endsNoSpace.
  - destruct g1 as [|c g1]; [contradiction|]. simpl.
    rewrite allDigits_cons in D1. apply andb_prop in D1 as [Hc _].
    now apply isDigit_not_space.
Qed.

(* ================================================================== *)
(** * Properties: the calendar and the date parsers *)
(* ================================================================== *)

Lemma zrange_In (lo : Z) (n : nat) (z : Z) :
  (lo <= z < lo + Z.of_nat n)%Z -> In z (zrange lo n).
Proof.
  intro H. unfold zrange. apply in_map_iff.
  exists (Z.to_nat (z - lo)). split; [lia|]. apply in_seq. lia.
Qed.

Lemma forallb_zrange (f : Z -> bool) (lo : Z) (n : nat) :
  forallb f (zrange lo n) = true ->
  forall z, (lo <= z < lo + Z.of_nat n)%Z -> f z = true.
Proof.
  intros H z Hz. rewrite forallb_forall in H. apply H. now apply zrange_In.
Qed.

(** Checked by evaluation, day by day, over the years 2000..2099, the years
    a two-digit year expands to. *)
Lemma validAgrees_century : forallb validAgreesOn (zrange 2000 100) = true.
Proof. vm_cast_no_check (eq_refl true). Qed.

Lemma daysInMonth_le_31 (y m : Z) : (daysInMonth y m <= 31)%Z.
Proof.
  unfold daysInMonth.
  destruct ((m =? 4) || (m =? 6) || (m =? 9) || (m =? 11))%Z; [lia|].
  destruct (m =? 2)%Z; [destruct (isLeapYear y)|]; lia.
Qed.

Lemma isValidDateParts_bounds (y m d : Z) :
  isValidDateParts y m d = true ->
  (1000 <= y <= 9999 /\ 1 <= m <= 12 /\ 1 <= d <= 31)%Z.
Proof.
  unfold isValidDateParts.
  destruct ((y <? 1000) || (y >? 9999))%Z eqn:Ey; [discriminate|].
  destruct ((m <? 1) || (m >? 12))%Z eqn:Em; [discriminate|].
  destruct ((d <? 1) || (d >? 31))%Z eqn:Ed; [discriminate|].
  intros _. apply orb_false_elim in Ey as [? ?], Em as [? ?], Ed as [? ?]. lia.
Qed.

(** In the years 2000..2099 the round trip through [Date.UTC] accepts the
    days of the calendar and no other. *)
Lemma isValidDateParts_century (y m d : Z) :
  (2000 <= y <= 2099)%Z -> isValidDateParts y m d = isCalendarDate y m d.
Proof.
  intro Hy.
  destruct (Z_le_dec 1 m), (Z_le_dec m 12), (Z_le_dec 1 d), (Z_le_dec d 31).
  1: { pose proof (@forallb_zrange _ _ _ validAgrees_century y ltac:(lia)) as Hm.
       unfold validAgreesOn in Hm.
       pose proof (@forallb_zrange _ _ _ Hm m ltac:(lia)) as Hd. cbv beta in Hd.
       pose proof (@forallb_zrange _ _ _ Hd d ltac:(lia)) as H. cbv beta in H.
       now apply Bool.eqb_prop in H. }
  all: destruct (isValidDateParts y m d) eqn:E;
    [apply isValidDateParts_bounds in E; lia|];
    symmetry; unfold isCalendarDate; pose proof (daysInMonth_le_31 y m);
    apply not_true_is_false; intro Hc;
    repeat (apply andb_prop in Hc as [Hc ?]); lia.
Qed.

Lemma lengthIn_1_2 (g : string) :
  lengthIn g [1; 2] = true <-> String.length g = 1 \/ String.length g = 2.
Proof.
  unfold lengthIn. simpl. rewrite orb_false_r, orb_true_iff, !Nat.eqb_eq. tauto.
Qed.

Lemma lengthIn_2 (g : string) : lengthIn g [2] = true <-> String.length g = 2.
Proof. unfold lengthIn. simpl. now rewrite orb_false_r, Nat.eqb_eq. Qed.

Lemma isDigit_code (c : ascii) : isDigit c = true -> 48 <= code c <= 57.
Proof.
  unfold isDigit. intro H. apply andb_prop in H as [H1 H2].
  apply Nat.leb_le in H1, H2. lia.
Qed.

Lemma digitsValue_two (g : string) :
  allDigits g = true -> String.length g = 2 -> (0 <= digitsValue g <= 99)%Z.
Proof.
  destruct g as [|a [|b [|c g]]]; try discriminate. intros Hd _.
  rewrite !allDigits_cons in Hd.
  apply andb_prop in Hd as [Ha Hd]. apply andb_prop in Hd as [Hb _].
  apply isDigit_code in Ha, Hb.
  unfold digitsValue. cbn [list_ascii_of_string fold_left]. lia.
Qed.

(** The cases the specification names, as the program computes them. *)
Lemma parseN8nDate_examples :
  parseN8nDate "02/30/26" = None
  /\ parseN8nDate "13/01/26" = None
  /\ parseN8nDate "2/5/26" = Some (mkN8nDate "2026-02-05" "MM/DD/YY")
  /\ parseN8nDate "2/5/26" = parseN8nDate "02/05/26".
Proof. vm_compute. repeat split. Qed.

Lemma parseN8nDate_spec (raw : string) (res : N8nDate) :
  parseN8nDate raw = Some res
  <-> exists year month day,
      IsCommandDate raw year month day
      /\ isCalendarDate year month day = true
      /\ res = mkN8nDate (isoOfParts year month day) "MM/DD/YY".
Proof.
  unfold parseN8nDate. split.
  - destruct (matchThreeGroups "/" [1; 2] [1; 2] [2] raw) as [[[g1 g2] g3]|] eqn:E;
      [|discriminate].
    apply matchThreeGroups_spec in E; [|reflexivity].
    destruct E as (-> & D1 & D2 & D3 & L1 & L2 & L3).
    apply lengthIn_1_2 in L1, L2. apply lengthIn_2 in L3.
    destruct (isValidDateParts _ _ _) eqn:V; [|discriminate].
    simpl. intro R. injection R as <-.
    pose proof (digitsValue_two _ D3 L3).
    rewrite isValidDateParts_century in V by lia.
    exists (2000 + digitsValue g3)%Z, (digitsValue g1), (digitsValue g2).
    split; [|split; [exact V | reflexivity]].
    exists g1, g2, g3. repeat split; assumption.
  - intros (year & month & day & (g1 & g2 & g3 & -> & D1 & D2 & D3 & L1 & L2 & L3
                                  & -> & -> & ->) & V & ->).
    pose proof (digitsValue_two _ D3 L3).
    rewrite <- isValidDateParts_century in V by lia.
    assert (E : matchThreeGroups "/" [1; 2] [1; 2] [2]
                  (g1 ++ "/" ++ g2 ++ "/" ++ g3)%string = Some (g1, g2, g3)).
    { apply matchThreeGroups_spec; [reflexivity|].
      repeat split; try assumption;
        first [now apply lengthIn_1_2 | now apply lengthIn_2]. }
    rewrite E, V. reflexivity.
Qed.

(** C5.  [parseN8nDate] accepts exactly MM/DD/YY, one or two digits of month
    and of day and two of year, reads the year as 2000 + YY, and accepts only
    days of the calendar, without clamping: 02/30/26 and 13/01/26 fail, and
    2/5/26 succeeds with the result of 02/05/26. *)
Theorem parseN8nDate_strict_format :
  (forall (raw : string) (res : N8nDate),
      parseN8nDate raw = Some res
      <-> exists year month day,
          IsCommandDate raw year month day
          /\ isCalendarDate year month day = true
          /\ res = mkN8nDate (isoOfParts year month day) "MM/DD/YY")
  /\ isCalendarDate 2026 2 30 = false
  /\ parseN8nDate "02/30/26" = None
  /\ parseN8nDate "13/01/26" = None
  /\ parseN8nDate "2/5/26" = Some (mkN8nDate "2026-02-05" "MM/DD/YY")
  /\ parseN8nDate "2/5/26" = parseN8nDate "02/05/26".
Proof.
  split; [exact parseN8nDate_spec|].
  split; [reflexivity | exact parseN8nDate_examples].
Qed.

(** Checked by evaluation over the same years. *)
Lemma roundTrip_century : forallb roundTripOn (zrange 2000 100) = true.
Proof. vm_cast_no_check (eq_refl true). Qed.

Lemma label_round_trip (y m d : Z) :
  (2000 <= y <= 2099)%Z -> isCalendarDate y m d = true ->
  parseSheetDate (isoToSheetDateLabel (isoOfParts y m d))
  = Some (JsDate.UTC y (m - 1) d).
Proof.
  intros Hy V.
  assert (Hb : (1 <= m <= 12 /\ 1 <= d <= 31)%Z).
  { rewrite <- (isValidDateParts_century m d Hy) in V.
    apply isValidDateParts_bounds in V. lia. }
  pose proof (@forallb_zrange _ _ _ roundTrip_century y ltac:(lia)) as Hm.
  unfold roundTripOn in Hm.
  pose proof (@forallb_zrange _ _ _ Hm m ltac:(lia)) as Hd. cbv beta in Hd.
  pose proof (@forallb_zrange _ _ _ Hd d ltac:(lia)) as H. cbv beta in H.
  rewrite V in H.
  destruct (parseSheetDate _) as [t|]; [|discriminate].
  apply Z.eqb_eq in H. now subst.
Qed.

(** The time value of a date that [isValidDateParts] accepts reads back as
    that date: the date key names one day. *)
Lemma dateKey_reads_back (y m d : Z) :
  isValidDateParts y m d = true ->
  JsDate.getUTCFullYear (JsDate.UTC y (m - 1) d) = y
  /\ (JsDate.getUTCMonth (JsDate.UTC y (m - 1) d) + 1 = m)%Z
  /\ JsDate.getUTCDate (JsDate.UTC y (m - 1) d) = d.
Proof.
  unfold isValidDateParts.
  destruct ((y <? 1000) || (y >? 9999))%Z; [discriminate|].
  destruct ((m <? 1) || (m >? 12))%Z; [discriminate|].
  destruct ((d <? 1) || (d >? 31))%Z; [discriminate|].
  intro H. apply andb_prop in H as [H H3]. apply andb_prop in H as [H1 H2].
  apply Z.eqb_eq in H1, H2, H3. lia.
Qed.

Lemma parseSheetDate_command_date (raw : string) (y m d : Z) :
  IsCommandDate raw y m d -> isCalendarDate y m d = true ->
  parseSheetDate raw = Some (JsDate.UTC y (m - 1) d).
Proof.
  intros (g1 & g2 & g3 & -> & D1 & D2 & D3 & L1 & L2 & L3 & -> & -> & ->) V.
  pose proof (digitsValue_two _ D3 L3).
  rewrite <- isValidDateParts_century in V by lia.
  unfold parseSheetDate.
  change (g1 ++ "/" ++ g2 ++ "/" ++ g3)%string
    with (g1 ++ String "/" (g2 ++ String "/" g3))%string.
  rewrite trim_slash_date; try assumption;
    [|intros ->; simpl in L1; lia | intros ->; discriminate].
  assert (E : matchThreeGroups "/" [1; 2] [1; 2] [2; 4]
                (g1 ++ String "/" (g2 ++ String "/" g3))%string = Some (g1, g2, g3)).
  { apply matchThreeGroups_spec; [reflexivity|].
    repeat split; try assumption; try (now apply lengthIn_1_2).
    unfold lengthIn. rewrite L3. reflexivity. }
  rewrite E, L3. cbn [Nat.eqb]. rewrite V. reflexivity.
Qed.

(** C4.  A date that [parseN8nDate] accepts, written as a header label by
    [isoToSheetDateLabel] and read again by [parseSheetDate], gives the date
    key of the year, month and day that were parsed, the key the command
    date itself has: parse, format, parse is stable. *)
Theorem date_round_trip (raw : string) (res : N8nDate) :
  parseN8nDate raw = Some res ->
  exists year month day : Z,
    IsCommandDate raw year month day
    /\ isoDate res = isoOfParts year month day
    /\ parseSheetDate (isoToSheetDateLabel (isoDate res))
       = Some (JsDate.UTC year (month - 1) day)
    /\ parseSheetDate raw = Some (JsDate.UTC year (month - 1) day)
    /\ JsDate.getUTCFullYear (JsDate.UTC year (month - 1) day) = year
    /\ (JsDate.getUTCMonth (JsDate.UTC year (month - 1) day) + 1 = month)%Z
    /\ JsDate.getUTCDate (JsDate.UTC year (month - 1) day) = day.
Proof.
  intro H. apply parseN8nDate_spec in H as (y & m & d & Hc & V & ->).
  exists y, m, d.
  assert (Hy : (2000 <= y <= 2099)%Z).
  { destruct Hc as (g1 & g2 & g3 & _ & _ & _ & D3 & _ & _ & L3 & _ & _ & ->).
    pose proof (digitsValue_two _ D3 L3). lia. }
  split; [exact Hc|]. split; [reflexivity|].
  split; [now apply label_round_trip|].
  split; [now apply parseSheetDate_command_date|].
  apply dateKey_reads_back. now rewrite isValidDateParts_century.
Qed.

Lemma date_round_trip_witness :
  parseN8nDate "2/5/26" = Some (mkN8nDate "2026-02-05" "MM/DD/YY")
  /\ exists year month day : Z,
      IsCommandDate "2/5/26" year month day
      /\ isoDate (mkN8nDate "2026-02-05" "MM/DD/YY") = isoOfParts year month day
      /\ parseSheetDate (isoToSheetDateLabel (isoDate (mkN8nDate "2026-02-05" "MM/DD/YY")))
         = Some (JsDate.UTC year (month - 1) day)
      /\ parseSheetDate "2/5/26" = Some (JsDate.UTC year (month - 1) day)
      /\ JsDate.getUTCFullYear (JsDate.UTC year (month - 1) day) = year
      /\ (JsDate.getUTCMonth (JsDate.UTC year (month - 1) day) + 1 = month)%Z
      /\ JsDate.getUTCDate (JsDate.UTC year (month - 1) day) = day.
Proof.
  split; [vm_compute; reflexivity|].
  apply (@date_round_trip "2/5/26" (mkN8nDate "2026-02-05" "MM/DD/YY")).
  vm_compute; reflexivity.
Defined.

(* ================================================================== *)
(** * Properties: maps *)
(* ================================================================== *)

Section MapFacts.

Variable K : Type.
Variable eqb : K -> K -> bool.
Hypothesis eqb_eq : forall a b, eqb a b = true <-> a = b.
Variable V : Type.

Implicit Types (m : JsMap.t K V) (k : K) (v : V).

Lemma eqb_refl' k : eqb k k = true.
Proof. now apply eqb_eq. Qed.

Lemma eqb_neq' k k' : k <> k' -> eqb k k' = false.
Proof.
  intro H. destruct (eqb k k') eqn:E; [|reflexivity].
  apply eqb_eq in E. contradiction.
Qed.

Lemma get_set_same m k v : JsMap.get eqb (JsMap.set eqb m k v) k = Some v.
Proof.
  induction m as [|[k' v'] m IH]; simpl.
  - now rewrite eqb_refl'.
  - destruct (eqb k' k) eqn:E; simpl; rewrite E; [reflexivity | exact IH].
Qed.

Lemma get_set_other m k v k' :
  k' <> k -> JsMap.get eqb (JsMap.set eqb m k v) k' = JsMap.get eqb m k'.
Proof.
  intro Hne. induction m as [|[k0 v0] m IH]; simpl.
  - now rewrite eqb_neq' by congruence.
  - destruct (eqb k0 k) eqn:E; simpl.
    + apply eqb_eq in E. subst k0. now rewrite eqb_neq' by congruence.
    + now rewrite IH.
Qed.

Lemma keys_set m k v k' :
  In k' (JsMap.keys (JsMap.set eqb m k v)) <-> k' = k \/ In k' (JsMap.keys m).
Proof.
  unfold JsMap.keys. induction m as [|[k0 v0] m IH]; simpl.
  - intuition.
  - destruct (eqb k0 k) eqn:E; simpl.
    + apply eqb_eq in E. subst k0. intuition.
    + rewrite IH. intuition.
Qed.

Lemma get_None_keys m k : JsMap.get eqb m k = None <-> ~ In k (JsMap.keys m).
Proof.
  unfold JsMap.keys. induction m as [|[k0 v0] m IH]; simpl.
  - intuition.
  - destruct (eqb k0 k) eqn:E.
    + apply eqb_eq in E. subst. split; [discriminate | intuition].
    + rewrite IH. split; [|intuition].
      intros H [H'|H']; [|contradiction]. subst.
      rewrite eqb_refl' in E. discriminate.
Qed.

Lemma get_Some_In m k v : JsMap.get eqb m k = Some v -> In (k, v) m.
Proof.
  induction m as [|[k0 v0] m IH]; simpl; [discriminate|].
  destruct (eqb k0 k) eqn:E.
  - apply eqb_eq in E. intro H. injection H as ->. subst. now left.
  - intro H. right. now apply IH.
Qed.

Lemma NoDup_keys_set m k v :
  NoDup (JsMap.keys m) -> NoDup (JsMap.keys (JsMap.set eqb m k v)).
Proof.
  unfold JsMap.keys. induction m as [|[k0 v0] m IH]; simpl; intro H.
  - repeat constructor. intros [].
  - inversion H as [|? ? Hn Hd]; subst.
    destruct (eqb k0 k) eqn:E; simpl.
    + now constructor.
    + constructor; [|now apply IH].
      intro Hin. apply (keys_set m k v k0) in Hin as [->|Hin]; [|contradiction].
      rewrite eqb_refl' in E. discriminate.
Qed.

Lemma has_get m k :
  (if JsMap.has eqb m k then JsMap.get eqb m k else None) = JsMap.get eqb m k.
Proof. unfold JsMap.has. now destruct (JsMap.get eqb m k). Qed.

End MapFacts.

(* ================================================================== *)
(** * Properties: the series aligner *)
(* ================================================================== *)

Lemma lastAt_None (V : Type) (f : Point -> V) (series : list Point) (t : Z) :
  lastAt f series t = None <-> forall p, In p series -> p_date p <> t.
Proof.
  induction series as [|q rest IH]; simpl.
  - split; [intros _ p [] | reflexivity].
  - destruct (lastAt f rest t) eqn:E.
    + split; [discriminate|]. intro H.
      assert (X : Some v = None) by (apply IH; intros p Hp; apply H; now right).
      discriminate.
    + destruct (Z.eqb_spec (p_date q) t) as [Eq|Ne].
      * split; [discriminate|]. intro H. exfalso. apply (H q); auto.
      * split; [|reflexivity]. intros _ p [<-|Hp]; [exact Ne|].
        destruct IH as [IH _]. exact (IH eq_refl p Hp).
Qed.

Lemma lastAt_Some (V : Type) (f : Point -> V) (series : list Point) (t : Z) (v : V) :
  lastAt f series t = Some v ->
  exists p, In p series /\ p_date p = t /\ f p = v.
Proof.
  induction series as [|q rest IH]; simpl; [discriminate|].
  destruct (lastAt f rest t) eqn:E.
  - intro H. injection H as ->. destruct (IH eq_refl) as (p & Hp & H1 & H2).
    exists p. auto.
  - destruct (Z.eqb_spec (p_date q) t) as [Eq|Ne]; [|discriminate].
    intro H. injection H as <-. exists q. auto.
Qed.

(** A series with one point for a date has the value of that point there. *)
Lemma lastAt_unique (V : Type) (f : Point -> V) (series : list Point) (p : Point) :
  In p series ->
  (forall q, In q series -> p_date q = p_date p -> q = p) ->
  lastAt f series (p_date p) = Some (f p).
Proof.
  intros Hin Huniq.
  destruct (lastAt f series (p_date p)) as [v|] eqn:E.
  - apply lastAt_Some in E as (q & Hq & Hd & <-).
    now rewrite (Huniq q Hq Hd).
  - exfalso. destruct (lastAt_None f series (p_date p)) as [H _].
    exact (H E p Hin eq_refl).
Qed.

Lemma get_fold_set (V : Type) (f : Point -> V) (series : list Point) :
  forall (m : JsMap.t Z V) (t : Z),
    JsMap.get Z.eqb
      (fold_left (fun m p => JsMap.set Z.eqb m (p_date p) (f p)) series m) t
    = match lastAt f series t with
      | Some x => Some x
      | None => JsMap.get Z.eqb m t
      end.
Proof.
  induction series as [|q rest IH]; intros m t; simpl; [reflexivity|].
  rewrite IH. destruct (lastAt f rest t); [reflexivity|].
  destruct (Z.eqb_spec (p_date q) t) as [<-|Ne].
  - apply get_set_same. exact Z.eqb_eq.
  - apply get_set_other; [exact Z.eqb_eq | congruence].
Qed.

Lemma keys_fold_set (V : Type) (f : Point -> V) (series : list Point) :
  forall (m : JsMap.t Z V) (t : Z),
    In t (JsMap.keys
            (fold_left (fun m p => JsMap.set Z.eqb m (p_date p) (f p)) series m))
    <-> In t (JsMap.keys m) \/ exists p, In p series /\ p_date p = t.
Proof.
  induction series as [|q rest IH]; intros m t; simpl.
  - split; [auto | intros [H | (p & [] & _)]; exact H].
  - rewrite IH, (@keys_set _ _ Z.eqb_eq). split.
    + intros [[->|H] | (p & Hp & E)]; eauto.
    + intros [H | (p & [<-|Hp] & E)]; eauto.
Qed.

Lemma NoDup_keys_fold_set (V : Type) (f : Point -> V) (series : list Point) :
  forall m : JsMap.t Z V,
    NoDup (JsMap.keys m) ->
    NoDup (JsMap.keys
             (fold_left (fun m p => JsMap.set Z.eqb m (p_date p) (f p)) series m)).
Proof.
  induction series as [|q rest IH]; intros m H; simpl; [exact H|].
  apply IH. now apply (@NoDup_keys_set _ _ Z.eqb_eq).
Qed.

Lemma sorted_NoDup_strict (l : list Z) :
  StronglySorted Z.le l -> NoDup l -> StronglySorted Z.lt l.
Proof.
  induction 1 as [|x l Hs IH Hall]; intro Hd; constructor.
  - apply IH. now inversion Hd.
  - inversion Hd as [|? ? Hn _]; subst.
    rewrite Forall_forall in *. intros y Hy.
    specialize (Hall y Hy). assert (x <> y) by (intros ->; contradiction). lia.
Qed.

Lemma alignTimes_spec (pointsA pointsB : list Point) :
  StronglySorted Z.lt (alignTimes pointsA pointsB)
  /\ forall t, In t (alignTimes pointsA pointsB)
               <-> exists p, (In p pointsA \/ In p pointsB) /\ p_date p = t.
Proof.
  unfold alignTimes. split.
  - apply sorted_NoDup_strict.
    + apply (@sortBy_sorted Z (fun a b => (a - b)%Z) (fun z => z)). reflexivity.
    + eapply Permutation_NoDup; [symmetry; apply sortBy_perm|].
      do 2 apply NoDup_keys_fold_set. constructor.
  - intro t. rewrite sortBy_In, !keys_fold_set. simpl. split.
    + intros [[[]|(p & Hp & E)]|(p & Hp & E)]; eauto.
    + intros (p & [Hp|Hp] & E); eauto.
Qed.

Lemma fold_left_over_map (A B C : Type) (g : A -> B) (f : C -> B -> C)
      (l : list A) :
  forall c, fold_left f (map g l) c = fold_left (fun c a => f c (g a)) l c.
Proof. induction l as [|a l IH]; intro c; simpl; [reflexivity | apply IH]. Qed.

Lemma alignSeries_unfold (pointsA pointsB : list Point) :
  alignSeries pointsA pointsB
  = mkAligned
      (map (fun t => match labelAt (pointsA ++ pointsB) t with
                     | Some l => l
                     | None => ""
                     end) (alignTimes pointsA pointsB))
      (map (valueAt pointsA) (alignTimes pointsA pointsB))
      (map (valueAt pointsB) (alignTimes pointsA pointsB)).
Proof.
  unfold alignSeries. fold (alignTimes pointsA pointsB). f_equal.
  - apply map_ext. intro t. rewrite <- fold_left_app.
    rewrite (get_fold_set p_label). simpl. unfold labelAt.
    now destruct (lastAt p_label (pointsA ++ pointsB) t).
  - apply map_ext. intro t. rewrite has_get.
    unfold JsMap.ofEntries. rewrite fold_left_over_map. simpl.
    rewrite (get_fold_set p_value). simpl. unfold valueAt.
    now destruct (lastAt p_value pointsA t).
  - apply map_ext. intro t. rewrite has_get.
    unfold JsMap.ofEntries. rewrite fold_left_over_map. simpl.
    rewrite (get_fold_set p_value). simpl. unfold valueAt.
    now destruct (lastAt p_value pointsB t).
Qed.

(** C7.  The aligned chart has one entry per distinct date of either series,
    in ascending order of the date; a series' entry at a date is the value
    of its point with that date (of the last one when it has several) and
    the absent marker [None], never a zero, when it has none.  For
    A = [(d1,10),(d2,20)] and B = [(d2,30),(d3,40)] with d1 < d2 < d3 the
    labels are those of d1, d2, d3, A gives [10, 20, absent] and B gives
    [absent, 30, 40]. *)
Theorem alignSeries_union_with_gaps :
  (forall pointsA pointsB : list Point,
      exists times : list Z,
        StronglySorted Z.lt times
        /\ (forall t, In t times
                      <-> exists p, (In p pointsA \/ In p pointsB) /\ p_date p = t)
        /\ al_labels (alignSeries pointsA pointsB)
           = map (fun t => match labelAt (pointsA ++ pointsB) t with
                           | Some l => l
                           | None => ""
                           end) times
        /\ al_seriesA (alignSeries pointsA pointsB) = map (valueAt pointsA) times
        /\ al_seriesB (alignSeries pointsA pointsB) = map (valueAt pointsB) times
        /\ (forall series t,
               (valueAt series t = None <-> forall p, In p series -> p_date p <> t)
               /\ (forall v, valueAt series t = Some v ->
                             exists p, In p series /\ p_date p = t /\ p_value p = v))
        /\ (forall series p,
               In p series ->
               (forall q, In q series -> p_date q = p_date p -> q = p) ->
               valueAt series (p_date p) = Some (p_value p)))
  /\ (forall (d1 d2 d3 : Z) (l1 l2 l3 : string),
         (d1 < d2 < d3)%Z ->
         alignSeries [mkPoint l1 d1 10; mkPoint l2 d2 20]
                     [mkPoint l2 d2 30; mkPoint l3 d3 40]
         = mkAligned [l1; l2; l3]
                     [Some 10%float; Some 20%float; None]
                     [None; Some 30%float; Some 40%float]).
Proof.
  split.
  - intros pointsA pointsB. exists (alignTimes pointsA pointsB).
    destruct (alignTimes_spec pointsA pointsB) as [Hs Hin].
    rewrite alignSeries_unfold. simpl.
    repeat split; try assumption; try apply Hin.
    + apply lastAt_None.
    + apply lastAt_None.
    + apply lastAt_Some.
    + intros series p. apply lastAt_unique.
  - intros d1 d2 d3 l1 l2 l3 Hd.
    rewrite alignSeries_unfold.
    assert (Ht : alignTimes [mkPoint l1 d1 10; mkPoint l2 d2 20]
                            [mkPoint l2 d2 30; mkPoint l3 d3 40] = [d1; d2; d3]).
    { unfold alignTimes. cbn [fold_left JsMap.set p_date p_label].
      assert (E12 : (d1 =? d2)%Z = false) by (apply Z.eqb_neq; lia).
      assert (E13 : (d1 =? d3)%Z = false) by (apply Z.eqb_neq; lia).
      assert (E23 : (d2 =? d3)%Z = false) by (apply Z.eqb_neq; lia).
      repeat (progress (cbn [JsMap.set]; rewrite ?E12, ?E13, ?E23, ?Z.eqb_refl)).
      assert (L23 : (d2 - d3 <=? 0)%Z = true) by (apply Z.leb_le; lia).
      assert (L12 : (d1 - d2 <=? 0)%Z = true) by (apply Z.leb_le; lia).
      cbn [JsMap.keys map fst].
      repeat (progress (cbn [sortBy insertSorted]; rewrite ?L23, ?L12)).
      reflexivity. }
    rewrite Ht. unfold valueAt, labelAt.
    cbn [map app lastAt p_date p_label p_value].
    assert (E12 : (d1 =? d2)%Z = false) by (apply Z.eqb_neq; lia).
    assert (E13 : (d1 =? d3)%Z = false) by (apply Z.eqb_neq; lia).
    assert (E23 : (d2 =? d3)%Z = false) by (apply Z.eqb_neq; lia).
    assert (E21 : (d2 =? d1)%Z = false) by (apply Z.eqb_neq; lia).
    assert (E31 : (d3 =? d1)%Z = false) by (apply Z.eqb_neq; lia).
    assert (E32 : (d3 =? d2)%Z = false) by (apply Z.eqb_neq; lia).
    rewrite ?E12, ?E13, ?E23, ?E21, ?E31, ?E32, ?Z.eqb_refl.
    reflexivity.
Qed.

(* ================================================================== *)
(** * Properties: extraction and aggregation *)
(* ================================================================== *)


(** A column past the end of the header has a blank header, which is no
    date. *)
Lemma dated_column_in_header (header : list string) (col : nat) (d : Z) :
  parseSheetDate (trim (cellAt header col)) = Some d -> col < List.length header.
Proof.
  intro H. destruct (Nat.lt_ge_cases col (List.length header)) as [Hlt|Hge];
    [exact Hlt|].
  unfold cellAt in H. rewrite nth_overflow in H by exact Hge. discriminate.
Qed.

Section ScoreFacts.

Variable Number : string -> float.

(** The point a column gives for a row: the header read as a date and the
    cell as a number, when both read. *)
Definition pointOfColumn (header targetRow : list string) (col : nat)
  : option Point :=
  match parseSheetDate (trim (cellAt header col)),
        parseScore Number (trim (cellAt targetRow col)) with
  | Some date, Some value => Some (mkPoint (trim (cellAt header col)) date value)
  | _, _ => None
  end.

Lemma fold_userPointAt (header targetRow : list string) (cols : list nat) :
  forall acc,
    fold_left (userPointAt Number header targetRow) cols acc
    = acc ++ flat_map (fun col => optList (pointOfColumn header targetRow col)) cols.
Proof.
  induction cols as [|c cols IH]; intro acc; simpl.
  - now rewrite app_nil_r.
  - rewrite IH. unfold userPointAt, pointOfColumn.
    destruct (parseSheetDate _); [destruct (parseScore _ _)|]; simpl;
      now rewrite <- ?app_assoc.
Qed.



(** The sum of the cells of a column that read as a number, over the data
    rows in their order, from 0. *)
Definition sumOfColumn (rows : Sheet) (col : nat) : float :=
  fold_left PrimFloat.add
            (flat_map (fun row => optList (parseScore Number (trim (cellAt row col))))
                      (skipn 1 rows))
            PrimFloat.zero.

Definition totalOfColumn (rows : Sheet) (col : nat) : option TotalPoint :=
  let label := trim (cellAt (nth 0 rows []) col) in
  match parseSheetDate label with
  | Some date => Some (mkTotal label date (sumOfColumn rows col))
  | None => None
  end.

Lemma columnTotal_sum (rows : Sheet) (col : nat) :
  columnTotal Number rows col = sumOfColumn rows col.
Proof.
  unfold columnTotal, sumOfColumn. generalize PrimFloat.zero.
  induction (skipn 1 rows) as [|row l IH]; intro acc; simpl; [reflexivity|].
  rewrite IH. destruct (parseScore _ _); reflexivity.
Qed.

Lemma fold_totalPointAt (rows : Sheet) (cols : list nat) :
  forall acc,
    fold_left (totalPointAt Number rows (nth 0 rows [])) cols acc
    = acc ++ flat_map (fun col => optList (totalOfColumn rows col)) cols.
Proof.
  induction cols as [|c cols IH]; intro acc; simpl.
  - now rewrite app_nil_r.
  - rewrite IH. unfold totalPointAt, totalOfColumn. rewrite columnTotal_sum.
    destruct (parseSheetDate _); simpl; now rewrite <- ?app_assoc.
Qed.




End ScoreFacts.

(* ================================================================== *)
(** * Properties: decimal numerals *)
(* ================================================================== *)

Lemma decimalFrom_acc (fuel : nat) :
  forall (n : Z) (acc : string),
    decimalFrom fuel n acc = (decimalFrom fuel n "" ++ acc)%string.
Proof.
  induction fuel as [|fuel IH]; intros n acc; cbn [decimalFrom].
  - reflexivity.
  - destruct (n <? 10)%Z; [reflexivity|].
    rewrite (IH _ (String _ acc)), (IH _ (String _ "")).
    now rewrite string_app_assoc.
Qed.

Lemma decimalFrom_fuel (fuel1 : nat) :
  forall (fuel2 : nat) (n : Z),
    (0 <= n < Z.of_nat fuel1)%Z -> (n < Z.of_nat fuel2)%Z ->
    decimalFrom fuel1 n "" = decimalFrom fuel2 n "".
Proof.
  induction fuel1 as [|fuel1 IH]; intros fuel2 n H1 H2; [lia|].
  destruct fuel2 as [|fuel2]; [lia|]. cbn [decimalFrom].
  destruct (n <? 10)%Z eqn:E; [reflexivity|].
  apply Z.ltb_ge in E.
  assert (0 <= n / 10 < n)%Z
    by (split; [apply Z.div_pos; lia | apply Z.div_lt; lia]).
  rewrite (decimalFrom_acc fuel1), (decimalFrom_acc fuel2).
  f_equal. apply IH; lia.
Qed.

Lemma ofNumber_small (n : Z) : (n < 10)%Z -> ofNumber n = digitOf (n mod 10).
Proof.
  intro H. unfold ofNumber. cbn [decimalFrom].
  now replace (n <? 10)%Z with true by (symmetry; apply Z.ltb_lt; lia).
Qed.

Lemma ofNumber_unfold (n : Z) :
  (10 <= n)%Z -> ofNumber n = (ofNumber (n / 10) ++ digitOf (n mod 10))%string.
Proof.
  intro H. unfold ofNumber at 1. cbn [decimalFrom].
  replace (n <? 10)%Z with false by (symmetry; apply Z.ltb_ge; lia).
  assert (0 <= n / 10 < n)%Z
    by (split; [apply Z.div_pos; lia | apply Z.div_lt; lia]).
  rewrite decimalFrom_acc. unfold ofNumber, digitOf. f_equal.
  apply decimalFrom_fuel; lia.
Qed.

(** Induction along the digits of a number. *)
Lemma decimal_ind (P : Z -> Prop) :
  (forall n, (0 <= n < 10)%Z -> P n) ->
  (forall n, (10 <= n)%Z -> P (n / 10)%Z -> P n) ->
  forall n, (0 <= n)%Z -> P n.
Proof.
  intros Hsmall Hbig n.
  induction n as [n IH] using (well_founded_induction (Z.lt_wf 0)).
  intro Hn. destruct (Z_lt_le_dec n 10) as [H|H].
  - apply Hsmall. lia.
  - apply Hbig; [exact H|].
    assert (0 <= n / 10 < n)%Z
      by (split; [apply Z.div_pos; lia | apply Z.div_lt; lia]).
    apply IH; lia.
Qed.

Lemma digitsValue_app (s t : string) :
  digitsValue (s ++ t)%string
  = fold_left (fun acc c => (10 * acc + Z.of_nat (code c - 48))%Z)
              (list_ascii_of_string t) (digitsValue s).
Proof.
  unfold digitsValue. now rewrite list_ascii_of_string_app, fold_left_app.
Qed.

Lemma digitsValue_digitOf (s : string) (m : Z) :
  (0 <= m < 10)%Z -> digitsValue (s ++ digitOf m)%string = (10 * digitsValue s + m)%Z.
Proof.
  intro Hm. rewrite digitsValue_app. unfold digitOf.
  cbn [list_ascii_of_string fold_left].
  rewrite code_ascii_of_nat by lia. lia.
Qed.

Lemma allDigits_app (s t : string) :
  allDigits (s ++ t)%string = allDigits s && allDigits t.
Proof.
  unfold allDigits. now rewrite list_ascii_of_string_app, forallb_app.
Qed.

Lemma allDigits_digitOf (m : Z) : (0 <= m < 10)%Z -> allDigits (digitOf m) = true.
Proof.
  intro Hm. unfold allDigits, digitOf, isDigit.
  cbn [list_ascii_of_string forallb].
  rewrite code_ascii_of_nat by lia.
  rewrite andb_true_r. apply andb_true_intro; split; apply Nat.leb_le; lia.
Qed.

(** [String(n)] is the decimal numeral of [n]: digits only, at least one,
    and its value is [n]. *)
Lemma ofNumber_decimal (n : Z) :
  (0 <= n)%Z ->
  digitsValue (ofNumber n) = n /\ allDigits (ofNumber n) = true /\ ofNumber n <> "".
Proof.
  revert n. apply decimal_ind.
  - intros n Hn. rewrite ofNumber_small by lia.
    rewrite Z.mod_small by lia.
    change (digitOf n) with ("" ++ digitOf n)%string at 1.
    rewrite digitsValue_digitOf by lia.
    split; [reflexivity|]. split; [now apply allDigits_digitOf | discriminate].
  - intros n Hn (IH1 & IH2 & IH3).
    pose proof (Z.mod_pos_bound n 10 ltac:(lia)) as Hm.
    rewrite ofNumber_unfold by lia.
    rewrite digitsValue_digitOf, allDigits_app, IH1, IH2, allDigits_digitOf by lia.
    split; [|split; [reflexivity|]].
    + pose proof (Z.div_mod n 10 ltac:(lia)). lia.
    + destruct (ofNumber (n / 10)); [contradiction | discriminate].
Qed.

(* ================================================================== *)
(** * Properties: the cell store *)
(* ================================================================== *)

Lemma nth_arraySet (A : Type) (d : A) (j : nat) (x : A) :
  forall (l : list A) (i : nat),
    nth i (arraySet d j x l) d = if i =? j then x else nth i l d.
Proof.
  induction j as [|j IH]; intros l i.
  - destruct l as [|h t]; destruct i as [|i]; simpl; try reflexivity.
    now destruct i.
  - destruct l as [|h t]; destruct i as [|i]; simpl; try reflexivity.
    + rewrite IH. now destruct i; destruct (_ =? _).
    + apply IH.
Qed.

Lemma length_arraySet (A : Type) (d : A) (j : nat) (x : A) :
  forall l : list A, List.length (arraySet d j x l) = Nat.max (List.length l) (S j).
Proof.
  induction j as [|j IH]; intro l; destruct l as [|h t]; simpl; try reflexivity.
  - lia.
  - now rewrite IH.
  - now rewrite IH.
Qed.

Lemma cell_setCell (g : Sheet) (r c : nat) (v : string) (r' c' : nat) :
  Store.cell (Store.setCell g r c v) r' c'
  = if (r' =? r) && (c' =? c) then v else Store.cell g r' c'.
Proof.
  unfold Store.cell, Store.setCell, cellAt. rewrite nth_arraySet.
  destruct (Nat.eqb_spec r' r) as [->|Hr]; simpl; [|reflexivity].
  apply nth_arraySet.
Qed.

Lemma length_setCell (g : Sheet) (r c : nat) (v : string) :
  List.length (Store.setCell g r c v) = Nat.max (List.length g) (S r).
Proof. unfold Store.setCell. apply length_arraySet. Qed.

(** A block of one column: the cells it sets and the rows it adds. *)
Lemma writeBlock_column (xs : list string) :
  forall (g : Sheet) (r c : nat),
    (forall r' c',
        Store.cell (Store.writeBlock g r c (map (fun x => [x]) xs)) r' c'
        = if (c' =? c) && (r <=? r') && (r' <? r + List.length xs)
          then nth (r' - r) xs "" else Store.cell g r' c')
    /\ List.length (Store.writeBlock g r c (map (fun x => [x]) xs))
       = match xs with
         | [] => List.length g
         | _ => Nat.max (List.length g) (r + List.length xs)
         end.
Proof.
  induction xs as [|x xs IH]; intros g r c.
  - simpl. split; [|reflexivity]. intros r' c'.
    destruct ((c' =? c) && (r <=? r') && (r' <? r + 0)) eqn:E; [|reflexivity].
    apply andb_prop in E as [E E3]. apply andb_prop in E as [_ E2].
    apply Nat.leb_le in E2. apply Nat.ltb_lt in E3. lia.
  - cbn [map Store.writeBlock Store.writeRow].
    destruct (IH (Store.setCell g r c x) (S r) c) as [IHc IHl]. split.
    + intros r' c'. rewrite IHc, cell_setCell. cbn [List.length].
      destruct (Nat.eqb_spec c' c); destruct (Nat.eqb_spec r' r);
        destruct (Nat.leb_spec (S r) r'); destruct (Nat.leb_spec r r');
        destruct (Nat.ltb_spec r' (S r + List.length xs));
        destruct (Nat.ltb_spec r' (r + S (List.length xs)));
        cbn [andb]; try lia; try reflexivity.
      * subst. now rewrite Nat.sub_diag.
      * replace (r' - r) with (S (r' - S r)) by lia. reflexivity.
    + rewrite IHl. destruct xs; rewrite length_setCell; cbn [List.length]; lia.
Qed.

Lemma spanUpper_app (u r : string) :
  allUpper u = true -> startsNoUpper r -> Store.spanUpper (u ++ r)%string = (u, r).
Proof.
  induction u as [|c u IH]; intros Hu Hr; simpl.
  - destruct r as [|c r]; [reflexivity|]. simpl in Hr. simpl. now rewrite Hr.
  - unfold allUpper in Hu. simpl in Hu. apply andb_prop in Hu as [Hc Hu].
    rewrite Hc, IH by assumption. reflexivity.
Qed.

Lemma stripPrefix_app (p s : string) : Store.stripPrefix p (p ++ s)%string = Some s.
Proof.
  induction p as [|a p IH]; simpl; [reflexivity|]. now rewrite Ascii.eqb_refl.
Qed.

Lemma digits_startsNoUpper (s rest : string) :
  allDigits s = true -> s <> "" -> startsNoUpper (s ++ rest)%string.
Proof.
  destruct s as [|c s]; [contradiction|]. intros H _. simpl.
  rewrite allDigits_cons in H. apply andb_prop in H as [Hc _].
  apply isDigit_code in Hc. unfold Store.isUpper.
  apply andb_false_intro1. apply Nat.leb_gt. lia.
Qed.

(** The address of a cell reads as its column and row. *)
Lemma parseCell_label (col row : nat) (rest : string) :
  startsNoDigit rest ->
  Store.parseCell (columnLabel (Z.of_nat col + 1)%Z
                   ++ ofNumber (Z.of_nat row + 1)%Z ++ rest)%string
  = Some (col, row, rest).
Proof.
  intro Hrest. unfold Store.parseCell.
  destruct (@ofNumber_decimal (Z.of_nat row + 1)%Z ltac:(lia)) as (Hv & Hd & Hne).
  rewrite spanUpper_app;
    [| apply allUpper_columnLabel | now apply digits_startsNoUpper].
  rewrite spanDigits_app by assumption.
  rewrite Hv, labelValue_columnLabel by lia.
  destruct (String.eqb_spec (columnLabel (Z.of_nat col + 1)%Z) "") as [E|_];
    [apply columnLabel_nonempty in E; [destruct E | lia]|].
  destruct (String.eqb_spec (ofNumber (Z.of_nat row + 1)%Z) "") as [E|_];
    [contradiction|].
  replace (Z.of_nat row + 1 =? 0)%Z with false by (symmetry; apply Z.eqb_neq; lia).
  simpl. repeat f_equal; lia.
Qed.

Lemma parseRange_cell (sheetName : string) (col row : nat) :
  Store.parseRange sheetName (cellRange sheetName col row) = Some (col, row).
Proof.
  unfold Store.parseRange, cellRange.
  rewrite <- string_app_assoc, stripPrefix_app.
  rewrite <- (string_app_nil_r (ofNumber _)).
  now rewrite parseCell_label.
Qed.

Lemma parseRange_A1 (sheetName : string) :
  Store.parseRange sheetName (sheetName ++ "!A1")%string = Some (0, 0).
Proof. exact (parseRange_cell sheetName 0 0). Qed.

Lemma parseRange_header (sheetName : string) (col : nat) :
  Store.parseRange sheetName
    (sheetName ++ "!" ++ columnLabel (Z.of_nat col + 1)%Z ++ "1")%string
  = Some (col, 0).
Proof. exact (parseRange_cell sheetName col 0). Qed.

Lemma parseRange_nameColumn (sheetName : string) (n : nat) :
  Store.parseRange sheetName
    (sheetName ++ "!A2:A" ++ ofNumber (Z.of_nat n + 1)%Z)%string
  = Some (0, 1).
Proof.
  unfold Store.parseRange.
  change (sheetName ++ "!A2:A" ++ ofNumber (Z.of_nat n + 1)%Z)%string
    with (sheetName ++ "!" ++ (columnLabel (Z.of_nat 0 + 1)%Z ++ ofNumber (Z.of_nat 1 + 1)%Z
            ++ String ":" (columnLabel (Z.of_nat 0 + 1)%Z ++ ofNumber (Z.of_nat n + 1)%Z)))%string.
  rewrite <- string_app_assoc, stripPrefix_app.
  rewrite parseCell_label by reflexivity.
  rewrite Ascii.eqb_refl.
  rewrite <- (string_app_nil_r (ofNumber (Z.of_nat n + 1)%Z)).
  now rewrite parseCell_label.
Qed.

(* ================================================================== *)
(** * Properties: the upsert engine *)
(* ================================================================== *)

Lemma In_set (m : NameIndex) (k : string) (v : nat) (e : string * nat) :
  In e (JsMap.set String.eqb m k v) -> In e m \/ e = (k, v).
Proof.
  induction m as [|[k0 v0] m IH]; simpl.
  - intros [<-|[]]. now right.
  - destruct (String.eqb k0 k) eqn:E; simpl.
    + apply String.eqb_eq in E. subst. intros [<-|H]; auto.
    + intros [<-|H]; auto. destruct (IH H); auto.
Qed.

Lemma findRowByName_In (nameToRow : NameIndex) (inputName : string) (r : nat) :
  findRowByName nameToRow inputName = Some r -> exists k, In (k, r) nameToRow.
Proof.
  unfold findRowByName.
  destruct (JsMap.get String.eqb nameToRow (normalizeName inputName)) as [x|] eqn:E.
  - intro H. injection H as ->. exists (normalizeName inputName).
    apply (@get_Some_In _ _ String.eqb_eq _ _ _ _ E).
  - destruct (_ =? 0); [discriminate|].
    destruct (sortBy _ _) as [|[k0 r0] rest] eqn:Es; [discriminate|].
    intro H. injection H as <-. exists k0.
    assert (Hin : In (k0, r0) (sortBy (closestLengthCmp (normalizeName inputName))
                     (filter (isPartialMatch (normalizeName inputName)) nameToRow)))
      by (rewrite Es; now left).
    apply sortBy_In, filter_In in Hin. tauto.
Qed.

Lemma upsertStep_shape (sheetName : string) (dateCol : nat)
      (st : UpsertState) (score : CulvertScoreRow) :
  rowsInRange st ->
  let st' := upsertStep sheetName dateCol st score in
  rowsInRange st'
  /\ List.length (st_values st) <= List.length (st_values st')
  /\ exists row,
      row < List.length (st_values st')
      /\ st_updates st' = st_updates st ++ [cellUpdate sheetName dateCol (row, culvert score)].
Proof.
  intro Hwf. unfold upsertStep.
  destruct (findRowByName (st_nameToRow st) (normalizeName (name score))) as [r|] eqn:E;
    cbn [st_values st_nameToRow st_updates].
  - split; [exact Hwf|]. split; [lia|].
    apply findRowByName_In in E as [k Hk]. exists r. split; [|reflexivity].
    exact (Hwf k r Hk).
  - split; [|split].
    + intros k r Hin. cbn [st_values st_nameToRow] in *.
      rewrite length_app. cbn [List.length].
      apply In_set in Hin as [Hin|Hin].
      * specialize (Hwf k r Hin). lia.
      * injection Hin as -> ->. lia.
    + rewrite length_app. lia.
    + exists (List.length (st_values st)). rewrite length_app. cbn [List.length].
      split; [lia | reflexivity].
Qed.

Lemma upsertLoop_shape (sheetName : string) (dateCol : nat)
      (scores : list CulvertScoreRow) :
  forall st,
    rowsInRange st ->
    let st' := upsertLoop sheetName dateCol st scores in
    rowsInRange st'
    /\ List.length (st_values st) <= List.length (st_values st')
    /\ exists cells : list (nat * string),
        Forall (fun rv => fst rv < List.length (st_values st')) cells
        /\ st_updates st' = st_updates st ++ map (cellUpdate sheetName dateCol) cells.
Proof.
  induction scores as [|s scores IH]; intros st Hwf; cbn [upsertLoop fold_left].
  - split; [exact Hwf|]. split; [lia|]. exists []. split; [constructor|].
    simpl. now rewrite app_nil_r.
  - destruct (upsertStep_shape sheetName dateCol s Hwf) as (Hwf1 & Hl1 & row & Hrow & Hu1).
    destruct (IH _ Hwf1) as (Hwf2 & Hl2 & cells & Hcells & Hu2).
    fold (upsertLoop sheetName dateCol (upsertStep sheetName dateCol st s) scores).
    split; [exact Hwf2|]. split; [cbv zeta in *; lia|].
    exists ((row, culvert s) :: cells). split.
    + constructor; [cbv zeta in *; simpl; lia | exact Hcells].
    + rewrite Hu2, Hu1, <- app_assoc. reflexivity.
Qed.

Lemma withHeader_shape (existing : Sheet) :
  exists header, withHeader existing = header :: skipn 1 existing
                 /\ header <> [].
Proof.
  unfold withHeader. destruct existing as [|h rest].
  - exists ["Name"]. split; [reflexivity | discriminate].
  - cbn [skipn]. destruct (String.eqb_spec (cellAt h 0) "") as [E|E].
    + exists (arraySet "" 0 "Name" h). split; [reflexivity|].
      destruct h; discriminate.
    + exists h. split; [reflexivity|]. intros ->. now apply E.
Qed.

Lemma indexRows_In (rows : Sheet) :
  forall (r : nat) (m : NameIndex) (k : string) (x : nat),
    In (k, x) (indexRows r rows m) ->
    In (k, x) m \/ (r <= x < r + List.length rows).
Proof.
  induction rows as [|row rows IH]; intros r m k x H; cbn [indexRows] in H.
  - now left.
  - apply IH in H as [H|H]; [|right; cbn [List.length]; lia].
    destruct (String.eqb _ ""); [now left|].
    apply In_set in H as [H|H]; [now left|]. injection H as _ ->.
    right. cbn [List.length]. lia.
Qed.

Lemma upsertInit_shape (existing : Sheet) (dateLabel : string) :
  exists header,
    snd (upsertInit existing dateLabel)
    = mkState (header :: skipn 1 existing) (buildIndex (header :: skipn 1 existing)) []
    /\ rowsInRange (snd (upsertInit existing dateLabel)).
Proof.
  unfold upsertInit. destruct (withHeader_shape existing) as (h & -> & _).
  destruct (resolveDateCol h dateLabel) as [dateCol h'] eqn:E.
  exists h'. split; [reflexivity|].
  intros k r Hin. cbn [snd st_nameToRow st_values] in *.
  unfold buildIndex in Hin.
  change (skipn 1 (h' :: skipn 1 existing)) with (skipn 1 existing) in Hin.
  apply indexRows_In in Hin as [[]|Hin]. cbn [List.length]. lia.
Qed.

(** The data handed to [batchUpdate]: a cell of the date column for each
    score, then the three writes that follow the loop. *)
Lemma upsert_updates_shape (sheetName : string) (existing : Sheet)
      (dateLabel : string) (scores : list CulvertScoreRow) :
  let run := upsertRun sheetName existing dateLabel scores in
  exists cells : list (nat * string),
    Forall (fun rv => fst rv < List.length (st_values (snd run))) cells
    /\ List.length existing <= List.length (st_values (snd run))
    /\ 1 <= List.length (st_values (snd run))
    /\ st_updates (snd run)
       = map (cellUpdate sheetName (fst run)) cells
         ++ finalUpdates sheetName dateLabel (fst run) (st_values (snd run)).
Proof.
  unfold upsertRun.
  destruct (upsertInit_shape existing dateLabel) as (h & Hst0 & Hwf).
  destruct (upsertInit existing dateLabel) as [dateCol st0]. cbn [snd] in *.
  destruct (upsertLoop_shape sheetName dateCol scores Hwf) as (_ & Hl & cells & Hc & Hu).
  cbn [fst snd st_values st_updates]. exists cells.
  rewrite Hu. rewrite Hst0 in *. cbn [st_updates st_values app] in *.
  set (st' := upsertLoop _ _ _ _) in *.
  assert (List.length existing <= S (List.length (skipn 1 existing)))
    by (rewrite length_skipn; lia).
  cbn [List.length] in Hl. repeat split; try assumption; lia.
Qed.

Lemma batchUpdate_columns (sheetName : string) (ws : list (nat * nat * list string))
      (us : list ValueRange) :
  Forall2 (ColumnWrite sheetName) ws us ->
  forall g, Store.batchUpdate sheetName g us = Some (fold_left applyColumn ws g).
Proof.
  induction 1 as [|w u ws us [Hr Hv] _ IH]; intro g; [reflexivity|].
  cbn [Store.batchUpdate fold_left]. unfold Store.applyUpdate.
  rewrite Hr, Hv. apply IH.
Qed.

Lemma applyColumns_frame (ws : list (nat * nat * list string)) (c : nat) :
  (forall w, In w ws -> fst (fst w) <> c) ->
  forall g r, Store.cell (fold_left applyColumn ws g) r c = Store.cell g r c.
Proof.
  induction ws as [|w ws IH]; intros Hc g r; [reflexivity|].
  cbn [fold_left]. rewrite IH by (intros w' Hw'; apply Hc; now right).
  unfold applyColumn. rewrite (proj1 (writeBlock_column _ _ _ _)).
  replace (c =? fst (fst w)) with false; [reflexivity|].
  symmetry. apply Nat.eqb_neq. intro E. apply (Hc w); [now left | now rewrite E].
Qed.

Lemma applyColumns_length (ws : list (nat * nat * list string)) (bound : nat) :
  (forall w, In w ws -> snd (fst w) + List.length (snd w) <= bound) ->
  forall g, List.length g <= bound ->
            List.length (fold_left applyColumn ws g) <= bound.
Proof.
  induction ws as [|w ws IH]; intros Hb g Hg; [exact Hg|].
  cbn [fold_left]. apply IH; [intros w' Hw'; apply Hb; now right|].
  unfold applyColumn. rewrite (proj2 (writeBlock_column _ _ _ _)).
  specialize (Hb w (or_introl eq_refl)). destruct (snd w); cbn [List.length] in *; lia.
Qed.

Lemma upsert_updates_columns (sheetName dateLabel : string) (dateCol : nat)
      (cells : list (nat * string)) (vals : Sheet) :
  Forall2 (ColumnWrite sheetName)
          (upsertColumns dateLabel dateCol cells vals)
          (map (cellUpdate sheetName dateCol) cells
           ++ finalUpdates sheetName dateLabel dateCol vals).
Proof.
  unfold upsertColumns. apply Forall2_app.
  - induction cells as [|rv cells IH]; simpl; constructor; [|exact IH].
    split; [apply parseRange_cell | reflexivity].
  - unfold finalUpdates. repeat constructor; cbn [range fst snd].
    + apply parseRange_A1.
    + apply parseRange_header.
    + rewrite length_map. apply parseRange_nameColumn.
    + cbn [values]. unfold nameColumn. now rewrite map_map.
Qed.

Lemma Forall2_In_right (A B : Type) (R : A -> B -> Prop) (la : list A) (lb : list B) :
  Forall2 R la lb -> forall b, In b lb -> exists a, In a la /\ R a b.
Proof.
  induction 1 as [|a b' la lb Hab _ IH]; intros b Hin; [destruct Hin|].
  destruct Hin as [<-|Hin].
  - exists a. split; [now left | exact Hab].
  - destruct (IH b Hin) as (a' & Ha' & Hr). exists a'. split; [now right | exact Hr].
Qed.

Lemma upsertRun_dateCol (sheetName : string) (existing : Sheet)
      (dateLabel : string) (scores : list CulvertScoreRow) :
  fst (upsertRun sheetName existing dateLabel scores)
  = resolvedDateCol existing dateLabel.
Proof.
  unfold upsertRun, upsertInit, resolvedDateCol.
  destruct (withHeader_shape existing) as (h & -> & _). cbn [nth].
  unfold resolveDateCol. destruct (findIndex _ h); reflexivity.
Qed.

(** C10.  Every write of an upsert is on the name column, its header cell
    [A1] or the names from [A2] down, or on the resolved date column, its
    header cell or the cell of a score; each write is one column wide, and
    a store that applies them keeps every cell of every other column. *)
Theorem upsert_writes_name_and_date_columns :
  forall (sheetName : string) (existing : Sheet) (dateLabel : string)
         (scores : list CulvertScoreRow),
    let dateCol := resolvedDateCol existing dateLabel in
    let updates := upsertCulvertScoresByName sheetName existing dateLabel scores in
    fst (upsertRun sheetName existing dateLabel scores) = dateCol
    /\ (forall u, In u updates ->
          (range u = (sheetName ++ "!A1")%string /\ values u = [["Name"]])
          \/ (exists names,
                 range u = (sheetName ++ "!A2:A"
                            ++ ofNumber (Z.of_nat (List.length names) + 1)%Z)%string
                 /\ values u = map (fun x => [x]) names)
          \/ (range u = (sheetName ++ "!" ++ columnLabel (Z.of_nat dateCol + 1)%Z
                         ++ "1")%string
              /\ values u = [[dateLabel]])
          \/ (exists row v,
                 range u = (sheetName ++ "!" ++ columnLabel (Z.of_nat dateCol + 1)%Z
                            ++ ofNumber (Z.of_nat row + 1)%Z)%string
                 /\ values u = [[v]]))
    /\ (forall u, In u updates ->
          exists col row xs,
            (col = 0 \/ col = dateCol)
            /\ Store.parseRange sheetName (range u) = Some (col, row)
            /\ values u = map (fun x => [x]) xs)
    /\ (forall g : Sheet,
          exists g',
            Store.batchUpdate sheetName g updates = Some g'
            /\ forall r c, c <> 0 -> c <> dateCol ->
                           Store.cell g' r c = Store.cell g r c).
Proof.
  intros sheetName existing dateLabel scores dateCol updates.
  pose proof (upsertRun_dateCol sheetName existing dateLabel scores) as Hcol.
  fold dateCol in Hcol. split; [exact Hcol|].
  unfold updates, upsertCulvertScoresByName.
  destruct (List.length scores =? 0).
  { split; [intros u []|]. split; [intros u []|].
    intro g. exists g. split; [reflexivity | reflexivity]. }
  destruct (upsert_updates_shape sheetName existing dateLabel scores)
    as (cells & _ & _ & _ & Hu).
  cbv zeta in Hu. rewrite Hu, Hcol.
  set (vals := st_values _).
  pose proof (upsert_updates_columns sheetName dateLabel dateCol cells vals) as Hcw.
  split; [|split].
  - intros u Hin. apply in_app_or in Hin as [Hin|Hin].
    + apply in_map_iff in Hin as ([row v] & <- & _).
      right. right. right. exists row, v. split; reflexivity.
    + unfold finalUpdates in Hin.
      destruct Hin as [<-|[<-|[<-|[]]]].
      * left. split; reflexivity.
      * right. right. left. split; reflexivity.
      * right. left. exists (nameColumn vals). cbn [range values].
        unfold nameColumn. rewrite !length_map, map_map. split; reflexivity.
  - intros u Hin.
    destruct (Forall2_In_right Hcw u Hin) as ([[col row] xs] & Hw & Hr & Hv).
    exists col, row, xs. split; [|split; assumption].
    unfold upsertColumns in Hw. apply in_app_or in Hw as [Hw|Hw].
    + apply in_map_iff in Hw as (rv & E & _). injection E as <- _ _. now right.
    + destruct Hw as [E|[E|[E|[]]]]; injection E as <- _ _; auto.
  - intro g. exists (fold_left applyColumn (upsertColumns dateLabel dateCol cells vals) g).
    split; [now apply batchUpdate_columns|].
    intros r c Hc0 Hcd. apply applyColumns_frame.
    intros w Hw. unfold upsertColumns in Hw. apply in_app_or in Hw as [Hw|Hw].
    + apply in_map_iff in Hw as (rv & <- & _). cbn [fst]. congruence.
    + destruct Hw as [<-|[<-|[<-|[]]]]; cbn [fst]; congruence.
Qed.

(** C3.  An upsert of the entry Alice, 100 for the label 3/1/24 into an
    empty sheet: the in-memory sheet gets the header [Name; 3/1/24], the
    date at column 1, and the new row [Alice]; the writes are 100 at the
    cell of that row in the date column (B2), then the header cell of the
    names, the header cell of the date column and the whole name column.
    A store that applies them holds the two rows. *)
Theorem upsert_into_empty_sheet :
  forall sheetName : string,
    upsertCulvertScoresByName sheetName [] "3/1/24" [mkScore "Alice" "100"]
    = [ mkUpdate (sheetName ++ "!B2") [["100"]];
        mkUpdate (sheetName ++ "!A1") [["Name"]];
        mkUpdate (sheetName ++ "!B1") [["3/1/24"]];
        mkUpdate (sheetName ++ "!A2:A2") [["Alice"]] ]
    /\ upsertValues sheetName [] "3/1/24" [mkScore "Alice" "100"]
       = [["Name"; "3/1/24"]; ["Alice"]]
    /\ fst (upsertRun sheetName [] "3/1/24" [mkScore "Alice" "100"]) = 1
    /\ columnLabel 2 = "B"
    /\ Store.batchUpdate sheetName []
         (upsertCulvertScoresByName sheetName [] "3/1/24" [mkScore "Alice" "100"])
       = Some [["Name"; "3/1/24"]; ["Alice"; "100"]].
Proof.
  intro sheetName. repeat split.
  change (upsertCulvertScoresByName sheetName [] "3/1/24" [mkScore "Alice" "100"])
    with (map (cellUpdate sheetName 1) [(1, "100")]
          ++ finalUpdates sheetName "3/1/24" 1 [["Name"; "3/1/24"]; ["Alice"]]).
  rewrite (batchUpdate_columns
             (upsert_updates_columns sheetName "3/1/24" 1 [(1, "100")]
                                     [["Name"; "3/1/24"]; ["Alice"]])).
  reflexivity.
Qed.

(* ================================================================== *)
(** * Properties: normalized names *)
(* ================================================================== *)

Lemma isSpace_lowerChar (c : ascii) : isSpace (lowerChar c) = isSpace c.
Proof.
  destruct c as [b0 b1 b2 b3 b4 b5 b6 b7];
    destruct b0, b1, b2, b3, b4, b5, b6, b7; vm_compute; reflexivity.
Qed.

Lemma lowerChar_idem (c : ascii) : lowerChar (lowerChar c) = lowerChar c.
Proof.
  destruct c as [b0 b1 b2 b3 b4 b5 b6 b7];
    destruct b0, b1, b2, b3, b4, b5, b6, b7; vm_compute; reflexivity.
Qed.

Lemma toLowerCase_idem (s : string) : toLowerCase (toLowerCase s) = toLowerCase s.
Proof.
  induction s as [|c s IH]; simpl; [reflexivity | now rewrite lowerChar_idem, IH].
Qed.

Lemma allSpace_toLowerCase (s : string) : allSpace (toLowerCase s) = allSpace s.
Proof.
  induction s as [|c s IH]; simpl; [reflexivity | now rewrite isSpace_lowerChar, IH].
Qed.

Lemma trimStart_toLowerCase (s : string) :
  trimStart (toLowerCase s) = toLowerCase (trimStart s).
Proof.
  induction s as [|c s IH]; simpl; [reflexivity|].
  rewrite isSpace_lowerChar. now destruct (isSpace c).
Qed.

Lemma trimEnd_toLowerCase (s : string) :
  trimEnd (toLowerCase s) = toLowerCase (trimEnd s).
Proof.
  induction s as [|c s IH]; [reflexivity|].
  cbn [toLowerCase trimEnd].
  change (allSpace (String (lowerChar c) (toLowerCase s)))
    with (allSpace (toLowerCase (String c s))).
  rewrite allSpace_toLowerCase.
  destruct (allSpace (String c s)); [reflexivity|].
  cbn [toLowerCase]. now rewrite IH.
Qed.

Lemma collapseFrom_toLowerCase (s : string) :
  forall b, collapseFrom b (toLowerCase s) = toLowerCase (collapseFrom b s).
Proof.
  induction s as [|c s IH]; intro b; [reflexivity|].
  cbn [toLowerCase collapseFrom]. rewrite isSpace_lowerChar.
  destruct (isSpace c); [destruct b|]; cbn [toLowerCase]; now rewrite IH.
Qed.

Lemma collapseFrom_idem (s : string) :
  forall b, collapseFrom b (collapseFrom b s) = collapseFrom b s.
Proof.
  induction s as [|c s IH]; intro b; [reflexivity|].
  cbn [collapseFrom]. destruct (isSpace c) eqn:Hc.
  - destruct b; [apply IH|].
    cbn [collapseFrom]. change (isSpace " ") with true. cbv iota. now rewrite IH.
  - cbn [collapseFrom]. rewrite Hc. now rewrite IH.
Qed.

Lemma trimEnd_empty_allSpace (s : string) : trimEnd s = "" -> allSpace s = true.
Proof.
  destruct s as [|c s]; [reflexivity|]. cbn [trimEnd].
  destruct (allSpace (String c s)); [reflexivity | discriminate].
Qed.

Lemma endsNoSpace_trimEnd (s : string) : endsNoSpace (trimEnd s) = true.
Proof.
  induction s as [|c s IH]; [reflexivity|].
  cbn [trimEnd]. destruct (allSpace (String c s)) eqn:Ha; [reflexivity|].
  cbn [endsNoSpace]. destruct (trimEnd s) eqn:Et; [|exact IH].
  apply trimEnd_empty_allSpace in Et. cbn [allSpace] in Ha. rewrite Et in Ha.
  rewrite andb_true_r in Ha. now rewrite Ha.
Qed.

Lemma startsNoSpace_trimStart (s : string) : startsNoSpace (trimStart s).
Proof.
  induction s as [|c s IH]; simpl; [exact I|].
  destruct (isSpace c) eqn:Hc; [exact IH | exact Hc].
Qed.

Lemma startsNoSpace_trimEnd (s : string) : startsNoSpace s -> startsNoSpace (trimEnd s).
Proof.
  destruct s as [|c s]; [trivial|]. cbn [startsNoSpace trimEnd allSpace].
  intro Hc. rewrite Hc. exact Hc.
Qed.

Lemma collapseFrom_true_empty (s : string) :
  collapseFrom true s = "" -> allSpace s = true.
Proof.
  induction s as [|c s IH]; [reflexivity|]. cbn [collapseFrom allSpace].
  destruct (isSpace c); [exact IH | discriminate].
Qed.

Lemma endsNoSpace_collapseFrom (s : string) :
  forall b, endsNoSpace s = true -> endsNoSpace (collapseFrom b s) = true.
Proof.
  induction s as [|c s IH]; intros b He; [reflexivity|].
  assert (Hs : s <> "" -> endsNoSpace s = true) by (destruct s; [congruence | trivial]).
  cbn [collapseFrom]. destruct (isSpace c) eqn:Hc.
  - destruct s as [|c' s'].
    + simpl in He. rewrite Hc in He. discriminate.
    + specialize (Hs ltac:(discriminate)).
      destruct b; [now apply IH|].
      cbn [endsNoSpace]. destruct (collapseFrom true (String c' s')) eqn:Ec.
      * apply collapseFrom_true_empty in Ec.
        pose proof (endsNoSpace_allSpace _ Hs Ec). discriminate.
      * rewrite <- Ec. now apply IH.
  - cbn [endsNoSpace]. destruct (collapseFrom false s) eqn:Ec.
    + now rewrite Hc.
    + rewrite <- Ec. destruct s as [|c' s']; [discriminate|].
      apply IH. exact (Hs ltac:(discriminate)).
Qed.

Lemma startsNoSpace_collapse (s : string) :
  startsNoSpace s -> startsNoSpace (collapseSpaces s).
Proof.
  destruct s as [|c s]; [trivial|].
  unfold collapseSpaces. cbn [startsNoSpace collapseFrom].
  intro Hc. rewrite Hc. exact Hc.
Qed.

Lemma trim_id (s : string) : startsNoSpace s -> endsNoSpace s = true -> trim s = s.
Proof.
  intros H1 H2. unfold trim. rewrite trimStart_id by exact H1. now apply trimEnd_id.
Qed.

(** Normalizing a normalized name changes nothing. *)
Lemma normalizeName_idem (raw : string) :
  normalizeName (normalizeName raw) = normalizeName raw.
Proof.
  unfold normalizeName, collapseSpaces, trim.
  rewrite trimStart_toLowerCase, trimEnd_toLowerCase, collapseFrom_toLowerCase.
  rewrite toLowerCase_idem. f_equal.
  fold (trim raw). fold (collapseSpaces (trim raw)).
  fold (trim (collapseSpaces (trim raw))).
  rewrite trim_id.
  - apply collapseFrom_idem.
  - apply startsNoSpace_collapse. unfold trim.
    apply startsNoSpace_trimEnd, startsNoSpace_trimStart.
  - apply endsNoSpace_collapseFrom. apply endsNoSpace_trimEnd.
Qed.

(* ================================================================== *)
(** * Properties: one row per normalized name *)
(* ================================================================== *)

Lemma findRowByName_None_get (nameToRow : NameIndex) (inputName : string) :
  findRowByName nameToRow inputName = None ->
  JsMap.get String.eqb nameToRow (normalizeName inputName) = None.
Proof.
  unfold findRowByName.
  destruct (JsMap.get String.eqb nameToRow (normalizeName inputName));
    [discriminate | reflexivity].
Qed.


Lemma nameColumn_snoc (g : Sheet) (row : list string) :
  g <> [] -> nameColumn (g ++ [row]) = nameColumn g ++ [cellAt row 0].
Proof.
  destruct g as [|h g]; [contradiction|]. intros _.
  unfold nameColumn. cbn [app skipn]. now rewrite map_app.
Qed.

Lemma upsertStep_found (sheetName : string) (dateCol : nat) (st : UpsertState)
      (score : CulvertScoreRow) (r : nat) :
  findRowByName (st_nameToRow st) (normalizeName (name score)) = Some r ->
  st_values (upsertStep sheetName dateCol st score) = st_values st
  /\ st_nameToRow (upsertStep sheetName dateCol st score) = st_nameToRow st.
Proof. unfold upsertStep. intros ->. split; reflexivity. Qed.

Lemma upsertStep_appended (sheetName : string) (dateCol : nat) (st : UpsertState)
      (score : CulvertScoreRow) :
  findRowByName (st_nameToRow st) (normalizeName (name score)) = None ->
  st_values (upsertStep sheetName dateCol st score) = st_values st ++ [[name score]]
  /\ st_nameToRow (upsertStep sheetName dateCol st score)
     = JsMap.set String.eqb (st_nameToRow st) (normalizeName (name score))
                 (List.length (st_values st))
  /\ JsMap.get String.eqb (st_nameToRow st) (normalizeName (name score)) = None.
Proof.
  unfold upsertStep. intro E. rewrite E. repeat split.
  apply findRowByName_None_get in E. now rewrite normalizeName_idem in E.
Qed.

Lemma upsertStep_keeps_NamesIndexed (sheetName : string) (dateCol : nat)
      (st : UpsertState) (score : CulvertScoreRow) :
  normalizeName (name score) <> "" ->
  NamesIndexed st -> NamesIndexed (upsertStep sheetName dateCol st score).
Proof.
  intros Hne (Hnd & Hkeys & Hv). unfold NamesIndexed.
  destruct (findRowByName (st_nameToRow st) (normalizeName (name score))) as [r|] eqn:E.
  - destruct (upsertStep_found sheetName dateCol st score E) as [-> ->].
    now repeat split.
  - destruct (upsertStep_appended sheetName dateCol st score E) as (-> & -> & Hget).
    assert (Hnames : normalizedNames (st_values st ++ [[name score]])
                     = normalizedNames (st_values st) ++ [normalizeName (name score)]).
    { unfold normalizedNames. rewrite nameColumn_snoc by exact Hv.
      now rewrite map_app. }
    rewrite Hnames. repeat split.
    + apply NoDup_app; [exact Hnd | repeat constructor; intros [] |].
      intros k Hk [<-|[]].
      apply (proj1 (@get_None_keys _ _ String.eqb_eq _ _ _) Hget).
      now apply Hkeys.
    + intros k Hk Hk0. apply (@keys_set _ _ String.eqb_eq).
      apply in_app_or in Hk as [Hk|[<-|[]]]; [right; now apply Hkeys | now left].
    + destruct (st_values st); discriminate.
Qed.

Lemma upsertLoop_keeps_NamesIndexed (sheetName : string) (dateCol : nat)
      (scores : list CulvertScoreRow) :
  Forall (fun s => normalizeName (name s) <> "") scores ->
  forall st, NamesIndexed st -> NamesIndexed (upsertLoop sheetName dateCol st scores).
Proof.
  induction 1 as [|s scores Hs _ IH]; intros st Hst; [exact Hst|].
  cbn [upsertLoop fold_left]. apply IH. now apply upsertStep_keeps_NamesIndexed.
Qed.

Lemma indexRows_keys (rows : Sheet) :
  forall (r : nat) (m : NameIndex),
    (forall k, In k (JsMap.keys m) -> In k (JsMap.keys (indexRows r rows m)))
    /\ (forall row, In row rows -> normalizeName (cellAt row 0) <> "" ->
                    In (normalizeName (cellAt row 0)) (JsMap.keys (indexRows r rows m))).
Proof.
  induction rows as [|row rows IH]; intros r m; cbn [indexRows].
  - split; [trivial | intros row []].
  - destruct (String.eqb_spec (normalizeName (cellAt row 0)) "") as [E|E].
    + destruct (IH (S r) m) as [IH1 IH2]. split; [exact IH1|].
      intros row' [<-|Hin] Hne; [contradiction | now apply IH2].
    + destruct (IH (S r) (JsMap.set String.eqb m (normalizeName (cellAt row 0)) r))
        as [IH1 IH2].
      split.
      * intros k Hk. apply IH1. apply (@keys_set _ _ String.eqb_eq). now right.
      * intros row' [<-|Hin] Hne; [|now apply IH2].
        apply IH1. apply (@keys_set _ _ String.eqb_eq). now left.
Qed.

Lemma upsertInit_NamesIndexed (existing : Sheet) (dateLabel : string) :
  NoDup (normalizedNames existing) ->
  NamesIndexed (snd (upsertInit existing dateLabel)).
Proof.
  intro Hnd. destruct (upsertInit_shape existing dateLabel) as (h & -> & _).
  unfold NamesIndexed, normalizedNames, nameColumn, buildIndex.
  cbn [st_values st_nameToRow].
  change (skipn 1 (h :: skipn 1 existing)) with (skipn 1 existing).
  split; [exact Hnd|]. split; [|discriminate].
  intros k Hk Hne. apply in_map_iff in Hk as (nm & <- & Hnm).
  apply in_map_iff in Hnm as (row & <- & Hrow).
  now apply (proj2 (indexRows_keys (skipn 1 existing) 1 [])).
Qed.

Lemma upsertValues_NoDup (sheetName : string) (existing : Sheet)
      (dateLabel : string) (scores : list CulvertScoreRow) :
  NoDup (normalizedNames existing) ->
  Forall (fun s => normalizeName (name s) <> "") scores ->
  NoDup (normalizedNames (upsertValues sheetName existing dateLabel scores)).
Proof.
  intros Hnd Hs. unfold upsertValues, upsertRun.
  pose proof (@upsertInit_NamesIndexed existing dateLabel Hnd) as Hinit.
  destruct (upsertInit existing dateLabel) as [dateCol st0]. cbn [snd] in *.
  exact (proj1 (@upsertLoop_keeps_NamesIndexed sheetName dateCol scores Hs st0 Hinit)).
Qed.


Lemma nth_nameColumn (g : Sheet) (i : nat) :
  nth i (nameColumn g) "" = Store.cell g (S i) 0.
Proof.
  unfold nameColumn, Store.cell. destruct g as [|h g]; [now destruct i|].
  cbn [skipn nth]. revert i.
  induction g as [|row g IH]; intros [|i]; cbn [map nth]; try reflexivity.
  apply IH.
Qed.

(** After the writes the store has the name column of the in-memory sheet. *)
Lemma store_nameColumn (dateLabel : string) (dateCol : nat)
      (cells : list (nat * string)) (vals g : Sheet) :
  Forall (fun rv => fst rv < List.length vals) cells ->
  List.length g <= List.length vals -> 1 <= List.length vals ->
  nameColumn (fold_left applyColumn (upsertColumns dateLabel dateCol cells vals) g)
  = nameColumn vals.
Proof.
  intros Hcells Hg Hv. unfold upsertColumns.
  change [(0, 0, ["Name"]); (dateCol, 0, [dateLabel]); (0, 1, nameColumn vals)]
    with ([(0, 0, ["Name"]); (dateCol, 0, [dateLabel])] ++ [(0, 1, nameColumn vals)]).
  rewrite app_assoc, fold_left_app. cbn [fold_left].
  set (g2 := fold_left applyColumn _ g).
  assert (Hg2 : List.length g2 <= List.length vals).
  { unfold g2. apply applyColumns_length; [|exact Hg].
    intros w Hw. apply in_app_or in Hw as [Hw|Hw].
    - apply in_map_iff in Hw as (rv & <- & Hrv). cbn [fst snd List.length].
      rewrite Forall_forall in Hcells. specialize (Hcells rv Hrv). lia.
    - destruct Hw as [<-|[<-|[]]]; cbn [fst snd List.length]; lia. }
  unfold applyColumn. cbn [fst snd].
  destruct (writeBlock_column (nameColumn vals) g2 1 0) as [Hcell Hlen].
  set (g3 := Store.writeBlock g2 1 0 _) in *.
  assert (Hn : List.length (nameColumn vals) = List.length vals - 1)
    by (unfold nameColumn; now rewrite length_map, length_skipn).
  assert (Hl3 : List.length g3 - 1 = List.length (nameColumn vals)).
  { rewrite Hlen. destruct (nameColumn vals) eqn:E; cbn [List.length] in *; lia. }
  apply nth_ext with (d := "") (d' := "").
  - unfold nameColumn at 1. now rewrite length_map, length_skipn.
  - intros i _. rewrite nth_nameColumn.
    rewrite Hcell. cbn [Nat.eqb andb Nat.leb].
    replace (S i - 1) with i by lia.
    destruct (Nat.ltb_spec (S i) (1 + List.length (nameColumn vals))); [reflexivity|].
    rewrite nth_overflow by lia.
    unfold Store.cell. fold g3.
    replace (nth (S i) g2 []) with (@nil string); [reflexivity|].
    symmetry. apply nth_overflow. lia.
Qed.




(* ================================================================== *)
(** * More properties: normalized names *)
(* ================================================================== *)

Lemma trim_idem (s : string) : trim (trim s) = trim s.
Proof.
  apply trim_id.
  - unfold trim. apply startsNoSpace_trimEnd, startsNoSpace_trimStart.
  - apply endsNoSpace_trimEnd.
Qed.

Lemma trimStart_allSpace (s : string) : allSpace s = true -> trimStart s = "".
Proof.
  induction s as [|c s IH]; [reflexivity|]. cbn [allSpace trimStart].
  intro H. apply andb_prop in H as [Hc Hs]. rewrite Hc. now apply IH.
Qed.

Lemma trimStart_empty (s : string) : trimStart s = "" -> allSpace s = true.
Proof.
  induction s as [|c s IH]; [reflexivity|]. cbn [allSpace trimStart].
  destruct (isSpace c); [exact IH | discriminate].
Qed.

Lemma trimEnd_allSpace (s : string) : allSpace s = true -> trimEnd s = "".
Proof. destruct s as [|c s]; [reflexivity|]. cbn [trimEnd]. now intros ->. Qed.

Lemma trim_empty_iff (s : string) : trim s = "" <-> allSpace s = true.
Proof.
  unfold trim. split.
  - intro H. apply trimEnd_empty_allSpace in H.
    pose proof (startsNoSpace_trimStart s) as Hs.
    destruct (trimStart s) as [|c t] eqn:E; [now apply trimStart_empty|].
    simpl in Hs, H. rewrite Hs in H. discriminate.
  - intro H. now rewrite trimStart_allSpace.
Qed.

Lemma toLowerCase_empty (s : string) : toLowerCase s = "" <-> s = "".
Proof. destruct s; simpl; split; congruence. Qed.

Lemma collapseSpaces_empty (s : string) : collapseSpaces s = "" <-> s = "".
Proof.
  unfold collapseSpaces. destruct s as [|c s]; [tauto|]. cbn [collapseFrom].
  destruct (isSpace c); split; discriminate.
Qed.

Lemma normalizeName_blank (s : string) :
  normalizeName s = "" <-> allSpace s = true.
Proof.
  unfold normalizeName.
  now rewrite toLowerCase_empty, collapseSpaces_empty, trim_empty_iff.
Qed.

(** X1.  The normalized name is a canonical key: normalizing twice changes
    nothing, names that differ in the case of their letters or in white
    space around them have the same key, and the key is empty exactly for a
    name of white space only. *)
Theorem normalizeName_canonical_key :
  forall s : string,
    normalizeName (normalizeName s) = normalizeName s
    /\ normalizeName (toLowerCase s) = normalizeName s
    /\ normalizeName (trim s) = normalizeName s
    /\ (normalizeName s = "" <-> allSpace s = true).
Proof.
  intro s. split; [apply normalizeName_idem|]. split; [|split].
  - unfold normalizeName, collapseSpaces, trim.
    rewrite trimStart_toLowerCase, trimEnd_toLowerCase, collapseFrom_toLowerCase.
    now rewrite toLowerCase_idem.
  - unfold normalizeName. now rewrite trim_idem.
  - apply normalizeName_blank.
Qed.

(* ================================================================== *)
(** * More properties: the fuzzy matcher *)
(* ================================================================== *)

Section StableHead.

Variable A : Type.
Variable cmp : A -> A -> Z.
Variable key : A -> Z.
Hypothesis cmp_key : forall a b, cmp a b = (key a - key b)%Z.

(** The sort is stable: its first element is the first of the elements of
    least key. *)
Lemma sortBy_head_first_least (l : list A) (first : A) (rest : list A) :
  sortBy cmp l = first :: rest ->
  exists pre post,
    l = pre ++ first :: post
    /\ (forall y, In y pre -> (key first < key y)%Z)
    /\ (forall y, In y post -> (key first <= key y)%Z).
Proof.
  revert first rest. induction l as [|x l IH]; intros first rest E; [discriminate|].
  cbn [sortBy] in E. destruct (sortBy cmp l) as [|f' r'] eqn:Es.
  - cbn [insertSorted] in E. injection E as <- <-.
    assert (l = []) as ->.
    { apply (f_equal (@List.length _)) in Es. rewrite sortBy_length in Es.
      now destruct l. }
    exists [], []. repeat split; intros y [].
  - destruct (IH f' r' eq_refl) as (pre & post & -> & Hpre & Hpost).
    cbn [insertSorted] in E. destruct (cmp x f' <=? 0)%Z eqn:Ec.
    + injection E as <- _. apply Z.leb_le in Ec. rewrite cmp_key in Ec.
      exists [], (pre ++ f' :: post). split; [reflexivity|]. split; [intros y []|].
      intros y Hy. apply in_app_or in Hy as [Hy|[<-|Hy]].
      * specialize (Hpre y Hy). lia.
      * lia.
      * specialize (Hpost y Hy). lia.
    + injection E as <- _. apply Z.leb_gt in Ec. rewrite cmp_key in Ec.
      exists (x :: pre), post. split; [reflexivity|]. split; [|exact Hpost].
      intros y [<-|Hy]; [lia | now apply Hpre].
Qed.

End StableHead.

(** X2.  Ties of the closest length go to the entry that was put in the
    index first: when the normalized input has no exact entry, the row that
    [findRowByName] returns is the row of a candidate that is strictly
    closer in length than every candidate before it in the index and at
    least as close as every candidate after it. *)
Theorem findRowByName_first_closest
        (nameToRow : NameIndex) (inputName : string) (r : nat) :
  JsMap.get String.eqb nameToRow (normalizeName inputName) = None ->
  findRowByName nameToRow inputName = Some r ->
  exists k pre post,
    candidatesOf nameToRow (normalizeName inputName) = pre ++ (k, r) :: post
    /\ (forall e, In e pre ->
          (lengthDistance (normalizeName inputName) k
           < lengthDistance (normalizeName inputName) (fst e))%Z)
    /\ (forall e, In e post ->
          (lengthDistance (normalizeName inputName) k
           <= lengthDistance (normalizeName inputName) (fst e))%Z).
Proof.
  intros Hget. unfold findRowByName, candidatesOf. rewrite Hget.
  destruct (_ =? 0); [discriminate|].
  destruct (sortBy _ _) as [|[k0 r0] rest] eqn:Es; [discriminate|].
  intro H. injection H as <-.
  destruct (@sortBy_head_first_least _ (closestLengthCmp (normalizeName inputName))
              (fun e => lengthDistance (normalizeName inputName) (fst e))
              (fun a b => eq_refl) _ _ _ Es) as (pre & post & E & Hpre & Hpost).
  exists k0, pre, post. split; [exact E|]. split; assumption.
Qed.

Lemma findRowByName_first_closest_witness :
  exists k pre post,
    candidatesOf [("ann", 4); ("jon smith", 2); ("jonny boy", 3)]
                 (normalizeName "Jon")
    = pre ++ (k, 2) :: post
    /\ (forall e, In e pre ->
          (lengthDistance (normalizeName "Jon") k
           < lengthDistance (normalizeName "Jon") (fst e))%Z)
    /\ (forall e, In e post ->
          (lengthDistance (normalizeName "Jon") k
           <= lengthDistance (normalizeName "Jon") (fst e))%Z).
Proof.
  apply (@findRowByName_first_closest
           [("ann", 4); ("jon smith", 2); ("jonny boy", 3)] "Jon" 2);
    vm_compute; reflexivity.
Defined.

Lemma includes_empty (s : string) : includes s "" = true.
Proof. destruct s; reflexivity. Qed.

Lemma includes_refl (s : string) : includes s s = true.
Proof.
  apply includes_spec. exists "", "". simpl. now rewrite string_app_nil_r.
Qed.

(** [findRowByName] finds a row exactly when some key of the index contains
    the normalized input or is contained in it. *)
Lemma findRowByName_resolves_iff (nameToRow : NameIndex) (inputName : string) :
  findRowByName nameToRow inputName <> None
  <-> exists k, In k (JsMap.keys nameToRow)
                /\ isPartialMatch (normalizeName inputName) (k, 0) = true.
Proof.
  unfold findRowByName.
  destruct (JsMap.get String.eqb nameToRow (normalizeName inputName)) as [x|] eqn:E.
  - split; [intros _|discriminate].
    exists (normalizeName inputName). split.
    + apply (@get_Some_In _ _ String.eqb_eq) in E.
      unfold JsMap.keys. apply in_map_iff. now exists (normalizeName inputName, x).
    + unfold isPartialMatch. cbn [fst]. now rewrite includes_refl.
  - set (pm := filter _ nameToRow).
    destruct (List.length pm =? 0) eqn:El.
    + apply Nat.eqb_eq in El. split; [congruence|].
      intros (k & Hk & Hm). exfalso.
      unfold JsMap.keys in Hk. apply in_map_iff in Hk as ([k' v] & <- & Hin).
      assert (In (k', v) pm) by (apply filter_In; split; [exact Hin | exact Hm]).
      destruct pm; [contradiction | discriminate].
    + apply Nat.eqb_neq in El.
      destruct (sortBy _ pm) as [|[k0 r0] rest] eqn:Es.
      { apply (f_equal (@List.length _)) in Es. rewrite sortBy_length in Es.
        simpl in Es. contradiction. }
      split; [intros _|discriminate].
      assert (Hin : In (k0, r0) pm) by (apply (sortBy_In (closestLengthCmp (normalizeName inputName))); rewrite Es; now left).
      apply filter_In in Hin as [Hin Hm]. exists k0. split; [|exact Hm].
      unfold JsMap.keys. apply in_map_iff. now exists (k0, r0).
Qed.

(** X3.  [findRowByName] only returns rows of the index, and none for an
    empty index; but an input that is blank once normalized is contained in
    every name, so it finds a row in every index that is not empty. *)
Theorem findRowByName_rows_of_index :
  (forall (nameToRow : NameIndex) (inputName : string) (r : nat),
      findRowByName nameToRow inputName = Some r -> exists k, In (k, r) nameToRow)
  /\ (forall inputName, findRowByName [] inputName = None)
  /\ (forall (nameToRow : NameIndex) (inputName : string),
         nameToRow <> [] -> allSpace inputName = true ->
         exists r, findRowByName nameToRow inputName = Some r).
Proof.
  split; [exact findRowByName_In|]. split; [reflexivity|].
  intros nameToRow inputName Hne Hblank.
  destruct (findRowByName nameToRow inputName) as [r|] eqn:E; [now exists r|].
  exfalso. revert E. apply findRowByName_resolves_iff.
  destruct nameToRow as [|[k v] m]; [contradiction|].
  exists k. split; [now left|].
  apply normalizeName_blank in Hblank. rewrite Hblank.
  unfold isPartialMatch. cbn [fst]. now rewrite includes_empty.
Qed.

(* ================================================================== *)
(** * More properties: the upsert engine *)
(* ================================================================== *)

Lemma upsertStep_target (sheetName : string) (dateCol : nat) (st : UpsertState)
      (s : CulvertScoreRow) :
  st_updates (upsertStep sheetName dateCol st s)
  = st_updates st ++ [cellUpdate sheetName dateCol (targetRow st s, culvert s)].
Proof.
  unfold upsertStep, targetRow.
  destruct (findRowByName (st_nameToRow st) (normalizeName (name s))); reflexivity.
Qed.

Lemma upsertLoop_trace (sheetName : string) (dateCol : nat)
      (scores : list CulvertScoreRow) :
  forall st,
    st_values (upsertLoop sheetName dateCol st scores)
    = st_values st ++ map (fun n => [n]) (appendedNames sheetName dateCol st scores)
    /\ st_updates (upsertLoop sheetName dateCol st scores)
       = st_updates st
         ++ map (cellUpdate sheetName dateCol) (upsertTargets sheetName dateCol st scores).
Proof.
  induction scores as [|s scores IH]; intro st.
  - simpl. now rewrite !app_nil_r.
  - cbn [upsertLoop fold_left upsertTargets appendedNames map].
    fold (upsertLoop sheetName dateCol (upsertStep sheetName dateCol st s) scores).
    destruct (IH (upsertStep sheetName dateCol st s)) as [IHv IHu].
    rewrite IHv, IHu, upsertStep_target. split; [|now rewrite <- app_assoc].
    destruct (findRowByName (st_nameToRow st) (normalizeName (name s))) as [r|] eqn:E.
    + now rewrite (proj1 (upsertStep_found sheetName dateCol st s E)).
    + rewrite (proj1 (upsertStep_appended sheetName dateCol st s E)).
      now rewrite map_app, <- app_assoc.
Qed.

Lemma upsertTargets_length (sheetName : string) (dateCol : nat)
      (scores : list CulvertScoreRow) :
  forall st, List.length (upsertTargets sheetName dateCol st scores) = List.length scores.
Proof. induction scores as [|s scores IH]; intro st; simpl; [reflexivity | now rewrite IH]. Qed.

Lemma appendedNames_from_scores (sheetName : string) (dateCol : nat)
      (scores : list CulvertScoreRow) :
  forall st,
    List.length (appendedNames sheetName dateCol st scores) <= List.length scores
    /\ forall n, In n (appendedNames sheetName dateCol st scores) ->
                 exists s, In s scores /\ name s = n.
Proof.
  induction scores as [|s scores IH]; intro st; cbn [appendedNames].
  - split; [simpl; lia | intros n []].
  - destruct (IH (upsertStep sheetName dateCol st s)) as [IHl IHn].
    rewrite length_app. split.
    + destruct (findRowByName _ _); cbn [List.length]; lia.
    + intros n Hn. apply in_app_or in Hn as [Hn|Hn].
      * destruct (findRowByName _ _); [destruct Hn|].
        destruct Hn as [<-|[]]. exists s. split; [now left | reflexivity].
      * destruct (IHn n Hn) as (s' & Hs' & E). exists s'. split; [now right | exact E].
Qed.





Lemma upsertRun_unfold (sheetName : string) (existing : Sheet) (dateLabel : string)
      (scores : list CulvertScoreRow) :
  exists header,
    snd (upsertInit existing dateLabel)
    = mkState (header :: skipn 1 existing) (buildIndex (header :: skipn 1 existing)) []
    /\ upsertValues sheetName existing dateLabel scores
       = (header :: skipn 1 existing)
         ++ map (fun n => [n])
                (appendedNames sheetName (resolvedDateCol existing dateLabel)
                               (snd (upsertInit existing dateLabel)) scores)
    /\ st_updates (snd (upsertRun sheetName existing dateLabel scores))
       = map (cellUpdate sheetName (resolvedDateCol existing dateLabel))
             (upsertTargets sheetName (resolvedDateCol existing dateLabel)
                            (snd (upsertInit existing dateLabel)) scores)
         ++ finalUpdates sheetName dateLabel (resolvedDateCol existing dateLabel)
                         (upsertValues sheetName existing dateLabel scores).
Proof.
  pose proof (upsertRun_dateCol sheetName existing dateLabel scores) as Hcol.
  destruct (upsertInit_shape existing dateLabel) as (h & Hst0 & _).
  exists h. split; [exact Hst0|].
  unfold upsertValues. unfold upsertRun in *.
  destruct (upsertInit existing dateLabel) as [dateCol st0]. cbn [fst snd] in *.
  subst dateCol. cbn [st_values st_updates].
  destruct (upsertLoop_trace sheetName (resolvedDateCol existing dateLabel) scores st0)
    as [Hv Hu].
  rewrite Hu, Hv. rewrite Hst0. cbn [st_values st_updates app]. split; reflexivity.
Qed.

(** X4.  An upsert keeps the data rows it read in their places and only
    appends rows: the in-memory sheet at the end is a header row, the data
    rows of the snapshot, then one row per appended name; the appended names
    are names of entries, at most one per entry.  A batch that is not empty
    gives one write per entry and the three closing writes. *)
Theorem upsert_rows_kept_in_place :
  forall (sheetName : string) (existing : Sheet) (dateLabel : string)
         (scores : list CulvertScoreRow),
  exists (header : list string) (appended : list string),
    upsertValues sheetName existing dateLabel scores
    = (header :: skipn 1 existing) ++ map (fun n => [n]) appended
    /\ nameColumn (upsertValues sheetName existing dateLabel scores)
       = nameColumn existing ++ appended
    /\ List.length appended <= List.length scores
    /\ (forall n, In n appended -> exists s, In s scores /\ name s = n)
    /\ List.length (upsertCulvertScoresByName sheetName existing dateLabel scores)
       = match scores with
         | [] => 0
         | _ => List.length scores + 3
         end.
Proof.
  intros sheetName existing dateLabel scores.
  destruct (upsertRun_unfold sheetName existing dateLabel scores) as (h & _ & Hv & Hu).
  set (appended := appendedNames _ _ _ scores) in Hv.
  exists h, appended. split; [exact Hv|]. split; [|split; [|split]].
  - rewrite Hv. unfold nameColumn. cbn [app skipn].
    rewrite map_app, map_map. cbn [cellAt nth]. now rewrite map_id.
  - apply appendedNames_from_scores.
  - apply appendedNames_from_scores.
  - unfold upsertCulvertScoresByName. destruct scores as [|s scores]; [reflexivity|].
    cbn [List.length Nat.eqb]. rewrite Hu.
    rewrite length_app, length_map, upsertTargets_length. reflexivity.
Qed.

Lemma findIndex_Some (A : Type) (p : A -> bool) (d : A) (l : list A) :
  forall i, findIndex p l = Some i ->
            i < List.length l /\ p (nth i l d) = true
            /\ forall j, j < i -> p (nth j l d) = false.
Proof.
  induction l as [|x l IH]; intros i H; cbn [findIndex] in H; [discriminate|].
  destruct (p x) eqn:Hx.
  - injection H as <-. cbn [List.length nth]. repeat split; [lia | exact Hx | lia].
  - destruct (findIndex p l) as [i'|]; [|discriminate]. injection H as <-.
    destruct (IH i' eq_refl) as (H1 & H2 & H3). cbn [List.length nth].
    repeat split; [lia | exact H2 |].
    intros [|j] Hj; [exact Hx | apply H3; lia].
Qed.

Lemma findIndex_None (A : Type) (p : A -> bool) (l : list A) :
  findIndex p l = None -> forall x, In x l -> p x = false.
Proof.
  induction l as [|y l IH]; intros H x Hx; [destruct Hx|].
  cbn [findIndex] in H. destruct (p y) eqn:Hy; [discriminate|].
  destruct (findIndex p l); [discriminate|].
  destruct Hx as [<-|Hx]; [exact Hy | now apply IH].
Qed.

Lemma arraySet_at_length (A : Type) (d x : A) (l : list A) :
  arraySet d (List.length l) x l = l ++ [x].
Proof. induction l as [|h t IH]; simpl; [reflexivity | now rewrite IH]. Qed.

Lemma upsertValues_header (sheetName : string) (existing : Sheet) (dateLabel : string)
      (scores : list CulvertScoreRow) :
  nth 0 (upsertValues sheetName existing dateLabel scores) []
  = snd (resolveDateCol (nth 0 (withHeader existing) []) dateLabel).
Proof.
  destruct (upsertRun_unfold sheetName existing dateLabel scores) as (h & Hst0 & Hv & _).
  rewrite Hv. cbn [app nth].
  unfold upsertInit in Hst0. destruct (withHeader_shape existing) as (h0 & E & _).
  rewrite E in *. cbn [nth].
  destruct (resolveDateCol h0 dateLabel) as [dc h'] eqn:Er.
  cbn [snd] in *. now injection Hst0 as <-.
Qed.

(** X5.  The header row of an upsert: the first cell of the header read is
    kept, or is [Name] when it was blank, and the other cells are kept; the
    date column is the first column whose header is the date label, and the
    header is then unchanged; when no column has the label the date column
    is the first column after the header and the label is appended there.
    No header cell other than that of the date column changes. *)
Theorem upsert_header_labels_stable :
  forall (sheetName : string) (existing : Sheet) (dateLabel : string)
         (scores : list CulvertScoreRow),
    let header0 := nth 0 (withHeader existing) [] in
    let header := nth 0 (upsertValues sheetName existing dateLabel scores) [] in
    let dateCol := resolvedDateCol existing dateLabel in
    cellAt header0 0
    = (if String.eqb (cellAt (nth 0 existing []) 0) "" then "Name"
       else cellAt (nth 0 existing []) 0)
    /\ (forall i, 1 <= i -> cellAt header0 i = cellAt (nth 0 existing []) i)
    /\ (forall i, i <> dateCol -> cellAt header i = cellAt header0 i)
    /\ cellAt header dateCol = dateLabel
    /\ (forall j, j < dateCol -> cellAt header0 j <> dateLabel)
    /\ dateCol <= List.length header0
    /\ (dateCol < List.length header0 -> header = header0)
    /\ (dateCol = List.length header0 -> header = header0 ++ [dateLabel]).
Proof.
  intros sheetName existing dateLabel scores header0 header dateCol.
  assert (Hh0 : header0 <> []).
  { unfold header0. destruct (withHeader_shape existing) as (h & -> & Hne). exact Hne. }
  split; [|split].
  - unfold header0, withHeader. destruct existing as [|h rest]; [reflexivity|].
    cbn [nth]. destruct (String.eqb (cellAt h 0) ""); [|reflexivity].
    cbn [nth]. now destruct h.
  - intros i Hi. unfold header0, withHeader. destruct existing as [|h rest].
    + cbn [nth]. unfold cellAt. destruct i as [|[|i]]; [lia | reflexivity | reflexivity].
    + cbn [nth]. destruct (String.eqb (cellAt h 0) ""); [|reflexivity].
      cbn [nth]. unfold cellAt. rewrite nth_arraySet.
      destruct i; [lia | reflexivity].
  - unfold header. rewrite upsertValues_header. fold header0.
    unfold dateCol, resolvedDateCol, resolveDateCol. fold header0.
    assert (Hlen : 1 <= List.length header0) by (destruct header0; [contradiction | simpl; lia]).
    destruct (findIndex (fun v => String.eqb v dateLabel) header0) as [i|] eqn:Ef; cbn [snd].
    + destruct (findIndex_Some _ "" _ Ef) as (H1 & H2 & H3).
      apply String.eqb_eq in H2.
      repeat split; try lia; try reflexivity; try exact H2.
      intros j Hj. specialize (H3 j Hj). cbv beta in H3.
      now apply String.eqb_neq in H3.
    + rewrite Nat.max_r by exact Hlen.
      pose proof (findIndex_None _ _ Ef) as Hnone.
      split; [|split; [|split; [|split; [|split]]]].
      * intros i Hi. unfold cellAt. rewrite nth_arraySet.
        now replace (i =? List.length header0) with false
          by (symmetry; apply Nat.eqb_neq; exact Hi).
      * unfold cellAt. rewrite nth_arraySet. now rewrite Nat.eqb_refl.
      * intros j Hj. unfold cellAt.
        specialize (Hnone (nth j header0 "") (nth_In _ _ Hj)). cbv beta in Hnone.
        now apply String.eqb_neq in Hnone.
      * lia.
      * lia.
      * intros _. apply arraySet_at_length.
Qed.

Lemma upsertStep_keeps_DataRowsIndexed (sheetName : string) (dateCol : nat)
      (st : UpsertState) (s : CulvertScoreRow) :
  DataRowsIndexed st ->
  DataRowsIndexed (upsertStep sheetName dateCol st s)
  /\ 1 <= targetRow st s < List.length (st_values (upsertStep sheetName dateCol st s))
  /\ List.length (st_values st)
     <= List.length (st_values (upsertStep sheetName dateCol st s)).
Proof.
  intros (Hv & Hrows). unfold DataRowsIndexed, targetRow.
  destruct (findRowByName (st_nameToRow st) (normalizeName (name s))) as [r|] eqn:E.
  - destruct (upsertStep_found sheetName dateCol st s E) as [-> ->].
    apply findRowByName_In in E as [k Hk]. pose proof (Hrows k r Hk) as Hr.
    split; [split; assumption | split; lia].
  - destruct (upsertStep_appended sheetName dateCol st s E) as (-> & -> & _).
    rewrite length_app. cbn [List.length].
    assert (1 <= List.length (st_values st))
      by (destruct (st_values st); [contradiction | simpl; lia]).
    split; [split|split; lia].
    + destruct (st_values st); discriminate.
    + intros k r Hin. apply In_set in Hin as [Hin|Hin].
      * specialize (Hrows k r Hin). lia.
      * injection Hin as -> ->. lia.
Qed.

Lemma upsertTargets_rows (sheetName : string) (dateCol : nat)
      (scores : list CulvertScoreRow) :
  forall st,
    DataRowsIndexed st ->
    Forall (fun rv => 1 <= fst rv
                      < List.length (st_values (upsertLoop sheetName dateCol st scores)))
           (upsertTargets sheetName dateCol st scores)
    /\ List.length (st_values st)
       <= List.length (st_values (upsertLoop sheetName dateCol st scores)).
Proof.
  induction scores as [|s scores IH]; intros st Hst.
  - split; [constructor | simpl; lia].
  - cbn [upsertTargets upsertLoop fold_left].
    fold (upsertLoop sheetName dateCol (upsertStep sheetName dateCol st s) scores).
    destruct (upsertStep_keeps_DataRowsIndexed sheetName dateCol s Hst) as (Hst1 & Ht & Hl).
    destruct (IH _ Hst1) as [IHf IHl]. split; [|lia].
    constructor; [cbn [fst]; lia | exact IHf].
Qed.

Lemma upsertInit_DataRowsIndexed (existing : Sheet) (dateLabel : string) :
  DataRowsIndexed (snd (upsertInit existing dateLabel)).
Proof.
  destruct (upsertInit_shape existing dateLabel) as (h & -> & _).
  unfold DataRowsIndexed, buildIndex. cbn [st_values st_nameToRow].
  change (skipn 1 (h :: skipn 1 existing)) with (skipn 1 existing).
  split; [discriminate|].
  intros k r Hin. apply indexRows_In in Hin as [[]|Hin]. cbn [List.length]. lia.
Qed.

Lemma cell_applyColumn_single (g : Sheet) (col row : nat) (v : string) (r c : nat) :
  Store.cell (applyColumn g (col, row, [v])) r c
  = if (c =? col) && (r =? row) then v else Store.cell g r c.
Proof.
  unfold applyColumn. cbn [fst snd].
  rewrite (proj1 (writeBlock_column [v] g row col)). cbn [List.length].
  destruct (Nat.eqb_spec c col); destruct (Nat.eqb_spec r row);
    destruct (Nat.leb_spec row r); destruct (Nat.ltb_spec r (row + 1));
    cbn [andb]; try lia; try reflexivity.
  subst. now rewrite Nat.sub_diag.
Qed.

Lemma cell_score_writes (dateCol : nat) (cells : list (nat * string)) :
  forall (g : Sheet) (r : nat),
    Store.cell (fold_left applyColumn
                          (map (fun rv => (dateCol, fst rv, [snd rv])) cells) g)
               r dateCol
    = match lastWrite cells r with
      | Some v => v
      | None => Store.cell g r dateCol
      end.
Proof.
  induction cells as [|[r' v] cells IH]; intros g r; [reflexivity|].
  cbn [map fold_left lastWrite fst snd]. rewrite IH.
  destruct (lastWrite cells r); [reflexivity|].
  rewrite cell_applyColumn_single, Nat.eqb_refl. cbn [andb].
  rewrite (Nat.eqb_sym r r'). now destruct (r' =? r).
Qed.

(** X6.  The date column of the store after an upsert, when the date column
    is not the name column: its header cell holds the date label, the
    header cell of the name column holds [Name], and a data row holds the
    value of the last entry written to it, or what it held when no entry
    was written to it.  Each entry is written to a data row of the sheet. *)
Theorem upsert_date_column_last_write_wins
        (sheetName : string) (existing : Sheet) (dateLabel : string)
        (scores : list CulvertScoreRow) :
  scores <> [] ->
  resolvedDateCol existing dateLabel <> 0 ->
  let dateCol := resolvedDateCol existing dateLabel in
  let cells := upsertTargets sheetName dateCol (snd (upsertInit existing dateLabel)) scores in
  exists g',
    Store.batchUpdate sheetName existing
      (upsertCulvertScoresByName sheetName existing dateLabel scores) = Some g'
    /\ Store.cell g' 0 0 = "Name"
    /\ Store.cell g' 0 dateCol = dateLabel
    /\ (forall r, 1 <= r ->
                  Store.cell g' r dateCol
                  = match lastWrite cells r with
                    | Some v => v
                    | None => Store.cell existing r dateCol
                    end)
    /\ Forall (fun rv => 1 <= fst rv
                         < List.length (upsertValues sheetName existing dateLabel scores))
              cells.
Proof.
  intros Hne Hcol dateCol cells.
  destruct (upsertRun_unfold sheetName existing dateLabel scores) as (h & _ & Hv & Hu).
  fold dateCol in Hv, Hu. fold cells in Hu.
  assert (Hlen0 : (List.length scores =? 0) = false)
    by (destruct scores; [contradiction | reflexivity]).
  unfold upsertCulvertScoresByName. rewrite Hlen0, Hu.
  rewrite (batchUpdate_columns
             (upsert_updates_columns sheetName dateLabel dateCol cells
                                     (upsertValues sheetName existing dateLabel scores))).
  eexists. split; [reflexivity|].
  unfold upsertColumns. rewrite fold_left_app. cbn [fold_left].
  set (g1 := fold_left applyColumn _ existing).
  set (names := nameColumn _).
  assert (Hnames : forall g r c,
             Store.cell (applyColumn g (0, 1, names)) r c
             = if (c =? 0) && (1 <=? r) && (r <? 1 + List.length names)
               then nth (r - 1) names "" else Store.cell g r c).
  { intros g r c. unfold applyColumn. cbn [fst snd].
    apply (proj1 (writeBlock_column names g 1 0)). }
  split; [|split; [|split]].
  - rewrite Hnames. cbn [Nat.eqb Nat.leb andb].
    rewrite !cell_applyColumn_single.
    replace (0 =? dateCol) with false by (symmetry; apply Nat.eqb_neq; lia).
    reflexivity.
  - rewrite Hnames.
    replace (dateCol =? 0) with false by (symmetry; now apply Nat.eqb_neq).
    cbn [andb]. rewrite cell_applyColumn_single, Nat.eqb_refl. reflexivity.
  - intros r Hr. rewrite Hnames.
    replace (dateCol =? 0) with false by (symmetry; now apply Nat.eqb_neq).
    cbn [andb]. rewrite !cell_applyColumn_single.
    replace (dateCol =? 0) with false by (symmetry; now apply Nat.eqb_neq).
    replace (r =? 0) with false by (symmetry; apply Nat.eqb_neq; lia).
    rewrite andb_false_r. cbn [andb].
    unfold g1. apply cell_score_writes.
  - unfold cells, upsertValues, upsertRun.
    pose proof (upsertRun_dateCol sheetName existing dateLabel scores) as Hdc.
    unfold upsertRun in Hdc.
    pose proof (upsertInit_DataRowsIndexed existing dateLabel) as Hinit.
    destruct (upsertInit existing dateLabel) as [dc st0]. cbn [fst snd st_values] in *.
    subst dc. fold dateCol.
    exact (proj1 (upsertTargets_rows sheetName dateCol scores Hinit)).
Qed.

Lemma upsert_date_column_last_write_wins_witness :
  exists g',
    Store.batchUpdate "Sheet1" [["Name"; "3/1/24"]; ["Ann"; "5"]; ["Bob"; "6"]]
      (upsertCulvertScoresByName "Sheet1" [["Name"; "3/1/24"]; ["Ann"; "5"]; ["Bob"; "6"]]
         "3/8/24" [mkScore "ann" "7"; mkScore "Cid" "8"; mkScore "ANN" "9"]) = Some g'
    /\ Store.cell g' 0 0 = "Name"
    /\ Store.cell g' 0 (resolvedDateCol [["Name"; "3/1/24"]; ["Ann"; "5"]; ["Bob"; "6"]] "3/8/24")
       = "3/8/24"
    /\ (forall r, 1 <= r ->
          Store.cell g' r (resolvedDateCol [["Name"; "3/1/24"]; ["Ann"; "5"]; ["Bob"; "6"]] "3/8/24")
          = match
              lastWrite
                (upsertTargets "Sheet1"
                   (resolvedDateCol [["Name"; "3/1/24"]; ["Ann"; "5"]; ["Bob"; "6"]] "3/8/24")
                   (snd (upsertInit [["Name"; "3/1/24"]; ["Ann"; "5"]; ["Bob"; "6"]] "3/8/24"))
                   [mkScore "ann" "7"; mkScore "Cid" "8"; mkScore "ANN" "9"]) r
            with
            | Some v => v
            | None => Store.cell [["Name"; "3/1/24"]; ["Ann"; "5"]; ["Bob"; "6"]] r
                        (resolvedDateCol [["Name"; "3/1/24"]; ["Ann"; "5"]; ["Bob"; "6"]] "3/8/24")
            end)
    /\ Forall (fun rv => 1 <= fst rv
                 < List.length (upsertValues "Sheet1"
                                  [["Name"; "3/1/24"]; ["Ann"; "5"]; ["Bob"; "6"]] "3/8/24"
                                  [mkScore "ann" "7"; mkScore "Cid" "8"; mkScore "ANN" "9"]))
              (upsertTargets "Sheet1"
                 (resolvedDateCol [["Name"; "3/1/24"]; ["Ann"; "5"]; ["Bob"; "6"]] "3/8/24")
                 (snd (upsertInit [["Name"; "3/1/24"]; ["Ann"; "5"]; ["Bob"; "6"]] "3/8/24"))
                 [mkScore "ann" "7"; mkScore "Cid" "8"; mkScore "ANN" "9"]).
Proof.
  apply (@upsert_date_column_last_write_wins
           "Sheet1" [["Name"; "3/1/24"]; ["Ann"; "5"]; ["Bob"; "6"]] "3/8/24"
           [mkScore "ann" "7"; mkScore "Cid" "8"; mkScore "ANN" "9"]).
  - discriminate.
  - vm_compute. discriminate.
Defined.







Lemma upsert_store_nameColumn (sheetName : string) (existing : Sheet)
      (dateLabel : string) (scores : list CulvertScoreRow) :
  exists g',
    Store.batchUpdate sheetName existing
      (upsertCulvertScoresByName sheetName existing dateLabel scores) = Some g'
    /\ nameColumn g' = nameColumn (upsertValues sheetName existing dateLabel scores).
Proof.
  unfold upsertCulvertScoresByName. destruct scores as [|s scores].
  { exists existing. split; [reflexivity|].
    destruct (upsertRun_unfold sheetName existing dateLabel []) as (h & _ & Hv & _).
    rewrite Hv. cbn [appendedNames map]. now rewrite app_nil_r. }
  cbn [List.length Nat.eqb].
  destruct (upsert_updates_shape sheetName existing dateLabel (s :: scores))
    as (cells & Hcells & Hlen & Hone & Hu).
  cbv zeta in *. rewrite Hu.
  rewrite (batchUpdate_columns (upsert_updates_columns sheetName dateLabel _ cells _)).
  eexists. split; [reflexivity|].
  fold (upsertValues sheetName existing dateLabel (s :: scores)) in *.
  now apply store_nameColumn.
Qed.



(* ================================================================== *)
(** * More properties: dates *)
(* ================================================================== *)

(** Checked by evaluation over the years 2000..2099. *)
Lemma labelForm_century : forallb labelFormOn (zrange 2000 100) = true.
Proof. vm_cast_no_check (eq_refl true). Qed.

Lemma isoToSheetDateLabel_form (y m d : Z) :
  (2000 <= y <= 2099)%Z -> (1 <= m <= 12)%Z -> (1 <= d <= 31)%Z ->
  isoToSheetDateLabel (isoOfParts y m d)
  = (ofNumber m ++ "/" ++ ofNumber d ++ "/" ++ padStart0 2 (ofNumber (y mod 100)))%string.
Proof.
  intros Hy Hm Hd.
  pose proof (@forallb_zrange _ _ _ labelForm_century y ltac:(lia)) as H1.
  unfold labelFormOn in H1.
  pose proof (@forallb_zrange _ _ _ H1 m ltac:(lia)) as H2. cbv beta in H2.
  pose proof (@forallb_zrange _ _ _ H2 d ltac:(lia)) as H3. cbv beta in H3.
  now apply String.eqb_eq in H3.
Qed.

(** X8.  The header label is a canonical name of the day.  For two command
    dates that [parseN8nDate] accepts the labels written for them are equal
    exactly when they are the same day, so a day has one column however its
    command date was typed; the label is the month, the day and the last
    two digits of the year between slashes, month and day without a leading
    zero. *)
Theorem date_label_canonical (raw1 raw2 : string) (res1 res2 : N8nDate) :
  parseN8nDate raw1 = Some res1 ->
  parseN8nDate raw2 = Some res2 ->
  (isoToSheetDateLabel (isoDate res1) = isoToSheetDateLabel (isoDate res2)
   <-> parseSheetDate raw1 = parseSheetDate raw2)
  /\ exists year month day,
      IsCommandDate raw1 year month day
      /\ isoToSheetDateLabel (isoDate res1)
         = (ofNumber month ++ "/" ++ ofNumber day ++ "/"
            ++ padStart0 2 (ofNumber (year mod 100)))%string.
Proof.
  intros H1 H2.
  apply parseN8nDate_spec in H1 as (y1 & m1 & d1 & Hc1 & V1 & ->).
  apply parseN8nDate_spec in H2 as (y2 & m2 & d2 & Hc2 & V2 & ->).
  assert (Hy1 : (2000 <= y1 <= 2099)%Z).
  { destruct Hc1 as (g1 & g2 & g3 & _ & _ & _ & D3 & _ & _ & L3 & _ & _ & ->).
    pose proof (digitsValue_two _ D3 L3). lia. }
  assert (Hy2 : (2000 <= y2 <= 2099)%Z).
  { destruct Hc2 as (g1 & g2 & g3 & _ & _ & _ & D3 & _ & _ & L3 & _ & _ & ->).
    pose proof (digitsValue_two _ D3 L3). lia. }
  cbn [isoDate].
  rewrite (parseSheetDate_command_date Hc1 V1), (parseSheetDate_command_date Hc2 V2).
  assert (W1 : isValidDateParts y1 m1 d1 = true) by now rewrite isValidDateParts_century.
  assert (W2 : isValidDateParts y2 m2 d2 = true) by now rewrite isValidDateParts_century.
  split; [split|].
  - intro E. rewrite <- (label_round_trip m1 d1 Hy1 V1), <- (label_round_trip m2 d2 Hy2 V2).
    now rewrite E.
  - intro E. injection E as E.
    destruct (dateKey_reads_back _ _ _ W1) as (A1 & B1 & C1).
    destruct (dateKey_reads_back _ _ _ W2) as (A2 & B2 & C2).
    rewrite E in A1, B1, C1.
    assert (Ey : y1 = y2) by lia. assert (Em : m1 = m2) by lia.
    assert (Ed : d1 = d2) by lia. now rewrite Ey, Em, Ed.
  - exists y1, m1, d1. split; [exact Hc1|].
    apply isValidDateParts_bounds in W1. apply isoToSheetDateLabel_form; lia.
Qed.

Lemma date_label_canonical_witness :
  (isoToSheetDateLabel (isoDate (mkN8nDate "2026-02-05" "MM/DD/YY"))
   = isoToSheetDateLabel (isoDate (mkN8nDate "2026-02-05" "MM/DD/YY"))
   <-> parseSheetDate "2/5/26" = parseSheetDate "02/05/26")
  /\ exists year month day,
      IsCommandDate "2/5/26" year month day
      /\ isoToSheetDateLabel (isoDate (mkN8nDate "2026-02-05" "MM/DD/YY"))
         = (ofNumber month ++ "/" ++ ofNumber day ++ "/"
            ++ padStart0 2 (ofNumber (year mod 100)))%string.
Proof.
  apply (@date_label_canonical "2/5/26" "02/05/26"
           (mkN8nDate "2026-02-05" "MM/DD/YY") (mkN8nDate "2026-02-05" "MM/DD/YY"));
    vm_compute; reflexivity.
Defined.

Lemma string_length_append (a b : string) :
  String.length (a ++ b)%string = String.length a + String.length b.
Proof.
  induction a as [|x a IH]; simpl; [reflexivity | now rewrite IH].
Qed.

Lemma allSpace_append (a b : string) : allSpace (a ++ b)%string = allSpace a && allSpace b.
Proof.
  induction a as [|c a IH]; simpl; [reflexivity | now rewrite IH, andb_assoc].
Qed.

Lemma trimStart_spaces_before (w x : string) :
  allSpace w = true -> trimStart (w ++ x)%string = trimStart x.
Proof.
  induction w as [|c w IH]; [reflexivity|]. cbn [allSpace]. intro H.
  apply andb_prop in H as [Hc Hw]. simpl. rewrite Hc. now apply IH.
Qed.

Lemma trimEnd_spaces_after (x w : string) :
  allSpace w = true -> trimEnd (x ++ w)%string = trimEnd x.
Proof.
  intro Hw. induction x as [|c x IH].
  - simpl. now apply trimEnd_allSpace.
  - change (String c x ++ w)%string with (String c (x ++ w)%string).
    cbn [trimEnd allSpace]. rewrite allSpace_append, Hw, andb_true_r. now rewrite IH.
Qed.

Lemma trimStart_app_nonblank (x w : string) :
  allSpace x = false -> trimStart (x ++ w)%string = (trimStart x ++ w)%string.
Proof.
  induction x as [|c x IH]; [discriminate|]. cbn [allSpace]. intro H. simpl.
  destruct (isSpace c); [apply IH; exact H | reflexivity].
Qed.

Lemma trim_spaces_around (w1 s w2 : string) :
  allSpace w1 = true -> allSpace w2 = true -> trim (w1 ++ s ++ w2)%string = trim s.
Proof.
  intros H1 H2. unfold trim. rewrite trimStart_spaces_before by exact H1.
  destruct (allSpace s) eqn:Hs.
  - rewrite !trimStart_allSpace; [reflexivity | exact Hs |].
    now rewrite allSpace_append, Hs, H2.
  - rewrite trimStart_app_nonblank by exact Hs. now apply trimEnd_spaces_after.
Qed.

Lemma matchThreeGroups_digits (sep : ascii) (l1 l2 l3 : list nat) (g1 g2 g3 : string) :
  isDigit sep = false ->
  allDigits g1 = true -> allDigits g2 = true -> allDigits g3 = true ->
  matchThreeGroups sep l1 l2 l3 (g1 ++ String sep (g2 ++ String sep g3))%string
  = if lengthIn g1 l1 && lengthIn g2 l2 && lengthIn g3 l3
    then Some (g1, g2, g3) else None.
Proof.
  intros Hsep D1 D2 D3. unfold matchThreeGroups.
  rewrite (spanDigits_app _ _ D1) by exact Hsep.
  destruct (lengthIn g1 l1); [|reflexivity]. cbn [negb andb].
  rewrite Ascii.eqb_refl. cbn [negb].
  rewrite (spanDigits_app _ _ D2) by exact Hsep.
  destruct (lengthIn g2 l2); [|reflexivity]. cbn [negb andb].
  rewrite Ascii.eqb_refl. cbn [negb].
  replace g3 with (g3 ++ "")%string at 1 by apply string_app_nil_r.
  rewrite (spanDigits_app _ _ D3) by exact I.
  destruct (lengthIn g3 l3); reflexivity.
Qed.

Lemma trim_digit_groups (g1 g2 g3 : string) :
  allDigits g1 = true -> allDigits g3 = true -> g3 <> "" ->
  trim (g1 ++ String "/" (g2 ++ String "/" g3))%string
  = (g1 ++ String "/" (g2 ++ String "/" g3))%string.
Proof.
  intros D1 D3 N3. destruct g1 as [|c g1].
  - apply trim_id; [reflexivity|].
    assert (E : ("" ++ String "/" (g2 ++ String "/" g3))%string
                = ((String "/" g2 ++ String "/" "") ++ g3)%string)
      by (rewrite string_app_assoc; reflexivity).
    rewrite E, endsNoSpace_app by exact N3. now apply allDigits_endsNoSpace.
  - apply trim_slash_date; [exact D1 | discriminate | exact D3 | exact N3].
Qed.

(** X9.  [parseSheetDate] reads a header label whatever white space is
    around it, and reads the year of two digits YY as the year 20YY: a label
    with digits of month and day gives the same date, or is refused alike,
    with the year written YY or 20YY. *)
Theorem parseSheetDate_spaces_and_year_forms :
  (forall w1 s w2 : string,
      allSpace w1 = true -> allSpace w2 = true ->
      parseSheetDate (w1 ++ s ++ w2)%string = parseSheetDate s)
  /\ (forall g1 g2 g3 : string,
         allDigits g1 = true -> allDigits g2 = true -> allDigits g3 = true ->
         String.length g3 = 2 ->
         parseSheetDate (g1 ++ "/" ++ g2 ++ "/" ++ "20" ++ g3)%string
         = parseSheetDate (g1 ++ "/" ++ g2 ++ "/" ++ g3)%string).
Proof.
  split.
  - intros w1 s w2 H1 H2. unfold parseSheetDate. now rewrite trim_spaces_around.
  - intros g1 g2 g3 D1 D2 D3 L3. unfold parseSheetDate.
    change (g1 ++ "/" ++ g2 ++ "/" ++ "20" ++ g3)%string
      with (g1 ++ String "/" (g2 ++ String "/" ("20" ++ g3)))%string.
    change (g1 ++ "/" ++ g2 ++ "/" ++ g3)%string
      with (g1 ++ String "/" (g2 ++ String "/" g3))%string.
    assert (D4 : allDigits ("20" ++ g3)%string = true)
      by (rewrite allDigits_app, D3; reflexivity).
    rewrite !trim_digit_groups; try assumption;
      [|intros ->; discriminate | discriminate].
    rewrite !matchThreeGroups_digits by (assumption || reflexivity).
    assert (L4 : lengthIn ("20" ++ g3)%string [2; 4] = true)
      by (unfold lengthIn; rewrite string_length_append, L3; reflexivity).
    assert (L3' : lengthIn g3 [2; 4] = true)
      by (unfold lengthIn; rewrite L3; reflexivity).
    rewrite L4, L3'. destruct (lengthIn g1 [1; 2] && lengthIn g2 [1; 2]); [|reflexivity].
    cbn [andb]. rewrite string_length_append, L3. cbn [String.length Nat.add Nat.eqb].
    replace (digitsValue ("20" ++ g3)%string) with (2000 + digitsValue g3)%Z;
      [reflexivity|].
    destruct g3 as [|a [|b [|c g3]]]; try discriminate.
    unfold digitsValue. cbn [append list_ascii_of_string fold_left].
    change (code "2") with 50. change (code "0") with 48. lia.
Qed.

(* ================================================================== *)
(** * More properties: extraction, aggregation, scores *)
(* ================================================================== *)

Lemma flat_map_optList_length (A B : Type) (f : A -> option B) (l : list A) :
  List.length (flat_map (fun a => optList (f a)) l) <= List.length l.
Proof.
  induction l as [|a l IH]; simpl; [lia|].
  rewrite length_app. destruct (f a); simpl; lia.
Qed.

Lemma flat_map_optList_nil (A B : Type) (f : A -> option B) (l : list A) :
  (forall a, In a l -> f a = None) -> flat_map (fun a => optList (f a)) l = [].
Proof.
  induction l as [|a l IH]; intro H; [reflexivity|].
  cbn [flat_map]. rewrite (H a) by now left. apply IH.
  intros a' Ha'. apply H. now right.
Qed.

(** X10.  What [getUserPoints] answers depends on the user name only through
    its normalized form.  For a name that is not blank the display name is
    the name cell of the row found, as the sheet has it, and it normalizes
    to the normalized input; there are at most as many points as header
    columns after the first. *)
Theorem getUserPoints_display_name
        (Number : string -> float) (rows : Sheet) (username : string)
        (user : UserPoints) :
  getUserPoints Number rows username = Some user ->
  (forall username2,
      normalizeName username2 = normalizeName username ->
      getUserPoints Number rows username2 = Some user)
  /\ (allSpace username = false ->
      exists row,
        In row (skipn 1 rows)
        /\ displayName user = cellAt row 0
        /\ normalizeName (displayName user) = normalizeName username
        /\ allSpace (displayName user) = false)
  /\ List.length (points user) <= List.length (nth 0 rows []) - 1.
Proof.
  intro H. split; [|split].
  - intros u2 E. unfold getUserPoints in *.
    change (normalizeUsername u2) with (normalizeName u2).
    change (normalizeUsername username) with (normalizeName username) in H.
    now rewrite E.
  - intro Hnb. unfold getUserPoints in H.
    destruct (find _ (skipn 1 rows)) as [row|] eqn:E; [|discriminate].
    injection H as <-. apply find_some in E as [Hin Heq].
    apply String.eqb_eq in Heq.
    change (normalizeUsername (cellAt row 0)) with (normalizeName (cellAt row 0)) in Heq.
    change (normalizeUsername username) with (normalizeName username) in Heq.
    assert (Hne : normalizeName (cellAt row 0) <> "").
    { rewrite Heq. intro Hb. apply normalizeName_blank in Hb. congruence. }
    exists row. cbn [displayName].
    assert (Hd : match row with [] => "undefined" | c :: _ => c end = cellAt row 0).
    { destruct row as [|c row]; [|reflexivity]. exfalso. apply Hne. reflexivity. }
    rewrite Hd. repeat split; try assumption.
    destruct (allSpace (cellAt row 0)) eqn:Ha; [|reflexivity].
    apply normalizeName_blank in Ha. contradiction.
  - unfold getUserPoints in H.
    destruct (find _ (skipn 1 rows)) as [row|]; [|discriminate].
    injection H as <-. cbn [points].
    rewrite sortBy_length, fold_userPointAt. cbn [app].
    etransitivity; [apply flat_map_optList_length|]. now rewrite length_seq.
Qed.

Lemma getUserPoints_display_name_witness :
  (forall username2,
      normalizeName username2 = normalizeName " ANN  lee" ->
      getUserPoints (fun _ => PrimFloat.zero)
                    [["Name"; "3/1/24"]; ["Ann Lee"; ""]] username2
      = Some (mkUser "Ann Lee" []))
  /\ (allSpace " ANN  lee" = false ->
      exists row,
        In row (skipn 1 [["Name"; "3/1/24"]; ["Ann Lee"; ""]])
        /\ displayName (mkUser "Ann Lee" []) = cellAt row 0
        /\ normalizeName (displayName (mkUser "Ann Lee" [])) = normalizeName " ANN  lee"
        /\ allSpace (displayName (mkUser "Ann Lee" [])) = false)
  /\ List.length (points (mkUser "Ann Lee" []))
     <= List.length (nth 0 [["Name"; "3/1/24"]; ["Ann Lee"; ""]] []) - 1.
Proof.
  apply (@getUserPoints_display_name (fun _ => PrimFloat.zero)
           [["Name"; "3/1/24"]; ["Ann Lee"; ""]] " ANN  lee" (mkUser "Ann Lee" [])).
  vm_compute. reflexivity.
Defined.

(** X11.  The reply of the cumulative command: not enough data for a sheet
    of fewer than two rows; otherwise no dated columns exactly when no
    header cell after the first reads as a date; otherwise a chart with as
    many labels as totals, at least one. *)
Theorem cumulativeCommand_replies :
  forall (Number : string -> float) (rows : Sheet),
    (List.length rows < 2 -> cumulativeCommand Number rows = NotEnoughData)
    /\ (2 <= List.length rows ->
        (cumulativeCommand Number rows = NoDatedColumns
         <-> forall col, 1 <= col ->
                         parseSheetDate (trim (cellAt (nth 0 rows []) col)) = None))
    /\ (forall labels totals,
           cumulativeCommand Number rows = CumulativeChart labels totals ->
           2 <= List.length rows
           /\ List.length labels = List.length totals
           /\ labels <> []
           /\ labels = map t_label (cumulativePoints Number rows)
           /\ totals = map t_total (cumulativePoints Number rows)).
Proof.
  intros Number rows. unfold cumulativeCommand.
  assert (Hcols : cumulativeColumns Number rows = []
                  <-> forall col, 1 <= col ->
                        parseSheetDate (trim (cellAt (nth 0 rows []) col)) = None).
  { unfold cumulativeColumns. rewrite fold_totalPointAt. cbn [app]. split.
    - intros E col Hcol.
      destruct (parseSheetDate (trim (cellAt (nth 0 rows []) col))) as [d|] eqn:Ed;
        [|reflexivity].
      exfalso. pose proof (dated_column_in_header _ _ Ed) as Hlt.
      assert (Hin : In (mkTotal (trim (cellAt (nth 0 rows []) col)) d
                                (sumOfColumn Number rows col))
                       (flat_map (fun c => optList (totalOfColumn Number rows c))
                                 (seq 1 (List.length (nth 0 rows []) - 1)))).
      { apply in_flat_map. exists col. split; [apply in_seq; lia|].
        unfold totalOfColumn. rewrite Ed. now left. }
      rewrite E in Hin. destruct Hin.
    - intro Hnone. apply flat_map_optList_nil. intros c Hc.
      apply in_seq in Hc. unfold totalOfColumn. now rewrite (Hnone c) by lia. }
  split; [|split].
  - intro H. now replace (List.length rows <? 2) with true
      by (symmetry; apply Nat.ltb_lt; exact H).
  - intro H. replace (List.length rows <? 2) with false
      by (symmetry; apply Nat.ltb_ge; exact H).
    rewrite <- Hcols.
    destruct (cumulativeColumns Number rows) as [|p l] eqn:E; cbn [List.length Nat.eqb].
    + split; reflexivity.
    + split; discriminate.
  - intros labels totals H.
    destruct (List.length rows <? 2) eqn:E1; [discriminate|].
    apply Nat.ltb_ge in E1.
    destruct (List.length (cumulativeColumns Number rows) =? 0) eqn:E2; [discriminate|].
    injection H as <- <-. apply Nat.eqb_neq in E2.
    split; [exact E1|]. split; [now rewrite !length_map|]. split; [|split; reflexivity].
    intro E. apply (f_equal (@List.length _)) in E.
    rewrite length_map in E. unfold cumulativePoints in E.
    rewrite sortBy_length in E. simpl in E. contradiction.
Qed.

Lemma removeCommas_idem (s : string) : removeCommas (removeCommas s) = removeCommas s.
Proof.
  induction s as [|c s IH]; [reflexivity|]. cbn [removeCommas].
  destruct (Ascii.eqb c ",") eqn:E; [exact IH|].
  cbn [removeCommas]. now rewrite E, IH.
Qed.

Lemma removeCommas_blank (s : string) :
  onlyCommasAndSpaces s = true -> allSpace (removeCommas s) = true.
Proof.
  unfold onlyCommasAndSpaces. induction s as [|c s IH]; [reflexivity|].
  cbn [list_ascii_of_string forallb removeCommas]. intro H.
  apply andb_prop in H as [Hc Hs].
  destruct (Ascii.eqb c ",") eqn:E; [now apply IH|].
  cbn [allSpace]. rewrite orb_false_r in Hc. now rewrite Hc, IH.
Qed.

(** X12.  A score that [parseScore] returns is a finite number; commas count
    for nothing, so a cell reads the same with or without its thousands
    separators; and a cell of commas and white space only gives no score,
    whatever [Number] makes of the empty string. *)
Theorem parseScore_finite_commas_blank :
  forall (Number : string -> float) (raw : string),
    (forall v, parseScore Number raw = Some v ->
               PrimFloat.is_finite v = true
               /\ v = Number (trim (removeCommas raw))
               /\ trim (removeCommas raw) <> "")
    /\ parseScore Number (removeCommas raw) = parseScore Number raw
    /\ (onlyCommasAndSpaces raw = true -> parseScore Number raw = None).
Proof.
  intros Number raw. split; [|split].
  - intro v. unfold parseScore.
    destruct (String.eqb_spec (trim (removeCommas raw)) "") as [E|E]; [discriminate|].
    destruct (PrimFloat.is_finite _) eqn:F; [|discriminate].
    intro H. injection H as <-. repeat split; assumption.
  - unfold parseScore. now rewrite removeCommas_idem.
  - intro H. unfold parseScore.
    apply removeCommas_blank, trim_empty_iff in H. now rewrite H.
Qed.

(* ================================================================== *)
(** * More properties: compared users *)
(* ================================================================== *)

Lemma noSpaces_trim (p : string) : noSpaces p = true -> trim p = p.
Proof.
  intro H. apply trim_id.
  - destruct p as [|c p]; [exact I|]. unfold noSpaces in H. simpl in H.
    apply andb_prop in H as [Hc _]. simpl. now destruct (isSpace c).
  - induction p as [|c p IH]; [reflexivity|].
    unfold noSpaces in H. cbn [list_ascii_of_string forallb] in H.
    apply andb_prop in H as [Hc Hp]. destruct p as [|c' p'].
    + simpl. exact Hc.
    + exact (IH Hp).
Qed.

Lemma splitSpaces_noSpaces (s : string) :
  forall b p, In p (splitSpaces b s) -> noSpaces p = true.
Proof.
  induction s as [|c s IH]; intros b p Hin.
  - destruct Hin as [<-|[]]. reflexivity.
  - cbn [splitSpaces] in Hin. destruct (isSpace c) eqn:Hc.
    + destruct b; [exact (IH _ _ Hin)|].
      destruct Hin as [<-|Hin]; [reflexivity | exact (IH _ _ Hin)].
    + destruct (splitSpaces false s) as [|q qs] eqn:E.
      * destruct Hin as [<-|[]]. unfold noSpaces. simpl. now rewrite Hc.
      * destruct Hin as [<-|Hin].
        -- unfold noSpaces. cbn [list_ascii_of_string forallb]. rewrite Hc.
           apply (IH false q). rewrite E. now left.
        -- apply (IH false p). rewrite E. now right.
Qed.

Lemma two_parts (l : list string) (other : option (string * string)) (a b : string) :
  match l with
  | [x; y] => Some (x, y)
  | _ => other
  end = Some (a, b) ->
  l = [a; b] \/ other = Some (a, b).
Proof.
  destruct l as [|x [|y [|z l]]]; auto. intro H. injection H as <- <-. now left.
Qed.

Lemma trimmed_part (l : list string) (a : string) :
  In a (filter nonEmpty (map trim l)) -> a <> "" /\ trim a = a.
Proof.
  intro H. apply filter_In in H as [Hin Hne].
  apply in_map_iff in Hin as (x & <- & _). split; [|apply trim_idem].
  unfold nonEmpty in Hne. destruct (String.eqb_spec (trim x) ""); [discriminate | assumption].
Qed.

Lemma spaced_part (s a : string) :
  In a (filter nonEmpty (splitSpaces false s)) -> a <> "" /\ trim a = a.
Proof.
  intro H. apply filter_In in H as [Hin Hne]. split.
  - unfold nonEmpty in Hne. destruct (String.eqb_spec a ""); [discriminate | assumption].
  - apply noSpaces_trim. exact (splitSpaces_noSpaces _ _ _ Hin).
Qed.

Lemma trimEnd_decompose (b : string) :
  exists w, allSpace w = true /\ b = (trimEnd b ++ w)%string.
Proof.
  induction b as [|c b (w & Hw & E)]; [now exists ""|].
  cbn [trimEnd]. destruct (allSpace (String c b)) eqn:Ha.
  - now exists (String c b).
  - exists w. split; [exact Hw|]. simpl. now rewrite <- E.
Qed.

Lemma trimStart_decompose (a : string) :
  exists w, allSpace w = true /\ a = (w ++ trimStart a)%string.
Proof.
  induction a as [|c a (w & Hw & E)]; [now exists ""|].
  cbn [trimStart]. destruct (isSpace c) eqn:Hc.
  - exists (String c w). split; [simpl; now rewrite Hc|]. simpl. now rewrite <- E.
  - now exists "".
Qed.

Lemma trimEnd_app_nonblank (x b : string) :
  allSpace b = false -> trimEnd (x ++ b)%string = (x ++ trimEnd b)%string.
Proof.
  intro Hb. induction x as [|c x IH]; [reflexivity|].
  change (String c x ++ b)%string with (String c (x ++ b)%string).
  cbn [trimEnd allSpace]. rewrite allSpace_append, Hb, andb_false_r, andb_false_r.
  simpl. now rewrite IH.
Qed.

Lemma noChar_app (c : ascii) (a b : string) :
  noChar c (a ++ b)%string = noChar c a && noChar c b.
Proof. unfold noChar. now rewrite list_ascii_of_string_app, forallb_app. Qed.

Lemma splitOn_none (sep : ascii) (s : string) :
  noChar sep s = true -> splitOn sep s = [s].
Proof.
  induction s as [|c s IH]; [reflexivity|].
  unfold noChar. cbn [list_ascii_of_string forallb splitOn]. intro H.
  apply andb_prop in H as [Hc Hs]. apply negb_true_iff in Hc.
  rewrite Hc. now rewrite (IH Hs).
Qed.

Lemma splitOn_first (sep : ascii) (a rest : string) :
  noChar sep a = true ->
  splitOn sep (a ++ String sep rest)%string = a :: splitOn sep rest.
Proof.
  induction a as [|c a IH]; intro H.
  - simpl. now rewrite Ascii.eqb_refl.
  - unfold noChar in H. cbn [list_ascii_of_string forallb] in H.
    apply andb_prop in H as [Hc Ha]. apply negb_true_iff in Hc.
    change (String c a ++ String sep rest)%string
      with (String c (a ++ String sep rest)%string).
    cbn [splitOn]. now rewrite Hc, (IH Ha).
Qed.

(** X13.  The two names [parseCompareUsers] returns are not blank and have
    no white space around them; a blank command gives none; and two names
    with a bar between them, neither of them blank or holding a bar, are
    returned trimmed, whatever commas and white space they hold. *)
Theorem parseCompareUsers_names :
  (forall raw a b,
      parseCompareUsers raw = Some (a, b) ->
      a <> "" /\ trim a = a /\ allSpace a = false
      /\ b <> "" /\ trim b = b /\ allSpace b = false)
  /\ (forall raw, allSpace raw = true -> parseCompareUsers raw = None)
  /\ (forall a b,
         noChar "|" a = true -> noChar "|" b = true ->
         allSpace a = false -> allSpace b = false ->
         parseCompareUsers (a ++ "|" ++ b)%string = Some (trim a, trim b)).
Proof.
  split; [|split].
  - intros raw a b H.
    assert (Hab : (a <> "" /\ trim a = a) /\ (b <> "" /\ trim b = b)).
    { unfold parseCompareUsers in H.
      destruct (String.eqb (trim raw) ""); [discriminate|].
      apply two_parts in H as [E|H].
      { split; apply (trimmed_part (splitOn "|" (trim raw))); rewrite E; simpl; auto. }
      apply two_parts in H as [E|H].
      { split; apply (trimmed_part (splitOn "," (trim raw))); rewrite E; simpl; auto. }
      apply two_parts in H as [E|H]; [|discriminate].
      split; apply (spaced_part (trim raw)); rewrite E; simpl; auto. }
    destruct Hab as [[Ha Ta] [Hb Tb]].
    assert (Hns : forall x, x <> "" -> trim x = x -> allSpace x = false).
    { intros x Hx Tx. destruct (allSpace x) eqn:E; [|reflexivity].
      apply trim_empty_iff in E. congruence. }
    repeat split; auto.
  - intros raw H. unfold parseCompareUsers.
    apply trim_empty_iff in H. now rewrite H.
  - intros a b Na Nb Ha Hb. unfold parseCompareUsers.
    assert (Et : trim (a ++ "|" ++ b)%string = (trimStart a ++ "|" ++ trimEnd b)%string).
    { unfold trim. rewrite trimStart_app_nonblank by exact Ha.
      rewrite <- string_app_assoc.
      rewrite trimEnd_app_nonblank by exact Hb. now rewrite string_app_assoc. }
    rewrite Et.
    destruct (trimStart_decompose a) as (w1 & Hw1 & Ea).
    destruct (trimEnd_decompose b) as (w2 & Hw2 & Eb).
    assert (Na' : noChar "|" (trimStart a) = true).
    { rewrite Ea, noChar_app in Na. now apply andb_prop in Na as [_ ?]. }
    assert (Nb' : noChar "|" (trimEnd b) = true).
    { rewrite Eb, noChar_app in Nb. now apply andb_prop in Nb as [? _]. }
    assert (Ta : trim (trimStart a) = trim a).
    { rewrite Ea at 2. symmetry.
      rewrite <- (string_app_nil_r (trimStart a)) at 1.
      now apply trim_spaces_around. }
    assert (Tb : trim (trimEnd b) = trim b).
    { rewrite Eb at 2. symmetry.
      change (trimEnd b ++ w2)%string with ("" ++ trimEnd b ++ w2)%string.
      now apply trim_spaces_around. }
    assert (Hne : String.eqb (trimStart a ++ "|" ++ trimEnd b)%string "" = false).
    { destruct (trimStart a); reflexivity. }
    rewrite Hne.
    change (trimStart a ++ "|" ++ trimEnd b)%string
      with (trimStart a ++ String "|" (trimEnd b))%string.
    rewrite splitOn_first by exact Na'. rewrite splitOn_none by exact Nb'.
    cbn [map]. rewrite Ta, Tb. cbn [filter]. unfold nonEmpty.
    destruct (String.eqb_spec (trim a) "") as [E|_];
      [apply trim_empty_iff in E; congruence|].
    destruct (String.eqb_spec (trim b) "") as [E|_];
      [apply trim_empty_iff in E; congruence|].
    reflexivity.
Qed.

(* ================================================================== *)
(** * More properties: extracted entries *)
(* ================================================================== *)

Section ExtractionProperties.

Variable JSON_parse : string -> option Json.
Variable numberToString : float -> string.

Lemma entryOfRow_trimmed (acc : list CulvertScoreRow) (row : Json) :
  Forall TrimmedEntry acc -> Forall TrimmedEntry (entryOfRow numberToString acc row).
Proof.
  intro H. unfold entryOfRow.
  destruct (negb (isObjectValue row)); [exact H|].
  destruct (orElse (field "Name" row) (field "name" row)) as [n|]; [|exact H].
  destruct (orElse (field "Culvert" row) (field "culvert" row)) as [c|]; [|exact H].
  destruct (nullish (Some n) || nullish (Some c)); [exact H|].
  apply Forall_app. split; [exact H|].
  constructor; [|constructor]. split; cbn [name culvert]; apply trim_idem.
Qed.

Lemma entries_trimmed (rows : list Json) :
  forall acc, Forall TrimmedEntry acc ->
              Forall TrimmedEntry (fold_left (entryOfRow numberToString) rows acc).
Proof.
  induction rows as [|r rows IH]; intros acc H; [exact H|].
  cbn [fold_left]. apply IH. now apply entryOfRow_trimmed.
Qed.

Lemma toExtractedEntries_CleanEntry (rawBody : string) :
  Forall CleanEntry (toExtractedEntries JSON_parse numberToString rawBody).
Proof.
  unfold toExtractedEntries. cbv zeta.
  set (rows := match _ with JArray items => items | _ => _ end).
  pose proof (entries_trimmed rows (Forall_nil _)) as H.
  rewrite Forall_forall in *. intros e He.
  apply filter_In in He as [Hin Hne]. apply andb_prop in Hne as [Hn Hc].
  destruct (H e Hin) as [Tn Tc]. unfold nonEmpty in *.
  destruct (String.eqb_spec (name e) ""); [discriminate|].
  destruct (String.eqb_spec (culvert e) ""); [discriminate|].
  repeat split; assumption.
Qed.

Lemma CleanEntry_not_blank (e : CulvertScoreRow) :
  CleanEntry e -> normalizeName (name e) <> "".
Proof.
  intros (Hn & _ & Tn & _) E.
  apply normalizeName_blank, trim_empty_iff in E. congruence.
Qed.

Lemma extractJsonFromText_direct (raw : string) (v : Json) :
  JSON_parse raw = Some v -> isNull v = false ->
  extractJsonFromText JSON_parse raw = v.
Proof.
  intros E Hv. unfold extractJsonFromText, tryParseJsonObject. cbv zeta.
  now rewrite E, Hv.
Qed.

Lemma extractJsonFromText_unparsable (raw : string) :
  (forall s, JSON_parse s = None) -> extractJsonFromText JSON_parse raw = JNull.
Proof.
  intro H. unfold extractJsonFromText, bracketed, tryParseJsonObject. cbv zeta.
  repeat rewrite H. cbn [isNull negb].
  destruct (match fencedGroup "json" raw with Some g => Some g | None => _ end);
    cbn [isNull negb];
    destruct (indexOfChar "[" raw), (lastIndexOfChar "]" raw),
             (indexOfChar "{" raw), (lastIndexOfChar "}" raw);
    repeat match goal with |- context [if ?b then _ else _] => destruct b end;
    rewrite ?H; reflexivity.
Qed.

Lemma entries_of_jsonRows (rows : list (string * string)) :
  forall acc,
    fold_left (entryOfRow numberToString) (map jsonRow rows) acc
    = acc ++ map (fun nc => mkScore (trim (fst nc)) (trim (snd nc))) rows.
Proof.
  induction rows as [|[n c] rows IH]; intro acc; [now rewrite app_nil_r|].
  cbn [map fold_left]. rewrite IH.
  change (entryOfRow numberToString acc (jsonRow (n, c)))
    with (acc ++ [mkScore (trim n) (trim c)]).
  now rewrite <- app_assoc.
Qed.

End ExtractionProperties.

(** X14.  Every entry that [toExtractedEntries] returns has a name and a
    score that are not empty and have no white space around them, so its
    name is not blank once normalized; a body in which nothing parses gives
    no entry; and a body that parses to an array of rows with the fields
    "name" and "culvert", none of them blank, gives one entry a row, in the
    order of the rows, with the fields trimmed. *)
Theorem toExtractedEntries_clean_entries :
  forall (JSON_parse : string -> option Json) (numberToString : float -> string)
         (rawBody : string),
    let entries := toExtractedEntries JSON_parse numberToString rawBody in
    Forall (fun e => CleanEntry e /\ normalizeName (name e) <> "") entries
    /\ ((forall s, JSON_parse s = None) -> entries = [])
    /\ (forall rows : list (string * string),
           JSON_parse rawBody = Some (JArray (map jsonRow rows)) ->
           Forall (fun nc => allSpace (fst nc) = false /\ allSpace (snd nc) = false) rows ->
           entries = map (fun nc => mkScore (trim (fst nc)) (trim (snd nc))) rows).
Proof.
  intros JSON_parse numberToString rawBody entries. split; [|split].
  - pose proof (@toExtractedEntries_CleanEntry JSON_parse numberToString rawBody) as H.
    rewrite Forall_forall in *. intros e He. split; [now apply H|].
    apply CleanEntry_not_blank. now apply H.
  - intro H. subst entries. unfold toExtractedEntries, tryParseJsonObject. cbv zeta.
    rewrite H. now rewrite (@extractJsonFromText_unparsable JSON_parse rawBody H).
  - intros rows E Hrows. subst entries.
    unfold toExtractedEntries, tryParseJsonObject. cbv zeta. rewrite E.
    rewrite (@extractJsonFromText_direct JSON_parse rawBody _ E eq_refl).
    rewrite entries_of_jsonRows. cbn [app]. clear E.
    induction Hrows as [|[n c] rows [Hn Hc] _ IH]; [reflexivity|].
    cbn [map filter name culvert fst snd] in *. unfold nonEmpty at 1 2.
    destruct (String.eqb_spec (trim n) "") as [En|_];
      [apply trim_empty_iff in En; congruence|].
    destruct (String.eqb_spec (trim c) "") as [Ec|_];
      [apply trim_empty_iff in Ec; congruence|].
    cbn [negb andb]. now rewrite IH.
Qed.

(** X15.  From a response to the sheet: when the data rows of the sheet have
    pairwise distinct normalized names, so have the rows of the in-memory
    sheet and of the store after the upsert of the entries extracted from
    any response body; the entries need no hypothesis, the extraction
    having dropped every blank name. *)
Theorem extracted_upsert_keeps_names_distinct :
  forall (JSON_parse : string -> option Json) (numberToString : float -> string)
         (sheetName : string) (existing : Sheet) (dateLabel rawBody : string),
    NoDup (normalizedNames existing) ->
    let scores := toExtractedEntries JSON_parse numberToString rawBody in
    NoDup (normalizedNames (upsertValues sheetName existing dateLabel scores))
    /\ exists g',
        Store.batchUpdate sheetName existing
          (upsertCulvertScoresByName sheetName existing dateLabel scores) = Some g'
        /\ NoDup (normalizedNames g').
Proof.
  intros JSON_parse numberToString sheetName existing dateLabel rawBody Hnd scores.
  assert (H : NoDup (normalizedNames (upsertValues sheetName existing dateLabel scores))).
  { apply upsertValues_NoDup; [exact Hnd|].
    pose proof (@toExtractedEntries_CleanEntry JSON_parse numberToString rawBody) as Hc.
    rewrite Forall_forall in *. intros e He. apply CleanEntry_not_blank. now apply Hc. }
  split; [exact H|].
  destruct (upsert_store_nameColumn sheetName existing dateLabel scores) as (g' & Hb & Hn).
  exists g'. split; [exact Hb|]. unfold normalizedNames in *. now rewrite Hn.
Qed.

Lemma extracted_upsert_keeps_names_distinct_witness :
  NoDup (normalizedNames
           (upsertValues "Sheet1" [["Name"; "3/1/24"]; ["Bob"; "5"]] "3/8/24"
              (toExtractedEntries
                 (fun _ => Some (JArray [jsonRow (" Alice ", "7"); jsonRow ("  ", "8");
                                         jsonRow ("BOB", "9")]))
                 (fun _ => "0") "[]"))).
Proof.
  refine (proj1 (@extracted_upsert_keeps_names_distinct
                   (fun _ => Some (JArray [jsonRow (" Alice ", "7"); jsonRow ("  ", "8");
                                           jsonRow ("BOB", "9")]))
                   (fun _ => "0") "Sheet1" [["Name"; "3/1/24"]; ["Bob"; "5"]]
                   "3/8/24" "[]" _)).
  vm_compute. repeat constructor. intros [].
Defined.

(* ================================================================== *)
(** * More properties: commands and attachments *)
(* ================================================================== *)






Lemma endsWith_spec (s suffix : string) :
  endsWith s suffix = true <-> exists stem, s = (stem ++ suffix)%string.
Proof.
  induction s as [|c s IH].
  - cbn [endsWith]. rewrite orb_false_r, String.eqb_eq. split.
    + intros <-. now exists "".
    + intros [[|a stem] E]; [exact E | discriminate].
  - cbn [endsWith]. rewrite orb_true_iff, String.eqb_eq, IH. split.
    + intros [<-|[stem ->]]; [now exists "" | now exists (String c stem)].
    + intros [[|a stem] E]; [now left|].
      right. injection E as _ E. now exists stem.
Qed.

(** X17.  An attachment counts as an image exactly when its content type
    starts with "image/" or its file name, in lower case, ends with a dot
    and one of the nine extensions; the case of the letters of the file
    name plays no part; and with a content type that starts with "image/"
    the file name plays none. *)
Theorem isImageAttachment_type_or_extension :
  forall contentType filename : option string,
    (isImageAttachment contentType filename = true
     <-> (exists rest, contentType = Some ("image/" ++ rest)%string)
         \/ (exists stem ext,
                In ext imageExtensions
                /\ toLowerCase (match filename with Some f => f | None => "" end)
                   = (stem ++ "." ++ ext)%string))
    /\ isImageAttachment contentType (option_map toLowerCase filename)
       = isImageAttachment contentType filename
    /\ (forall rest other,
           isImageAttachment (Some ("image/" ++ rest)%string) other = true).
Proof.
  intros contentType filename. split; [|split].
  - unfold isImageAttachment, hasImageExtension. cbv zeta.
    set (f := toLowerCase _).
    assert (Hext : existsb (fun ext => endsWith f (String "." ext)) imageExtensions = true
                   <-> exists stem ext,
                       In ext imageExtensions /\ f = (stem ++ "." ++ ext)%string).
    { rewrite existsb_exists. split.
      - intros (ext & Hin & He). apply endsWith_spec in He as [stem E].
        now exists stem, ext.
      - intros (stem & ext & Hin & E). exists ext. split; [exact Hin|].
        apply endsWith_spec. now exists stem. }
    destruct contentType as [ct|].
    + destruct (String.prefix "image/" ct) eqn:P.
      * split; [|reflexivity]. intros _. left.
        apply prefix_spec in P as [rest ->]. now exists rest.
      * rewrite Hext. split; [now right|].
        intros [[rest E]|H]; [|exact H]. injection E as E.
        apply not_true_iff_false in P. exfalso. apply P.
        apply prefix_spec. now exists rest.
    + rewrite Hext. split; [now right|]. intros [[rest E]|H]; [discriminate | exact H].
  - unfold isImageAttachment. cbv zeta.
    destruct filename as [f|]; cbn [option_map]; [|reflexivity].
    now rewrite toLowerCase_idem.
  - intros rest other. unfold isImageAttachment.
    assert (P : String.prefix "image/" ("image/" ++ rest)%string = true)
      by (apply prefix_spec; now exists rest).
    now rewrite P.
Qed.

(* ================================================================== *)
(** * More properties: a fenced block in a response *)
(* ================================================================== *)

Lemma lowerChar_backtick (c : ascii) :
  Ascii.eqb (lowerChar "`") (lowerChar c) = Ascii.eqb c "`".
Proof.
  destruct c as [b0 b1 b2 b3 b4 b5 b6 b7];
    destruct b0, b1, b2, b3, b4, b5, b6, b7; vm_compute; reflexivity.
Qed.

Lemma stripPrefixNoCase_same (p q rest : string) :
  toLowerCase p = toLowerCase q ->
  stripPrefixNoCase p (q ++ rest)%string = Some rest.
Proof.
  revert q. induction p as [|a p IH]; intros [|b q] E; try discriminate.
  - reflexivity.
  - simpl in E. injection E as Ea Ep. simpl.
    rewrite Ea, Ascii.eqb_refl. now apply IH.
Qed.

Lemma textBefore_first (b post : string) :
  noChar "`" b = true -> textBefore "```" (b ++ "```" ++ post)%string = Some b.
Proof.
  induction b as [|c b IH]; intro H; [destruct post; reflexivity|].
  unfold noChar in H. cbn [list_ascii_of_string forallb] in H.
  apply andb_prop in H as [Hc Hb]. apply negb_true_iff in Hc.
  change (String c b ++ "```" ++ post)%string
    with (String c (b ++ "```" ++ post)%string).
  cbn [textBefore].
  destruct (String.prefix "```" (String c (b ++ "```" ++ post)%string)) eqn:P.
  - apply prefix_spec in P as [r E]. injection E as E _.
    rewrite E, Ascii.eqb_refl in Hc. discriminate.
  - now rewrite (IH Hb).
Qed.

Lemma fencedGroup_skip (tag pre s : string) :
  noChar "`" pre = true -> fencedGroup tag (pre ++ s)%string = fencedGroup tag s.
Proof.
  induction pre as [|c pre IH]; intro H; [reflexivity|].
  unfold noChar in H. cbn [list_ascii_of_string forallb] in H.
  apply andb_prop in H as [Hc Hp]. apply negb_true_iff in Hc.
  change (String c pre ++ s)%string with (String c (pre ++ s)%string).
  cbn [fencedGroup].
  change (stripPrefixNoCase ("```" ++ tag) (String c (pre ++ s)%string))
    with (if Ascii.eqb (lowerChar "`") (lowerChar c)
          then stripPrefixNoCase ("``" ++ tag) (pre ++ s)%string else None).
  rewrite lowerChar_backtick, Hc. exact (IH Hp).
Qed.

Lemma noChar_trimStart (c : ascii) (s : string) :
  noChar c s = true -> noChar c (trimStart s) = true.
Proof.
  intro H. destruct (trimStart_decompose s) as (w & _ & E).
  rewrite E, noChar_app in H. now apply andb_prop in H as [_ ?].
Qed.

Lemma fencedGroup_found (tag pre ws body post : string) :
  toLowerCase tag = "json" ->
  noChar "`" pre = true -> noChar "`" body = true -> allSpace ws = true ->
  fencedGroup "json" (pre ++ "```" ++ tag ++ ws ++ body ++ "```" ++ post)%string
  = Some (trimStart body).
Proof.
  intros Htag Hpre Hbody Hws. rewrite fencedGroup_skip by exact Hpre.
  assert (Hs : stripPrefixNoCase ("```" ++ "json")
                 (("```" ++ tag) ++ ws ++ body ++ "```" ++ post)%string
               = Some (ws ++ body ++ "```" ++ post)%string).
  { apply stripPrefixNoCase_same. simpl. now rewrite Htag. }
  assert (Ht : trimStart (ws ++ body ++ "```" ++ post)%string
               = (trimStart body ++ "```" ++ post)%string).
  { rewrite trimStart_spaces_before by exact Hws.
    destruct (allSpace body) eqn:Hb.
    - rewrite (trimStart_allSpace body Hb).
      rewrite <- (string_app_nil_r body) at 1. rewrite string_app_assoc.
      now rewrite trimStart_spaces_before by exact Hb.
    - now apply trimStart_app_nonblank. }
  destruct (("```" ++ tag) ++ ws ++ body ++ "```" ++ post)%string as [|c s] eqn:E;
    [discriminate|].
  change ("```" ++ tag ++ ws ++ body ++ "```" ++ post)%string
    with (("```" ++ tag) ++ ws ++ body ++ "```" ++ post)%string.
  rewrite E. cbn [fencedGroup]. rewrite Hs, Ht.
  now rewrite textBefore_first by (now apply noChar_trimStart).
Qed.

(** X18.  A fenced block in a response: when the text as a whole does not
    parse, and it has a block that opens with three backticks and the tag
    "json" in any case, with no backtick before it and none inside, the
    value is the one that the block parses to, once trimmed, whatever prose
    stands before and after it. *)
Theorem extractJsonFromText_fenced_block :
  forall (JSON_parse : string -> option Json) (tag pre ws body post : string) (v : Json),
    toLowerCase tag = "json" ->
    noChar "`" pre = true -> noChar "`" body = true -> allSpace ws = true ->
    JSON_parse (pre ++ "```" ++ tag ++ ws ++ body ++ "```" ++ post)%string = None ->
    JSON_parse (trim body) = Some v -> isNull v = false ->
    extractJsonFromText JSON_parse
      (pre ++ "```" ++ tag ++ ws ++ body ++ "```" ++ post)%string = v.
Proof.
  intros JSON_parse tag pre ws body post v Htag Hpre Hbody Hws Hraw Hv Hnn.
  unfold extractJsonFromText. cbv zeta.
  rewrite (fencedGroup_found tag pre ws body post Htag Hpre Hbody Hws).
  unfold tryParseJsonObject at 1 2. rewrite Hraw. cbn [isNull negb].
  assert (Et : trim (trimStart body) = trim body).
  { destruct (trimStart_decompose body) as (w & Hw & E).
    rewrite E at 2. symmetry.
    rewrite <- (string_app_nil_r (trimStart body)) at 1.
    now apply trim_spaces_around. }
  unfold tryParseJsonObject at 1 2. rewrite Et, Hv, Hnn. reflexivity.
Qed.

Lemma extractJsonFromText_fenced_block_witness :
  extractJsonFromText
    (fun s => if String.eqb s "[true]" then Some (JArray [JBool true]) else None)
    ("Here are the rows: " ++ "```" ++ "JSON" ++ " " ++ " [true] " ++ "```" ++ " done")%string
  = JArray [JBool true].
Proof.
  apply (@extractJsonFromText_fenced_block
           (fun s => if String.eqb s "[true]" then Some (JArray [JBool true]) else None)
           "JSON" "Here are the rows: " " " " [true] " " done" (JArray [JBool true]));
    reflexivity.
Defined.
